(** * Design governance engine and artifact healing pipeline

    A shallow embedding of [governance-engine.js] (the weighted rule-compliance
    scorer over a design node tree) and of the healing stages of the code
    output handler ([parseGeminiResponse] and its helpers), together with the
    properties of the specification that concern them.

    JavaScript strings are modelled as Rocq strings whose characters are read
    as the code units U+0000..U+00FF (Latin-1); numbers that the code treats
    as integers are in [Z], the colour arithmetic is in IEEE 754 binary64
    ([PrimFloat]), which is the JavaScript Number type. *)

From Stdlib Require Import ZArith QArith List String Ascii Lia Bool Floats.
From stdpp Require Import gmap strings.
Import ListNotations.

Local Open Scope Z_scope.
Local Open Scope string_scope.
Local Open Scope list_scope.

(** ** The JavaScript runtime: strings and regular expressions *)

Module JS.

Definition text := list ascii.

Definition s2l : string -> text := list_ascii_of_string.
Definition l2s : text -> string := string_of_list_ascii.

Definition code (c : ascii) : N := N_of_ascii c.

Definition between (lo hi : N) (c : ascii) : bool :=
  (N.leb lo (code c) && N.leb (code c) hi)%bool.

Definition isCode (k : N) (c : ascii) : bool := N.eqb (code c) k.

(** [\s]: WhiteSpace and LineTerminator code units below U+0100:
    TAB, LF, VT, FF, CR, SP and NBSP. [String.prototype.trim] strips the
    same set. *)
Definition isWhiteSpace (c : ascii) : bool :=
  (between 9 13 c || isCode 32 c || isCode 160 c)%bool.

(** LineTerminator code units below U+0100: LF and CR. *)
Definition isLineTerminator (c : ascii) : bool := (isCode 10 c || isCode 13 c)%bool.

(** [toLowerCase] on one code unit: A-Z and the Latin-1 capitals
    U+00C0..U+00DE (but U+00D7, the multiplication sign). *)
Definition lower (c : ascii) : ascii :=
  if (between 65 90 c || (between 192 222 c && negb (isCode 215 c)))%bool
  then ascii_of_N (code c + 32) else c.

(** [toUpperCase] on one code unit whose capital is again below U+0100:
    a-z and U+00E0..U+00FE (but U+00F7, the division sign). *)
Definition upper (c : ascii) : ascii :=
  if (between 97 122 c || (between 224 254 c && negb (isCode 247 c)))%bool
  then ascii_of_N (code c - 32) else c.

Definition toLowerCase (s : string) : string := l2s (map lower (s2l s)).
Definition toUpperCase (s : string) : string := l2s (map upper (s2l s)).

Fixpoint dropWhile (p : ascii -> bool) (s : text) : text :=
  match s with
  | c :: s' => if p c then dropWhile p s' else s
  | [] => []
  end.

Definition trim (s : string) : string :=
  l2s (rev (dropWhile isWhiteSpace (rev (dropWhile isWhiteSpace (s2l s))))).

Fixpoint isPrefix (p s : text) : bool :=
  match p, s with
  | [], _ => true
  | a :: p', b :: s' => (Ascii.eqb a b && isPrefix p' s')%bool
  | _ :: _, [] => false
  end.

Definition startsWith (s p : string) : bool := isPrefix (s2l p) (s2l s).

Definition endsWith (s p : string) : bool := isPrefix (rev (s2l p)) (rev (s2l s)).

Fixpoint isInfix (p s : text) : bool :=
  (isPrefix p s ||
   match s with
   | [] => false
   | _ :: s' => isInfix p s'
   end)%bool.

(** [s.includes(p)] *)
Definition includes (s p : string) : bool := isInfix (s2l p) (s2l s).

(** [s.split(sep)[0]] for a one-character separator: the text before the
    first separator, the whole string when there is none. *)
Fixpoint beforeSep (sep : ascii) (s : text) : text :=
  match s with
  | [] => []
  | c :: s' => if Ascii.eqb c sep then [] else c :: beforeSep sep s'
  end.

Definition splitFirst (sep : ascii) (s : string) : string :=
  l2s (beforeSep sep (s2l s)).

(** [s.split(sep)] for a one-character separator *)
Fixpoint splitOn (sep : ascii) (s : text) (cur : text) : list text :=
  match s with
  | [] => [rev cur]
  | c :: s' =>
      if Ascii.eqb c sep then rev cur :: splitOn sep s' []
      else splitOn sep s' (c :: cur)
  end.

Definition split (sep : ascii) (s : string) : list string :=
  map l2s (splitOn sep (s2l s) []).

(** [s.replace(pat, rep)] with a string pattern and a replacement without
    dollar patterns: the first occurrence only. *)
Fixpoint replaceStr (pat rep s : text) : text :=
  if isPrefix pat s then rep ++ skipn (List.length pat) s
  else match s with
       | [] => []
       | c :: s' => c :: replaceStr pat rep s'
       end.

Definition replaceString (s pat rep : string) : string :=
  l2s (replaceStr (s2l pat) (s2l rep) (s2l s)).

(** *** Regular expressions

    The patterns of the program are sequences of single-character classes,
    greedy and lazy stars and options over a class, capture-group
    boundaries, the multi-line [^] and one lookahead.  The matcher is the backtracking
    matcher of the language: a greedy star tries the longest repetition
    first, a lazy star the shortest. *)

Inductive atom : Type :=
| Chr (p : ascii -> bool)        (* one character of the class *)
| Star (p : ascii -> bool)       (* class*, greedy *)
| Lazy (p : ascii -> bool)       (* class*?, lazy *)
| Opt (p : ascii -> bool)        (* class?, greedy *)
| Mark                           (* a capture-group parenthesis *)
| Bol                            (* ^ under the m flag *)
| AheadOrEnd (lit : text).       (* (?=lit|$) without the m flag *)

Definition regex := list atom.

Definition any (c : ascii) : bool := true.
Definition dot (c : ascii) : bool := negb (isLineTerminator c).
Definition chr (a : ascii) (c : ascii) : bool := Ascii.eqb c a.
Definition chr_ci (a : ascii) (c : ascii) : bool := Ascii.eqb (lower c) (lower a).
Definition notChr (a : ascii) (c : ascii) : bool := negb (Ascii.eqb c a).

Definition lit (s : string) : regex := map (fun a => Chr (chr a)) (s2l s).
Definition lit_ci (s : string) : regex := map (fun a => Chr (chr_ci a)) (s2l s).
Definition plus (p : ascii -> bool) : regex := [Chr p; Star p].

Definition atLineStart (prev : option ascii) : bool :=
  match prev with
  | None => true
  | Some c => isLineTerminator c
  end.

(** [matchHere r prev s]: match [r] at the head of [s], where [prev] is the
    character before [s] in the subject.  The result lists the rest of the
    subject at every [Mark], in order, and the rest after the match last. *)
Fixpoint matchHere (r : regex) : option ascii -> text -> option (list text) :=
  match r with
  | [] => fun _ s => Some [s]
  | Chr p :: r' => fun _ s =>
      match s with
      | c :: s' => if p c then matchHere r' (Some c) s' else None
      | [] => None
      end
  | Star p :: r' =>
      fix star (prev : option ascii) (s : text) : option (list text) :=
        match s with
        | c :: s' =>
            if p c then
              match star (Some c) s' with
              | Some m => Some m
              | None => matchHere r' prev s
              end
            else matchHere r' prev s
        | [] => matchHere r' prev s
        end
  | Lazy p :: r' =>
      fix lazy (prev : option ascii) (s : text) : option (list text) :=
        match matchHere r' prev s with
        | Some m => Some m
        | None =>
            match s with
            | c :: s' => if p c then lazy (Some c) s' else None
            | [] => None
            end
        end
  | Opt p :: r' => fun prev s =>
      match s with
      | c :: s' =>
          if p c then
            match matchHere r' (Some c) s' with
            | Some m => Some m
            | None => matchHere r' prev s
            end
          else matchHere r' prev s
      | [] => matchHere r' prev s
      end
  | Mark :: r' => fun prev s =>
      match matchHere r' prev s with
      | Some m => Some (s :: m)
      | None => None
      end
  | Bol :: r' => fun prev s =>
      if atLineStart prev then matchHere r' prev s else None
  | AheadOrEnd l :: r' => fun prev s =>
      if (isPrefix l s || match s with [] => true | _ => false end)%bool
      then matchHere r' prev s else None
  end.

(** The text between two positions of a match, each given by the rest of
    the subject there. *)
Definition between_rests (from to : text) : text :=
  firstn (List.length from - List.length to) from.

Definition rest_of (m : list text) : text := List.last m [].

(** The whole match ([$&]) and the capture groups [$1], [$2] of a match
    that started at [s]. *)
Definition matched (s : text) (m : list text) : text := between_rests s (rest_of m).
Definition group (m : list text) (k : nat) : text :=
  between_rests (nth (2 * k - 2) m []) (nth (2 * k - 1) m []).

(** [r.exec(s)] from index 0 without the g flag: the leftmost match; the
    text before it and the match. *)
Fixpoint exec (r : regex) (prev : option ascii) (s : text) : option (text * text * list text) :=
  match matchHere r prev s with
  | Some m => Some ([], s, m)
  | None =>
      match s with
      | [] => None
      | c :: s' =>
          match exec r (Some c) s' with
          | Some (b, s0, m) => Some (c :: b, s0, m)
          | None => None
          end
      end
  end.

(** [r.test(s)], and the truth value of [s.match(r)] *)
Definition test (r : regex) (s : string) : bool :=
  match exec r None (s2l s) with Some _ => true | None => false end.

(** A replacement: a function of the text before the match, the subject
    from the match on, and the marks. *)
Definition replacer := text -> text -> list text -> text.

(** [s.replace(r, f)] without the g flag *)
Definition replaceFirst (r : regex) (f : replacer) (s : string) : string :=
  match exec r None (s2l s) with
  | Some (b, s0, m) => l2s (b ++ f b s0 m ++ rest_of m)
  | None => s
  end.

(** [s.replace(r, f)] with the g flag: the matches from left to right,
    each search starting where the previous match ended; after an empty
    match the next character is copied.  [skip] counts the characters of
    the subject still covered by the last match, [before] is the reversed
    subject before [s]. *)
Fixpoint replaceAll_go (r : regex) (f : replacer) (skip : nat) (before : text)
         (prev : option ascii) (s : text) : text :=
  match skip with
  | S k =>
      match s with
      | [] => []
      | c :: s' => replaceAll_go r f k (c :: before) (Some c) s'
      end
  | O =>
      match matchHere r prev s with
      | Some m =>
          f (rev before) s m ++
          match s with
          | [] => []
          | c :: s' =>
              match List.length (matched s m) with
              | O => c :: replaceAll_go r f 0 (c :: before) (Some c) s'
              | S k => replaceAll_go r f k (c :: before) (Some c) s'
              end
          end
      | None =>
          match s with
          | [] => []
          | c :: s' => c :: replaceAll_go r f 0 (c :: before) (Some c) s'
          end
      end
  end.

Definition replaceAll (r : regex) (f : replacer) (s : string) : string :=
  l2s (replaceAll_go r f 0 [] None (s2l s)).



(** GetSubstitution: the replacement text of a template with the dollar
    patterns [$$], [$&], [$`], [$'] and [$n], [$nn] for [ngroups] capture
    groups (there are no named groups, so [$<] is literal). *)
Definition digit (c : ascii) : option nat :=
  if between 48 57 c then Some (N.to_nat (code c) - 48)%nat else None.

Definition dollar : ascii := ascii_of_N 36.

Fixpoint expand (ngroups : nat) (tmpl : text) (b s0 : text) (m : list text) : text :=
  match tmpl with
  | [] => []
  | c :: t =>
      if negb (Ascii.eqb c dollar) then c :: expand ngroups t b s0 m
      else
        match t with
        | [] => [c]
        | d :: t' =>
            if Ascii.eqb d dollar then dollar :: expand ngroups t' b s0 m
            else if isCode 38 d then matched s0 m ++ expand ngroups t' b s0 m
            else if isCode 96 d then b ++ expand ngroups t' b s0 m
            else if isCode 39 d then rest_of m ++ expand ngroups t' b s0 m
            else
              match digit d with
              | None => c :: expand ngroups t b s0 m
              | Some n1 =>
                  let two :=
                    match t' with
                    | e :: t'' =>
                        match digit e with
                        | Some n2 =>
                            let n := (10 * n1 + n2)%nat in
                            if ((1 <=? n) && (n <=? ngroups))%nat
                            then Some (group m n ++ expand ngroups t'' b s0 m)
                            else None
                        | None => None
                        end
                    | [] => None
                    end in
                  match two with
                  | Some out => out
                  | None =>
                      if ((1 <=? n1) && (n1 <=? ngroups))%nat
                      then group m n1 ++ expand ngroups t' b s0 m
                      else c :: expand ngroups t b s0 m
                  end
              end
        end
  end.

Definition template (ngroups : nat) (tmpl : string) : replacer :=
  fun b s0 m => expand ngroups (s2l tmpl) b s0 m.

End JS.

Import JS.

Definition dq : string := String (ascii_of_N 34) EmptyString.

(** ** The data model of the validation engine *)

Inductive Severity : Type := CRITICAL | MAJOR | MINOR.

Inductive Status : Type := VERIFIED | UNKNOWN | VIOLATION.

Record Violation : Type := mkViolation {
  nodeName : string;
  message : string;
  severity : Severity;
  rule : string;
  suggestion : string }.

Record PropSpec : Type := mkPropSpec {
  ptype : string;
  required : bool;
  enum : option (list string) }.

Record Composition : Type := mkComposition {
  canContain : option (list string);
  cannotContain : option (list string) }.

Record ComponentRule : Type := mkRule {
  category : string;
  tag : string;
  props : option (gmap string PropSpec);
  composition : option Composition }.

(** [components] maps the own keys of the registry object to their rules. *)
Record Registry : Type := mkRegistry {
  components : gmap string ComponentRule }.

Record PropertyDescriptor : Type := mkDescriptor {
  pd_type : string;
  pd_value : string }.

(** A node of the design tree.  [componentProperties] lists the own keys of
    the object in the order [Object.keys] enumerates them; an absent field
    is [None]. *)
#[warnings="-register-all"]
Inductive DesignNode : Type := mkNode {
  id : string;
  name : string;
  componentProperties : option (list (string * PropertyDescriptor));
  children : option (list DesignNode);
  backgroundColor : option string;
  borderRadius : option Z;
  padding : option Z;
  layoutMode : option string }.

Record Visuals : Type := mkVisuals {
  v_backgroundColor : string;
  v_borderRadius : Z;
  v_padding : Z;
  v_layout : string }.

(** The draft registry entry [{ [name]: {...} }] of an unregistered
    component. *)
Record Fragment : Type := mkFragment {
  f_key : string;
  f_category : string;
  f_description : string;
  f_props : gmap string PropSpec;
  f_composition : Composition;
  f_visuals : Visuals;
  f_constraints : list string }.

Record ScannedComponent : Type := mkScanned {
  sc_id : string;
  sc_name : string;
  sc_lookupName : string;
  sc_status : Status;
  sc_fragment : option Fragment }.

Record Breakdown : Type := mkBreakdown {
  bCRITICAL : Z;
  bMAJOR : Z;
  bMINOR : Z;
  bPASS : Z }.

Module Report.
Record t : Type := mk {
  score : Z;
  violations : list Violation;
  components : list ScannedComponent;
  breakdown : Breakdown;
  valid : bool }.
End Report.

(** The engine object: the registry given to the constructor and the
    accumulators that [validate] resets and [_addViolation] updates. *)
Record GovernanceEngine : Type := mkEngine {
  registry : Registry;
  globalScore : Z;
  violations : list Violation;
  scannedComponents : list ScannedComponent;
  hasCriticalViolation : bool;
  breakdown : Breakdown }.

Definition new_GovernanceEngine (reg : Registry) : GovernanceEngine :=
  mkEngine reg 0 [] [] false (mkBreakdown 0 0 0 0).

(** ** The validation engine ([governance-engine.js]) *)

Definition weights (s : Severity) : Z :=
  match s with
  | CRITICAL => 50
  | MAJOR => 20
  | MINOR => 5
  end.

(** [x || 0] on a number *)
Definition orZero (x : Z) : Z := if Z.eqb x 0 then 0 else x.

Definition incr (s : Severity) (b : Breakdown) : Breakdown :=
  match s with
  | CRITICAL => mkBreakdown (bCRITICAL b + 1) (bMAJOR b) (bMINOR b) (bPASS b)
  | MAJOR => mkBreakdown (bCRITICAL b) (bMAJOR b + 1) (bMINOR b) (bPASS b)
  | MINOR => mkBreakdown (bCRITICAL b) (bMAJOR b) (bMINOR b + 1) (bPASS b)
  end.

Definition isCritical (s : Severity) : bool :=
  match s with CRITICAL => true | _ => false end.

Definition _addViolation (nodeName message : string) (severity : Severity)
           (rule suggestion : string) (this : GovernanceEngine) : GovernanceEngine :=
  mkEngine (registry this)
           (globalScore this - orZero (weights severity))
           (violations this ++ [mkViolation nodeName message severity rule suggestion])
           (scannedComponents this)
           (if isCritical severity then true else hasCriticalViolation this)
           (incr severity (breakdown this)).

(** [s.replace(/\s+/g, '-')] *)
Definition hyphenate (s : string) : string :=
  replaceAll (plus isWhiteSpace) (template 0 "-") s.

(** [s.startsWith('app-') ? s.replace('app-', '') : s] *)
Definition stripPrefix (s : string) : string :=
  if startsWith s "app-" then replaceString s "app-" "" else s.

(** The locals [baseNodeName], [cleanName] and [lookupName] of
    [_recursiveCheck], as functions of [node.name]. *)
Definition baseNodeName (name : string) : string :=
  toLowerCase (trim (splitFirst "/" name)).

Definition cleanName (name : string) : string := hyphenate (baseNodeName name).

Definition lookupName (name : string) : string := stripPrefix (cleanName name).

(** The locals [parentNodeName] and [parentLookup], as functions of
    [parentNode.name]. *)
Definition parentNodeName (name : string) : string := hyphenate (toLowerCase name).

Definition parentLookup (name : string) : string := stripPrefix (parentNodeName name).

(** [key.split('#')[0].toLowerCase()] *)
Definition cleanProp (key : string) : string := toLowerCase (splitFirst "#" key).

Definition keys {A : Type} (m : gmap string A) : list string := map fst (map_to_list m).

Definition str_in (x : string) (l : list string) : bool :=
  existsb (String.eqb x) l.

(** [a || d] on a string and on a number *)
Definition orStr (a : option string) (d : string) : string :=
  match a with
  | Some s => if String.eqb s "" then d else s
  | None => d
  end.

Definition orNum (a : option Z) (d : Z) : Z :=
  match a with
  | Some z => if Z.eqb z 0 then d else z
  | None => d
  end.

Definition _generateFragment (node : DesignNode) (name : string) : Fragment :=
  let props :=
    match componentProperties node with
    | Some cps =>
        fold_left (fun (acc : gmap string PropSpec) kv =>
                     <[cleanProp (fst kv) := mkPropSpec "string" false None]> acc)
                  cps ∅
    | None => ∅
    end in
  let visuals :=
    mkVisuals (orStr (backgroundColor node) "transparent")
              (orNum (borderRadius node) 0)
              (orNum (padding node) 0)
              (orStr (layoutMode node) "none") in
  mkFragment name "new-discovery" "Auto-detected component from Figma scan."
             props
             (mkComposition
                (match children node with
                 | Some (_ :: _) => Some ["*"]
                 | _ => Some []
                 end)
                (Some []))
             visuals ["mustBeOfficialized"].

Definition pushScanned (c : ScannedComponent) (this : GovernanceEngine) : GovernanceEngine :=
  mkEngine (registry this) (globalScore this) (violations this)
           (scannedComponents this ++ [c]) (hasCriticalViolation this) (breakdown this).

(** The nesting check of a governed node with a rule: the new status and
    engine. *)
Definition nestingCheck (node : DesignNode) (lookup : string) (parentNode : option DesignNode)
           (this : GovernanceEngine) : Status * GovernanceEngine :=
  match parentNode with
  | Some parent =>
      let parentLookup := parentLookup (name parent) in
      match components (registry this) !! parentLookup with
      | Some parentRules =>
          match composition parentRules with
          | Some comp =>
              match cannotContain comp with
              | Some cannot =>
                  if (str_in lookup cannot || str_in "*" cannot)%bool then
                    (VIOLATION,
                     _addViolation (name node)
                       ("Illegal nesting: " +:+ dq +:+ lookup +:+ dq +:+ " inside "
                          +:+ dq +:+ parentLookup +:+ dq +:+ ".")
                       CRITICAL "Composition"
                       ("Move out of " +:+ dq +:+ name parent +:+ dq +:+ ".") this)
                  else (VERIFIED, this)
              | None => (VERIFIED, this)
              end
          | None => (VERIFIED, this)
          end
      | None => (VERIFIED, this)
      end
  | None => (VERIFIED, this)
  end.

(** The property check of a governed node with a rule. *)
Definition propertyCheck (node : DesignNode) (componentRules : ComponentRule)
           (this : GovernanceEngine) : GovernanceEngine :=
  match componentProperties node, props componentRules with
  | Some cps, Some rprops =>
      let officialProps := map toLowerCase (keys rprops) in
      fold_left (fun this propKey =>
                   let cleanProp := cleanProp propKey in
                   if negb (str_in cleanProp officialProps) then
                     _addViolation (name node)
                       ("Unknown property " +:+ dq +:+ cleanProp +:+ dq +:+ ".")
                       MINOR "Property Validation" "Use official props." this
                   else this)
                (map fst cps) this
  | _, _ => this
  end.

(** The body of [_recursiveCheck] before the recursion into the children. *)
Definition scanNode (node : DesignNode) (parentNode : option DesignNode)
           (this : GovernanceEngine) : GovernanceEngine :=
  let lookupName := lookupName (name node) in
  let isComponent :=
    (startsWith (baseNodeName (name node)) "app-"
     || bool_decide (is_Some (components (registry this) !! lookupName)))%bool in
  if isComponent then
    match components (registry this) !! lookupName with
    | None =>
        let this1 :=
          _addViolation (name node)
            ("Component " +:+ dq +:+ lookupName +:+ dq +:+ " not in Registry.")
            CRITICAL "Existence Check" "Register to officialize." this in
        pushScanned (mkScanned (id node) (name node) lookupName UNKNOWN
                               (Some (_generateFragment node lookupName))) this1
    | Some componentRules =>
        let '(status, this1) := nestingCheck node lookupName parentNode this in
        let this2 := propertyCheck node componentRules this1 in
        pushScanned (mkScanned (id node) (name node) lookupName status None) this2
    end
  else this.

Fixpoint _recursiveCheck (node : DesignNode) (parentNode : option DesignNode)
         (this : GovernanceEngine) {struct node} : GovernanceEngine :=
  let this1 := scanNode node parentNode this in
  match children node with
  | Some cs => fold_left (fun this child => _recursiveCheck child (Some node) this) cs this1
  | None => this1
  end.

Definition isVerified (c : ScannedComponent) : bool :=
  match sc_status c with VERIFIED => true | _ => false end.

Definition validate (this : GovernanceEngine) (node : DesignNode)
  : GovernanceEngine * Report.t :=
  let this0 := mkEngine (registry this) 100 [] [] false (mkBreakdown 0 0 0 0) in
  let this1 := _recursiveCheck node None this0 in
  let score := Z.max 0 (globalScore this1) in
  let bd := mkBreakdown (bCRITICAL (breakdown this1)) (bMAJOR (breakdown this1))
                        (bMINOR (breakdown this1))
                        (Z.of_nat (List.length (List.filter isVerified (scannedComponents this1)))) in
  let this2 := mkEngine (registry this1) score (violations this1) (scannedComponents this1)
                        (hasCriticalViolation this1) bd in
  (this2,
   Report.mk score (violations this1) (scannedComponents this1) bd
             (negb (hasCriticalViolation this1) && Z.leb 90 score)%bool).

(** ** Notions used to state the properties of the validation engine *)

Definition sev_eqb (a b : Severity) : bool :=
  match a, b with
  | CRITICAL, CRITICAL | MAJOR, MAJOR | MINOR, MINOR => true
  | _, _ => false
  end.

(** The number of entries of a violation list with a given severity. *)
Definition countSeverity (s : Severity) (l : list Violation) : Z :=
  Z.of_nat (List.length (List.filter (fun v => sev_eqb (severity v) s) l)).

Definition report (this : GovernanceEngine) (tree : DesignNode) : Report.t :=
  snd (validate this tree).

(** The cleaned property keys of a node that are not, up to letter case,
    property names of a rule, in the order of the node's keys. *)
Definition unknownKeys (node : DesignNode) (r : ComponentRule) : list string :=
  match componentProperties node, props r with
  | Some cps, Some rprops =>
      List.filter (fun k => negb (str_in k (map toLowerCase (keys rprops))))
             (map (fun kv => cleanProp (fst kv)) cps)
  | _, _ => []
  end.

Definition unknownViolation (node : DesignNode) (k : string) : Violation :=
  mkViolation (name node) ("Unknown property " +:+ dq +:+ k +:+ dq +:+ ".")
              MINOR "Property Validation" "Use official props.".

(** The names of the nodes of a subtree, and of the nodes below its root. *)
Fixpoint subtreeNames (node : DesignNode) : list string :=
  name node ::
  match children node with
  | Some cs => flat_map subtreeNames cs
  | None => []
  end.

Definition descendantNames (node : DesignNode) : list string :=
  match children node with
  | Some cs => flat_map subtreeNames cs
  | None => []
  end.



(** A registry with the [required] flag of every property [p] of every rule
    [k] replaced by [g k p]. *)
Definition setRequired (g : string -> bool) (r : ComponentRule) : ComponentRule :=
  mkRule (category r) (tag r)
         (option_map (map_imap (fun p ps => Some (mkPropSpec (ptype ps) (g p) (enum ps))))
                     (props r))
         (composition r).

Definition withRequired (g : string -> string -> bool) (this : GovernanceEngine)
  : GovernanceEngine :=
  mkEngine (mkRegistry (map_imap (fun k r => Some (setRequired (g k) r))
                                 (components (registry this))))
           (globalScore this) (violations this) (scannedComponents this)
           (hasCriticalViolation this) (breakdown this).

(** ** Example registries and trees *)

Definition leaf (i n : string) : DesignNode :=
  mkNode i n None None None None None None.

Definition parentOf (i n : string) (cs : list DesignNode) : DesignNode :=
  mkNode i n None (Some cs) None None None None.

Definition buttonRule : ComponentRule :=
  mkRule "action" "button"
         (Some {[ "variant" := mkPropSpec "enum" true None ]}) None.

Definition cardRule : ComponentRule :=
  mkRule "container" "div" (Some ∅) (Some (mkComposition None (Some ["*"]))).

Definition heroRule : ComponentRule :=
  mkRule "container" "section" (Some ∅) (Some (mkComposition (Some ["*"]) (Some []))).

Definition exampleRegistry : Registry :=
  mkRegistry (<["button" := buttonRule]> (<["card" := cardRule]> {[ "hero" := heroRule ]})).

Definition exampleEngine : GovernanceEngine := new_GovernanceEngine exampleRegistry.

(** ** Colours ([rgbToHex], [getContrastColor])

    JavaScript numbers are IEEE 754 binary64 values, as are Rocq's primitive
    floats; the arithmetic below is the arithmetic of the program. *)

Inductive Integral : Type :=
| IntNaN
| IntInfinity (negative : bool)
| IntFinite (n : Z).

(** [Math.round]: the nearest integer, a tie going towards plus infinity. *)
Definition Math_round (x : float) : Integral :=
  match Prim2SF x with
  | S754_nan => IntNaN
  | S754_infinity s => IntInfinity s
  | S754_zero _ => IntFinite 0
  | S754_finite s m e =>
      let v := if s then Z.neg m else Z.pos m in
      if Z.leb 0 e then IntFinite (v * 2 ^ e)
      else IntFinite ((2 * v + 2 ^ (- e)) / 2 ^ (1 - e))
  end.

Definition hexDigit (d : Z) : ascii :=
  if Z.ltb d 10 then ascii_of_N (Z.to_N (48 + d)) else ascii_of_N (Z.to_N (87 + d)).

Fixpoint hexDigits (fuel : nat) (n : Z) (acc : text) : text :=
  match fuel with
  | O => acc
  | S fuel' =>
      let acc' := hexDigit (n mod 16) :: acc in
      if Z.eqb (n / 16) 0 then acc' else hexDigits fuel' (n / 16) acc'
  end.

(** [n.toString(16)] on the result of [Math.round] *)
Definition toString16 (n : Integral) : string :=
  match n with
  | IntNaN => "NaN"
  | IntInfinity false => "Infinity"
  | IntInfinity true => "-Infinity"
  | IntFinite z =>
      if Z.eqb z 0 then "0"
      else l2s ((if Z.ltb z 0 then s2l "-" else [])
                  ++ hexDigits (S (Z.to_nat (Z.log2 (Z.abs z)))) (Z.abs z) [])
  end.

Definition toHex (c : float) : string :=
  let hex := toString16 (Math_round (c * 255)%float) in
  if Nat.eqb (String.length hex) 1 then "0" +:+ hex else hex.

Definition rgbToHex (r g b : float) : string :=
  toUpperCase ("#" +:+ toHex r +:+ toHex g +:+ toHex b).

(** The local [luminance] of [getContrastColor]. *)
#[warnings="-inexact-float"]
Definition luminance (r g b : float) : float :=
  ((0.299 * r * 255 + 0.587 * g * 255 + 0.114 * b * 255) / 255)%float.

Definition getContrastColor (r g b : float) : string :=
  if PrimFloat.ltb 0.5%float (luminance r g b) then "#000000" else "#FFFFFF".

(** The luminance formula of the specification, [0.299r + 0.587g + 0.114b],
    evaluated in binary64 and evaluated exactly, in thousandths, on the
    rational values of the three channels. *)
#[warnings="-inexact-float"]
Definition luminance_formula (r g b : float) : float :=
  (0.299 * r + 0.587 * g + 0.114 * b)%float.

Definition exactValue (x : float) : option Q :=
  match Prim2SF x with
  | S754_zero _ => Some 0%Q
  | S754_finite s m e =>
      let v := if s then Z.neg m else Z.pos m in
      Some (if Z.leb 0 e then inject_Z (v * 2 ^ e)
            else Qmake v (Z.to_pos (2 ^ (- e))))
  | _ => None
  end.

Definition exactLuminance (r g b : float) : option Q :=
  match exactValue r, exactValue g, exactValue b with
  | Some x, Some y, Some z =>
      Some ((299 # 1000) * x + (587 # 1000) * y + (114 # 1000) * z)%Q
  | _, _, _ => None
  end.

(** ** The inferred inputs and the artifact bundle *)

(** The value of the [default] field of an inferred input, when it has one:
    a string, or another value given by the text that template
    interpolation prints for it. *)
Inductive DefaultValue : Type :=
| DefaultString (s : string)
| DefaultOther (printed : string).

Record InferredInput : Type := mkInput {
  in_name : string;
  in_type : string;
  in_defaultValue : option string;
  in_default : option DefaultValue }.

Record InferredInputs : Type := mkInferred {
  inputs : option (list InferredInput);
  warnings : list string }.

Record File : Type := mkFile {
  fileName : string;
  content : string;
  language : string;
  size : nat }.

Record Files : Type := mkFiles {
  typescript : option File;
  html : option File;
  scss : option File;
  story : option File;
  errors : list string }.

Definition setContent (f : File) (c : string) : File :=
  mkFile (fileName f) c (language f) (size f).

(** ** Content healing ([healEmptyTags]) *)

(** [/(<button[^>]*>)\s*(<\/button>)/gi] *)
Definition emptyButtonRegex : regex :=
  [Mark] ++ lit_ci "<button" ++ [Star (notChr ">"); Chr (chr ">"); Mark]
  ++ [Star isWhiteSpace]
  ++ [Mark] ++ lit_ci "</button>" ++ [Mark].

Definition textNames : list string := ["label"; "text"; "caption"; "title"; "content"].

(** The local [bindingVar]. *)
Definition bindingVar (inferredInputs : option InferredInputs) : string :=
  let inputs :=
    match inferredInputs with
    | Some ii => match inputs ii with Some l => l | None => [] end
    | None => []
    end in
  match find (fun i => str_in (toLowerCase (in_name i)) textNames) inputs with
  | Some textInput => in_name textInput
  | None => "label"
  end.

(** [healEmptyTags] on the content of [files.html]. *)
Definition healEmptyTags_content (html : string) (inferredInputs : option InferredInputs)
  : string :=
  let bindingVar := bindingVar inferredInputs in
  if test emptyButtonRegex html
  then replaceAll emptyButtonRegex (template 2 ("$1{{ " +:+ bindingVar +:+ " }}$2")) html
  else html.

(** [healEmptyTags(files, inferredInputs)]; the caller has checked that
    [files.html] is present. *)
Definition healEmptyTags (files : Files) (inferredInputs : option InferredInputs) : Files :=
  match html files with
  | Some h =>
      mkFiles (typescript files)
              (Some (setContent h (healEmptyTags_content (content h) inferredInputs)))
              (scss files) (story files) (errors files)
  | None => files
  end.

(** ** Selector normalization ([normalizeSelectors]) *)

(** [[a-z0-9-_]] *)
Definition classChar (c : ascii) : bool :=
  (between 97 122 c || between 48 57 c || chr "-" c || chr "_" c)%bool.

(** [/^\.([a-z0-9-_]+)\s*\{/m] *)
Definition topLevelClassRegex : regex :=
  [Bol; Chr (chr "."); Mark] ++ plus classChar ++ [Mark; Star isWhiteSpace; Chr (chr "{")].

(** [new RegExp(`\\.${hallucinatedClass}`, 'g')]: the class name consists of
    characters of [classChar], none of which is special in a pattern. *)
Definition classRegex (hallucinatedClass : string) : regex :=
  lit ("." +:+ hallucinatedClass).

(** [normalizeSelectors] on the contents of [files.html] and [files.scss]:
    the local [modified] and the new content of [files.scss]. *)
Definition normalizeSelectors_content (html scss : string) : bool * string :=
  if (includes html ("class=" +:+ dq +:+ "btn") || includes html "class='btn")%bool then
    if (negb (includes scss ".btn {") && negb (includes scss ".btn:")
        && negb (includes scss ".btn,"))%bool then
      match exec topLevelClassRegex None (s2l scss) with
      | Some (_, _, m) =>
          let hallucinatedClass := l2s (group m 1) in
          if negb (String.eqb hallucinatedClass "btn") then
            (true, replaceAll (classRegex hallucinatedClass) (template 0 ".btn") scss)
          else (false, scss)
      | None => (false, scss)
      end
    else (false, scss)
  else (false, scss).

(** [normalizeSelectors(files)]; the caller has checked that [files.html]
    and [files.scss] are present. *)
Definition normalizeSelectors (files : Files) : Files :=
  match html files, scss files with
  | Some h, Some sc =>
      let '(modified, out) := normalizeSelectors_content (content h) (content sc) in
      if modified
      then mkFiles (typescript files) (html files) (Some (setContent sc out))
                   (story files) (errors files)
      else files
  | _, _ => files
  end.




(** ** Structural healing ([validateAndHealComponent], [injectInferredInputs]) *)

Definition nl : string := String (ascii_of_N 10) EmptyString.

Fixpoint join (sep : string) (l : list string) : string :=
  match l with
  | [] => ""
  | [x] => x
  | x :: l' => x +:+ sep +:+ join sep l'
  end.

Definition isQuote (c : ascii) : bool := (chr "'" c || chr (ascii_of_N 34) c)%bool.

(** [/from '@angular\/core';/] *)
Definition fromCoreRegex : regex := lit "from '@angular/core';".

(** [/import\s*{[^}]*Input[^}]*}\s*from/] *)
Definition importInputRegex : regex :=
  lit "import" ++ [Star isWhiteSpace; Chr (chr "{"); Star (notChr "}")] ++ lit "Input"
  ++ [Star (notChr "}"); Chr (chr "}"); Star isWhiteSpace] ++ lit "from".

(** The pattern of an import list from the core module: [import], blanks,
    an opening brace, group 1 of characters other than a closing brace, the
    closing brace, blanks, [from], blanks and [@angular/core] between two
    quotes, each single or double. *)
Definition importCoreRegex : regex :=
  lit "import" ++ [Star isWhiteSpace; Chr (chr "{"); Mark; Star (notChr "}"); Mark;
                   Chr (chr "}"); Star isWhiteSpace]
  ++ lit "from" ++ [Star isWhiteSpace; Chr isQuote] ++ lit "@angular/core" ++ [Chr isQuote].

(** [/(export\s+class\s+.*\{)/] *)
Definition classStartRegex : regex :=
  [Mark] ++ lit "export" ++ plus isWhiteSpace ++ lit "class" ++ plus isWhiteSpace
  ++ [Star dot; Chr (chr "{"); Mark].

Definition inputField (input : InferredInput) : string :=
  let defaultValue :=
    match in_default input with
    | Some (DefaultString s) => " = '" +:+ s +:+ "'"
    | Some (DefaultOther printed) => " = " +:+ printed
    | None => ""
    end in
  "  @Input() " +:+ in_name input +:+ ": " +:+ in_type input +:+ defaultValue +:+ ";".

(** The first part of [injectInferredInputs]: the import of [Input]. *)
Definition ensureInputImport (tsCode : string) : string :=
  if negb (includes tsCode "Input") then
    if includes tsCode "from '@angular/core'" then
      replaceFirst fromCoreRegex
        (template 0 ("from '@angular/core';" +:+ nl +:+ "import { Input } from '@angular/core';"))
        tsCode
    else "import { Input } from '@angular/core';" +:+ nl +:+ tsCode
  else if negb (test importInputRegex tsCode) then
    replaceFirst importCoreRegex
      (fun _ _ m => s2l "import { " ++ group m 1 ++ s2l ", Input } from '@angular/core'")
      tsCode
  else tsCode.

Definition injectedTemplate (inputs : list InferredInput) : string :=
  "$1" +:+ nl +:+ "  // Stage 2: Injected Inputs" +:+ nl
       +:+ join nl (map inputField inputs) +:+ nl.

Definition injectInferredInputs (tsCode : string) (inputs : option (list InferredInput))
  : string :=
  match inputs with
  | None | Some [] => tsCode
  | Some inputs =>
      let modifiedCode := ensureInputImport tsCode in
      if test classStartRegex modifiedCode
      then replaceFirst classStartRegex (template 1 (injectedTemplate inputs)) modifiedCode
      else modifiedCode
  end.

Definition validateAndHealComponent (tsCode : string) (inputs : option (list InferredInput))
  : string :=
  match inputs with
  | None | Some [] => tsCode
  | Some _ =>
      if negb (includes tsCode "@Input") then injectInferredInputs tsCode inputs
      else tsCode
  end.

(** ** Extraction ([extractCodeBlock]) *)

Inductive Result (A : Type) : Type :=
| Ok (a : A)
| Throw (message : string).
Arguments Ok {A} a.
Arguments Throw {A} message.

Definition getFileExtension (language : string) : string :=
  if String.eqb language "typescript" then "ts"
  else if String.eqb language "html" then "html"
  else if String.eqb language "scss" then "scss"
  else if String.eqb language "css" then "css"
  else "txt".

Definition isQuote3 (c : ascii) : bool := (chr "'" c || chr (ascii_of_N 34) c || chr "`" c)%bool.

(** The pattern of [fixAngularSyntax]: [styleUrl:], blanks, a quote, group 1
    of one or more characters that are no quote, a quote; the quotes are
    single, double or backquotes; flag g. *)
Definition styleUrlRegex : regex :=
  lit "styleUrl:" ++ [Star isWhiteSpace; Chr isQuote3; Mark]
  ++ plus (fun c => negb (isQuote3 c)) ++ [Mark; Chr isQuote3].

Definition fixAngularSyntax (content : string) : string :=
  replaceAll styleUrlRegex (template 1 "styleUrls: ['$1']") content.

Definition fence : string := "```".

(** A component name inside a pattern: the callers pass names of letters
    and digits, which stand for themselves (up to letter case under the i
    flag), followed for the story by [.stories], whose dot is the pattern
    dot. *)
Definition nameRegex (componentName : string) : regex :=
  map (fun a => if chr "." a then Chr dot else Chr (chr_ci a)) (s2l componentName).

Definition isNameChar (c : ascii) : bool :=
  (between 48 57 c || between 65 90 c || between 97 122 c)%bool.

Definition isComponentName (componentName : string) : bool :=
  forallb isNameChar (s2l componentName).

(** The fenced block tagged with the language, flag i. *)
Definition codeBlockRegex (language : string) : regex :=
  lit_ci fence ++ lit_ci language ++ [Mark; Lazy any; Mark] ++ lit_ci fence.

(** The filename-comment pattern that starts with [opener]. *)
Definition commentRegex (opener language componentName : string) : regex :=
  lit_ci opener ++ nameRegex componentName ++ [Star dot]
  ++ lit_ci (".component." +:+ getFileExtension language)
  ++ [Mark; Lazy any; Mark; AheadOrEnd (s2l fence)].

Definition altPatterns (language componentName : string) : list regex :=
  [ lit_ci fence ++ [Mark; Lazy any; Mark] ++ lit_ci fence ++ [Star dot] ++ lit_ci language;
    commentRegex "// " language componentName;
    commentRegex "<!-- " language componentName;
    commentRegex "/* " language componentName ].

Fixpoint firstMatch (patterns : list regex) (s : text) : option (text * text * list text) :=
  match patterns with
  | [] => None
  | p :: rest =>
      match exec p None s with
      | Some x => Some x
      | None => firstMatch rest s
      end
  end.

Definition extractCodeBlock (response language componentName : string) : Result File :=
  let found :=
    match exec (codeBlockRegex language) None (s2l response) with
    | Some x => Some x
    | None => firstMatch (altPatterns language componentName) (s2l response)
    end in
  match found with
  | None => Throw ("No " +:+ language +:+ " code block found")
  | Some (_, _, m) =>
      let content := trim (l2s (group m 1)) in
      let content :=
        if (String.eqb language "typescript" && negb (endsWith componentName ".stories"))%bool
        then fixAngularSyntax content else content in
      let fileName :=
        if endsWith componentName ".stories"
        then toLowerCase componentName +:+ ".ts"
        else toLowerCase componentName +:+ ".component." +:+ getFileExtension language in
      Ok (mkFile fileName content language (String.length content))
  end.

(** ** Syntax repair (the [templateUrl] fix of [parseGeminiResponse]) *)

Definition fixTemplateUrl (content componentName : string) : string :=
  if (includes content "templateUrl,"
      || test (lit "templateUrl" ++ [Star isWhiteSpace; Chr (chr "}")]) content)%bool
  then
    let fixedPath := "templateUrl: './" +:+ toLowerCase componentName +:+ ".component.html'," in
    let content :=
      replaceAll (lit "templateUrl" ++ [Star isWhiteSpace; Chr (chr ",")])
                 (template 0 fixedPath) content in
    replaceAll (lit "templateUrl" ++ [Star isWhiteSpace; Chr (chr "}")])
               (template 0 (fixedPath +:+ nl +:+ "}")) content
  else content.

(** ** Sanitization ([sanitizeFrameworkCode]) *)

Definition stripModule (moduleName : string) (tsCode : string) : string :=
  replaceAll (lit moduleName ++ [Opt (chr ","); Star isWhiteSpace]) (template 0 "") tsCode.

Definition sanitizeTypeScript (tsCode : string) : string :=
  if (includes tsCode "primeng" || includes tsCode "Module}")%bool then
    let tsCode :=
      replaceAll (lit "import" ++ [Star dot] ++ lit "primeng" ++ [Star dot; Opt (chr (ascii_of_N 10))])
                 (template 0 "") tsCode in
    stripModule "StyleClassModule"
      (stripModule "RippleModule" (stripModule "InputTextModule" (stripModule "ButtonModule" tsCode)))
  else tsCode.

(** The value of an attribute in the attribute text of a [p-button]:
    [name=], a quote, group 1 of one or more characters that are no quote,
    a quote; the quotes are single or double. *)
Definition attrRegex (name : string) : regex :=
  lit (name +:+ "=") ++ [Chr isQuote; Mark] ++ plus (fun c => negb (isQuote c))
  ++ [Mark; Chr isQuote].

Definition attrValue (name : string) (attrs : text) : option text :=
  match exec (attrRegex name) None attrs with
  | Some (_, _, m) => Some (group m 1)
  | None => None
  end.

Definition buttonReplacer : replacer :=
  fun _ _ m =>
    let attrs := group m 1 in
    let label := match attrValue "label" attrs with Some l => l | None => [] end in
    let clickAttr :=
      match attrValue "(click)" attrs with
      | Some v => s2l (" (click)=" +:+ dq) ++ v ++ s2l dq
      | None => []
      end in
    let disabledAttr :=
      match attrValue "[disabled]" attrs with
      | Some v => s2l (" [disabled]=" +:+ dq) ++ v ++ s2l dq
      | None => []
      end in
    let btnClass :=
      if isInfix (s2l "secondary") attrs then "btn btn-secondary"
      else if (isInfix (s2l "ghost") attrs || isInfix (s2l "text") attrs)%bool
           then "btn btn-ghost"
           else "btn btn-primary" in
    s2l ("<button class=" +:+ dq +:+ btnClass +:+ dq) ++ clickAttr ++ disabledAttr
        ++ s2l ">" ++ label.

Definition sanitizeHtml (htmlCode : string) : string :=
  if (includes htmlCode "<p-" || includes htmlCode "pButton")%bool then
    let htmlCode :=
      replaceAll (lit "<p-button" ++ [Mark; Star (notChr ">"); Mark; Chr (chr ">")])
                 buttonReplacer htmlCode in
    let htmlCode := replaceAll (lit "</p-button>") (template 0 "</button>") htmlCode in
    let htmlCode :=
      replaceAll (lit "<p-inputText" ++ [Mark; Star (notChr ">"); Mark; Chr (chr ">")])
                 (template 1 ("<input class=" +:+ dq +:+ "input-field" +:+ dq +:+ "$1>"))
                 htmlCode in
    let htmlCode := replaceAll (lit "</p-inputText>") (template 0 "") htmlCode in
    let htmlCode := replaceAll (lit "<p-") (template 0 "<") htmlCode in
    replaceAll (lit "</p-") (template 0 "</") htmlCode
  else htmlCode.

(** [sanitizeFrameworkCode(files)]; the caller has checked that both files
    are present. *)
Definition sanitizeFrameworkCode (files : Files) : Files :=
  match typescript files, html files with
  | Some ts, Some h =>
      mkFiles (Some (setContent ts (sanitizeTypeScript (content ts))))
              (Some (setContent h (sanitizeHtml (content h))))
              (scss files) (story files) (errors files)
  | _, _ => files
  end.

(** ** Documentation healing ([validateAndHealStory]) *)

Definition isWord (c : ascii) : bool :=
  (between 48 57 c || between 65 90 c || between 97 122 c || chr "_" c)%bool.

(** The first replacement of [toPascalCase]: every alternative of its
    pattern (a word character at the start, a capital, a word character
    after a word boundary) matches one character, so a character is
    replaced by its capital exactly when it is a capital or a word character
    that starts the string or follows a character that is none. *)
Fixpoint capitalizeWords (prev : option ascii) (s : text) : text :=
  match s with
  | [] => []
  | c :: s' =>
      (if (between 65 90 c
           || (isWord c && match prev with None => true | Some p => negb (isWord p) end))%bool
       then upper c else c) :: capitalizeWords (Some c) s'
  end.

Definition toPascalCase (str : string) : string :=
  replaceAll (plus isWhiteSpace) (template 0 "") (l2s (capitalizeWords None (s2l str))).

(** The values of a [Map] keyed by input name that keeps the first input
    of each name, in insertion order. *)
Fixpoint uniqueInputs (seen : list string) (l : list InferredInput) : list InferredInput :=
  match l with
  | [] => []
  | i :: l' =>
      if str_in (in_name i) seen then uniqueInputs seen l'
      else i :: uniqueInputs (in_name i :: seen) l'
  end.

Definition concat_strings (l : list string) : string := fold_right String.append "" l.

Definition argType (input : InferredInput) : string :=
  let '(controlType, options) :=
    if String.eqb (in_type input) "boolean" then ("boolean", "")
    else if includes (in_type input) "|" then
      let opts :=
        map (fun s => replaceAll [Chr isQuote] (template 0 "") (trim s))
            (split "|" (in_type input)) in
      ("select", ", options: [" +:+ join ", " (map (fun o => "'" +:+ o +:+ "'") opts) +:+ "]")
    else ("text", "") in
  "    " +:+ in_name input +:+ ": { control: '" +:+ controlType +:+ "'" +:+ options
        +:+ " }," +:+ nl.

Definition defaultArg (input : InferredInput) : string :=
  let def :=
    match in_defaultValue input with
    | Some d => if String.eqb d "" then None else Some d
    | None => None
    end in
  let def :=
    match def with
    | Some d => d
    | None => if String.eqb (in_type input) "boolean" then "false" else "''"
    end in
  let def :=
    if (String.eqb (in_type input) "string" && negb (startsWith def "'")
        && negb (startsWith def dq))%bool
    then "'" +:+ def +:+ "'" else def in
  "    " +:+ in_name input +:+ ": " +:+ def +:+ "," +:+ nl.

Definition storyContent (tsCode componentName : string) (inputs : option (list InferredInput))
  : string :=
  let pascalName := toPascalCase componentName +:+ "Component" in
  let inputsToUse := uniqueInputs [] (match inputs with Some l => l | None => [] end) in
  let argTypes := concat_strings (map argType inputsToUse) in
  let defaultArgs := concat_strings (map defaultArg inputsToUse) in
  let moduleProp := if includes tsCode "standalone: true" then "imports" else "declarations" in
  join nl
    [ "import { Meta, StoryObj, moduleMetadata } from '@storybook/angular';";
      "import { " +:+ pascalName +:+ " } from './" +:+ toLowerCase componentName
        +:+ ".component';";
      "";
      "const meta: Meta<" +:+ pascalName +:+ "> = {";
      "  title: 'Generated/" +:+ toPascalCase componentName +:+ "',";
      "  component: " +:+ pascalName +:+ ",";
      "  decorators: [";
      "    moduleMetadata({";
      "      " +:+ moduleProp +:+ ": [" +:+ pascalName +:+ "],";
      "      imports: [] ";
      "    }),";
      "  ],";
      "  argTypes: {";
      argTypes +:+ "  },";
      "  render: (args) => ({";
      "    props: args,";
      "  }),";
      "};";
      "";
      "export default meta;";
      "type Story = StoryObj<" +:+ pascalName +:+ ">;";
      "";
      "export const Default: Story = {";
      "  args: {";
      defaultArgs +:+ "  },";
      "};" ].

Definition validateAndHealStory (existingStory : option File) (tsCode componentName : string)
           (inputs : option (list InferredInput)) : File :=
  let regenerated :=
    let storyContent := storyContent tsCode componentName inputs in
    mkFile (toLowerCase componentName +:+ ".stories.ts") storyContent "typescript"
           (String.length storyContent) in
  match existingStory with
  | Some st =>
      if (negb (String.eqb (content st) "") && includes (content st) "Meta")%bool
      then st else regenerated
  | None => regenerated
  end.

(** ** Final validation ([validateExtractedFiles]) *)

Definition push (file : Files) (e : string) : Files :=
  mkFiles (typescript file) (html file) (scss file) (story file) (errors file ++ [e]).

Definition checkRequired (fileType : string) (f : option File) (files : Files) : Files :=
  match f with
  | None => push files ("Missing " +:+ fileType +:+ " file")
  | Some f =>
      if String.eqb (content f) "" then push files ("Empty " +:+ fileType +:+ " file content")
      else files
  end.

(** [/export\s+class\s+(\w+)/] *)
Definition exportClassRegex : regex :=
  lit "export" ++ plus isWhiteSpace ++ lit "class" ++ plus isWhiteSpace
  ++ [Mark] ++ plus isWord ++ [Mark].

Definition validateTypeScriptComponent (content : string) (files : Files) : Files :=
  let files :=
    if negb (includes content "@Component")
    then push files "TypeScript file missing @Component decorator" else files in
  let files :=
    if negb (test exportClassRegex content)
    then push files "TypeScript file missing export class" else files in
  if (negb (includes content "import") || negb (includes content "@angular/core"))%bool
  then push files "TypeScript file missing Angular imports" else files.

Definition validateHtmlTemplate (content : string) (files : Files) : Files :=
  if Nat.ltb (String.length content) 10
  then push files "HTML template appears to be too short" else files.

Definition nonEmpty (f : option File) : option string :=
  match f with
  | Some f => if String.eqb (content f) "" then None else Some (content f)
  | None => None
  end.

Definition validateExtractedFiles (files : Files) : Files :=
  let files0 := files in
  let files := checkRequired "typescript" (typescript files0) files in
  let files := checkRequired "html" (html files0) files in
  let files := checkRequired "scss" (scss files0) files in
  let files := checkRequired "story" (story files0) files in
  let files :=
    match nonEmpty (typescript files0) with
    | Some c => validateTypeScriptComponent c files
    | None => files
    end in
  match nonEmpty (html files0) with
  | Some c => validateHtmlTemplate c files
  | None => files
  end.

(** ** The healing pipeline ([parseGeminiResponse]) *)

Section Pipeline.

(** The design node handed to the visual gatekeeper and the override
    block that [visualGatekeeper] derives from the name of the structural
    file and that node, and appends to the style sheet. *)
Variable FigmaNodeData : Type.
Variable overrideCss : option string -> option FigmaNodeData -> string.

Definition visualGatekeeper (files : Files) (figmaNodeData : option FigmaNodeData) : Files :=
  match scss files with
  | Some sc =>
      mkFiles (typescript files) (html files)
              (Some (setContent sc
                       (content sc +:+ overrideCss (option_map fileName (typescript files))
                                                   figmaNodeData)))
              (story files) (errors files)
  | None => files
  end.

Definition gatekeeperError (files : Files) (message : string) : Files :=
  push files ("Gatekeeper error: " +:+ message).

Definition inputsOf (inferredInputs : option InferredInputs) : option (list InferredInput) :=
  match inferredInputs with
  | Some ii => inputs ii
  | None => None
  end.

(** The stages after the three extractions have succeeded. *)
Definition healExtracted (geminiResponse componentName : string)
           (inferredInputs : option InferredInputs) (figmaNodeData : option FigmaNodeData)
           (ts h sc : File) : Files :=
  let ts := if String.eqb (content ts) "" then ts
            else setContent ts (fixTemplateUrl (content ts) componentName) in
  let st :=
    match extractCodeBlock geminiResponse "typescript" (componentName +:+ ".stories") with
    | Ok f => Some f
    | Throw _ => None
    end in
  let files := mkFiles (Some ts) (Some h) (Some sc) st [] in
  let files := sanitizeFrameworkCode files in
  let files := visualGatekeeper files figmaNodeData in
  let files := normalizeSelectors files in
  let files :=
    match nonEmpty (html files) with
    | Some _ => healEmptyTags files inferredInputs
    | None => files
    end in
  let files :=
    match typescript files with
    | Some f =>
        if String.eqb (content f) "" then files
        else mkFiles (Some (setContent f (validateAndHealComponent
                                            (content f) (inputsOf inferredInputs))))
                     (html files) (scss files) (story files) (errors files)
    | None => files
    end in
  let files :=
    mkFiles (typescript files) (html files) (scss files)
            (Some (validateAndHealStory
                     (story files)
                     (match typescript files with Some f => content f | None => "" end)
                     componentName (inputsOf inferredInputs)))
            (errors files) in
  validateExtractedFiles files.

Definition parseGeminiResponse (geminiResponse componentName : string)
           (inferredInputs : option InferredInputs) (figmaNodeData : option FigmaNodeData)
  : Files :=
  let files := mkFiles None None None None [] in
  match extractCodeBlock geminiResponse "typescript" componentName with
  | Throw e => gatekeeperError files e
  | Ok ts =>
      let files := mkFiles (Some ts) None None None [] in
      match extractCodeBlock geminiResponse "html" componentName with
      | Throw e => gatekeeperError files e
      | Ok h =>
          let files := mkFiles (Some ts) (Some h) None None [] in
          match extractCodeBlock geminiResponse "scss" componentName with
          | Throw e => gatekeeperError files e
          | Ok sc =>
              healExtracted geminiResponse componentName inferredInputs figmaNodeData
                            ts h sc
          end
      end
  end.

End Pipeline.

(** ** Example artifacts *)

Definition lines (l : list string) : string := join nl l.

(** Markup that uses the canonical class, and a style sheet that defines
    two other top-level classes. *)
Definition btnMarkup : string := "<button class=" +:+ dq +:+ "btn" +:+ dq +:+ ">OK</button>".

Definition twoClassSheet : string :=
  lines [".primary-action {"; "  color: red;"; "}"; ".caption {"; "  color: gray;"; "}"].


(** The empty button of the specification's scenario and its healed form. *)
Definition emptyButtonMarkup : string :=
  "<button class=" +:+ dq +:+ "btn" +:+ dq +:+ "></button>".

Definition healedButtonMarkup : string :=
  "<button class=" +:+ dq +:+ "btn" +:+ dq +:+ ">{{ label }}</button>".

Definition labelInput : InferredInput := mkInput "label" "string" None None.

Definition labelInputs : option InferredInputs := Some (mkInferred (Some [labelInput]) []).


Definition bareComponent : string :=
  lines ["import { Component } from '@angular/core';";
         "@Component({ selector: 'app-x' })";
         "export class XComponent {";
         "}"].


(** A colour whose channels are [31/32], [7/32] and [23/32]. *)
Definition halfR : float := 0.96875%float.
Definition halfG : float := 0.21875%float.
Definition halfB : float := 0.71875%float.

Definition noOverride : option string -> option unit -> string := fun _ _ => "".

(** An artifact of the bundle that is absent or has empty content. *)
Definition missingOrEmpty (f : option File) : bool :=
  match f with
  | None => true
  | Some f => String.eqb (content f) ""
  end.

Definition anyMissingOrEmpty (files : Files) : bool :=
  (missingOrEmpty (typescript files) || missingOrEmpty (html files)
   || missingOrEmpty (scss files) || missingOrEmpty (story files))%bool.


(** ** Notions used in the proofs *)

(** The score and the counters account for the violations recorded. *)
Definition accounted (this : GovernanceEngine) : Prop :=
  globalScore this
  = 100 - 50 * countSeverity CRITICAL (violations this)
        - 20 * countSeverity MAJOR (violations this)
        - 5 * countSeverity MINOR (violations this)
  /\ bCRITICAL (breakdown this) = countSeverity CRITICAL (violations this)
  /\ bMAJOR (breakdown this) = countSeverity MAJOR (violations this)
  /\ bMINOR (breakdown this) = countSeverity MINOR (violations this)
  /\ hasCriticalViolation this = (0 <? countSeverity CRITICAL (violations this))%Z.

(** Two rules agree on the presence and the key set of [props] and on the
    presence of [composition] and its [cannotContain] list; two registries
    have the same keys and such rules; two engines have such registries and
    the same accumulators. *)
Definition rule_sim (r r' : ComponentRule) : Prop :=
  match props r, props r' with
  | Some p, Some p' => forall k, is_Some (p !! k) <-> is_Some (p' !! k)
  | None, None => True
  | _, _ => False
  end
  /\ option_map cannotContain (composition r) = option_map cannotContain (composition r').

Definition reg_sim (R R' : Registry) : Prop :=
  forall k, option_Forall2 rule_sim (components R !! k) (components R' !! k).

Definition eng_sim (t t' : GovernanceEngine) : Prop :=
  reg_sim (registry t) (registry t')
  /\ globalScore t = globalScore t'
  /\ violations t = violations t'
  /\ scannedComponents t = scannedComponents t'
  /\ hasCriticalViolation t = hasCriticalViolation t'
  /\ breakdown t = breakdown t'.

(** A pattern without [^]. *)
Definition noBol (r : regex) : Prop :=
  Forall (fun a => match a with Bol => False | _ => True end) r.

Local Abbreviation gtc := (">"%char) (only parsing).
Local Abbreviation ltc := ("<"%char) (only parsing).

(** An opening and a closing button tag up to letter case, a text without
    [>], a text without a closing brace, a character that is neither a
    dollar sign nor [<]. *)
Definition isOpen (o : text) : Prop :=
  Forall2 (fun a c => chr_ci a c = true) (s2l "<button") o.

Definition isClose (c : text) : Prop :=
  Forall2 (fun a c => chr_ci a c = true) (s2l "</button>") c.

Definition noGt (x : text) : Prop := Forall (fun c => notChr gtc c = true) x.


Definition plainChar (c : ascii) : Prop :=
  Ascii.eqb c dollar = false /\ chr_ci ltc c = false.

(** The replacer of [healEmptyTags] for a binding variable. *)
Definition healTemplate (v : string) : replacer := template 2 ("$1{{ " +:+ v +:+ " }}$2").

(** A stage of the final validation keeps the artifacts and appends to the
    errors. *)
Definition extends (f g : Files) : Prop :=
  typescript g = typescript f /\ html g = html f /\ scss g = scss f /\ story g = story f
  /\ exists l, errors g = errors f ++ l.

Ltac button_states :=
  cbv [skipn emptyButtonRegex lit_ci app map s2l list_ascii_of_string].

Ltac decide_test t :=
  let v := eval vm_compute in t in
  lazymatch v with
  | true => change t with true
  | false => change t with false
  end.

Ltac closed_test :=
  repeat match goal with
         | |- context [chr_ci ?a ?c] => decide_test (chr_ci a c)
         | |- context [chr ?a ?c] => decide_test (chr a c)
         | |- context [notChr ?a ?c] => decide_test (notChr a c)
         | |- context [isWhiteSpace ?c] => decide_test (isWhiteSpace c)
         end.

(** ** Further parts of the program, and notions for their properties *)

(** The nodes of a tree in the order in which [_recursiveCheck] visits
    them. *)
Fixpoint subtreeNodes (node : DesignNode) : list DesignNode :=
  node ::
  match children node with
  | Some cs => flat_map subtreeNodes cs
  | None => []
  end.

(** The local [isComponent] of [_recursiveCheck], for a registry. *)
Definition isComponent (reg : Registry) (node : DesignNode) : bool :=
  (startsWith (baseNodeName (name node)) "app-"
   || bool_decide (is_Some (components reg !! lookupName (name node))))%bool.

(** What identifies a scanned component, and what a governed node is
    recorded with. *)
Definition scannedKey (c : ScannedComponent) : string * string * string :=
  (sc_id c, sc_name c, sc_lookupName c).

Definition nodeKey (node : DesignNode) : string * string * string :=
  (id node, name node, lookupName (name node)).

(** The violations of a list come from the three checks of the engine. *)
Definition fromChecks (v : Violation) : Prop :=
  (severity v = CRITICAL /\ (rule v = "Existence Check" \/ rule v = "Composition"))
  \/ (severity v = MINOR /\ rule v = "Property Validation").

(** The names that an object parsed from JSON inherits from
    [Object.prototype].  The registry is modelled by its own keys; the
    program finds the inherited member when it looks up one of these names
    and the registry has no own key of that name, so the properties that
    depend on which names have a rule are stated for trees without such
    names. *)
Definition inheritedKeys : list string :=
  ["constructor"; "__defineGetter__"; "__defineSetter__"; "hasOwnProperty";
   "__lookupGetter__"; "__lookupSetter__"; "isPrototypeOf"; "propertyIsEnumerable";
   "toString"; "valueOf"; "__proto__"; "toLocaleString"].

Definition ownLookups (tree : DesignNode) : bool :=
  forallb (fun n => negb (str_in (lookupName (name n)) inheritedKeys)) (subtreeNodes tree).

(** A scanned component has the status UNKNOWN exactly when it carries a
    draft fragment, and then the registry has no rule under its lookup
    name. *)
Definition scannedFits (reg : Registry) (c : ScannedComponent) : Prop :=
  (sc_status c = UNKNOWN <-> sc_fragment c <> None)
  /\ (sc_status c = UNKNOWN -> components reg !! sc_lookupName c = None).

Definition notVerified (c : ScannedComponent) : bool := negb (isVerified c).

Definition scanInvariant (reg : Registry) (this : GovernanceEngine) : Prop :=
  registry this = reg
  /\ Forall fromChecks (violations this)
  /\ Forall (scannedFits reg) (scannedComponents this)
  /\ countSeverity CRITICAL (violations this)
     = Z.of_nat (List.length (List.filter notVerified (scannedComponents this))).

(** A tree of three frames that no rule governs. *)
Definition plainTree : DesignNode :=
  parentOf "0" "Page" [parentOf "1" "Header Frame" [leaf "2" "Logo"]; leaf "3" "Footer"].

(** A text with every maximal run of characters of a class replaced by
    [rep]; [inRun] tells that the character before belongs to a run. *)
Fixpoint collapse (p : ascii -> bool) (rep : text) (inRun : bool) (s : text) : text :=
  match s with
  | [] => []
  | c :: s' =>
      if p c then (if inRun then [] else rep) ++ collapse p rep true s'
      else c :: collapse p rep false s'
  end.

(** A character that [toLowerCase] leaves as it is and that is no blank. *)
Definition normalChar (c : ascii) : Prop := isWhiteSpace c = false /\ lower c = c.

(** The test of [capitalizeWords] on a character and the one before it. *)
Definition atWordStart (prev : option ascii) (c : ascii) : bool :=
  (between 65 90 c
   || (isWord c && match prev with None => true | Some p => negb (isWord p) end))%bool.

(** A text that [capitalizeWords] leaves as it is. *)
Fixpoint capitalized (prev : option ascii) (s : text) : Prop :=
  match s with
  | [] => True
  | c :: s' => (atWordStart prev c = true -> upper c = c) /\ capitalized (Some c) s'
  end.

(** Whether the character before is a word character. *)
Definition wordBefore (prev : option ascii) : bool :=
  match prev with None => false | Some p => isWord p end.

(** A structural artifact passes the three checks of
    [validateTypeScriptComponent]. *)
Definition structurallyValid (content : string) : bool :=
  (includes content "@Component" && test exportClassRegex content
   && includes content "import" && includes content "@angular/core")%bool.

(** A bundle with four artifacts that the final validation accepts. *)
Definition acceptable (files : Files) : Prop :=
  exists ts h sc st,
    typescript files = Some ts /\ html files = Some h /\ scss files = Some sc
    /\ story files = Some st
    /\ content ts <> "" /\ content h <> "" /\ content sc <> "" /\ content st <> ""
    /\ structurallyValid (content ts) = true
    /\ (10 <= String.length (content h))%nat.

Definition acceptableBundle : Files :=
  mkFiles (Some (mkFile "x.component.ts" bareComponent "typescript" 0))
          (Some (mkFile "x.component.html" btnMarkup "html" 0))
          (Some (mkFile "x.component.scss" twoClassSheet "scss" 0))
          (Some (mkFile "x.stories.ts" "Meta" "typescript" 0)) [].

(** A text has no proper suffix that is also its prefix. *)
Definition borderless (p : text) : bool :=
  forallb (fun k => negb (isPrefix (skipn k p) p)) (seq 1 (List.length p - 1)).

(** The languages of the three code blocks. *)
Definition languages : list string := ["typescript"; "html"; "scss"].

(** A response with the three blocks, and the bundle parsed from it. *)
Definition cardResponse : string :=
  lines ["Here is the component."; "";
         "```typescript";
         "import { Component } from '@angular/core';";
         "@Component({ selector: 'app-card', templateUrl: './card.component.html' })";
         "export class CardComponent {}";
         "```"; "";
         "```html";
         "<button class='btn'></button>";
         "```"; "";
         "```scss";
         ".btn { color: red; }";
         "```"].

(** ** Export and summary ([prepareFilesForExport], [generateParsingSummary]) *)

Record ExportFile : Type := mkExport {
  ex_path : string;
  ex_content : string;
  ex_type : string }.

(** The body of the loop of [prepareFilesForExport] for one file type. *)
Definition exportFile (outputDir fileType : string) (f : option File) : list ExportFile :=
  match f with
  | Some f =>
      if String.eqb (content f) "" then []
      else [mkExport (outputDir +:+ "/" +:+ fileName f) (content f) fileType]
  | None => []
  end.

Definition prepareFilesForExport (files : Files) (outputDir : option string)
  : list ExportFile :=
  let outputDir := match outputDir with Some d => d | None => "./src/app/components" end in
  exportFile outputDir "typescript" (typescript files)
  ++ exportFile outputDir "html" (html files)
  ++ exportFile outputDir "scss" (scss files)
  ++ exportFile outputDir "story" (story files).

Record FileSummary : Type := mkFileSummary {
  fs_fileName : string;
  fs_size : nat;
  fs_hasContent : bool }.

Module Summary.
Record t : Type := mk {
  success : bool;
  filesExtracted : nat;
  totalSize : nat;
  errors : list string;
  files : list (string * FileSummary) }.
End Summary.

(** The body of the loop of [generateParsingSummary] for one file type. *)
Definition summarize (fileType : string) (f : option File) (summary : Summary.t) : Summary.t :=
  match f with
  | Some f =>
      Summary.mk (Summary.success summary)
                 (Summary.filesExtracted summary + 1)
                 (Summary.totalSize summary + size f)
                 (Summary.errors summary)
                 (Summary.files summary
                    ++ [(fileType, mkFileSummary (fileName f) (size f)
                                                 (negb (String.eqb (content f) "")))])
  | None => summary
  end.

Definition generateParsingSummary (files : Files) : Summary.t :=
  let summary :=
    Summary.mk (Nat.eqb (List.length (errors files)) 0) 0 0 (errors files) [] in
  let summary := summarize "typescript" (typescript files) summary in
  let summary := summarize "html" (html files) summary in
  let summary := summarize "scss" (scss files) summary in
  summarize "story" (story files) summary.

(** ** The screen name of the callers ([generateAngularCode]) *)

(** [r.test(s)] for a pattern that starts with [^], without the m flag:
    a match at the start of the subject. *)
Definition testAtStart (r : regex) (s : string) : bool :=
  match matchHere r None (s2l s) with Some _ => true | None => false end.

(** The local [sanitizedScreenName] of [generateAngularCode]. *)
Definition sanitizedScreenName (screenName : string) : string :=
  let sanitizedScreenName :=
    replaceAll [Chr (fun c => negb (isNameChar c))] (template 0 "") screenName in
  let sanitizedScreenName :=
    if testAtStart [Chr (between 48 57)] sanitizedScreenName
    then "Component" +:+ sanitizedScreenName else sanitizedScreenName in
  if String.eqb sanitizedScreenName "" then "GeneratedScreen" else sanitizedScreenName.

(** The name, the language and the recorded size of an artifact. *)
Definition fileMeta (f : option File) : option (string * string * nat) :=
  option_map (fun x => (fileName x, language x, size x)) f.

Definition contentLength (f : option File) : option nat :=
  option_map (fun x => String.length (content x)) f.


(** ** The design node of the visual gatekeeper ([findFillNode], [findTextNode]) *)

Record Color : Type := mkColor {
  col_r : float;
  col_g : float;
  col_b : float }.

(** A paint of a node; [visible] and [color] may be absent. *)
Record Fill : Type := mkFill {
  fill_type : string;
  fill_visible : option bool;
  fill_color : option Color }.

#[warnings="-register-all"]
Inductive FigmaNode : Type := mkFigma {
  fg_type : string;
  fg_fills : option (list Fill);
  fg_children : option (list FigmaNode) }.

(** [fill.type === 'SOLID' && fill.visible !== false && fill.color] *)
Definition isValidFill (fill : Fill) : bool :=
  (String.eqb (fill_type fill) "SOLID"
   && negb (match fill_visible fill with Some false => true | _ => false end)
   && match fill_color fill with Some _ => true | None => false end)%bool.

Fixpoint findFillNode (node : FigmaNode) : option (FigmaNode * Fill) :=
  match (match fg_fills node with
         | Some fills => find isValidFill fills
         | None => None
         end) with
  | Some validFill => Some (node, validFill)
  | None =>
      match fg_children node with
      | Some cs =>
          (fix loop (l : list FigmaNode) : option (FigmaNode * Fill) :=
             match l with
             | [] => None
             | child :: l' =>
                 match findFillNode child with
                 | Some found => Some found
                 | None => loop l'
                 end
             end) cs
      | None => None
      end
  end.

Fixpoint findTextNode (node : FigmaNode) : option FigmaNode :=
  if String.eqb (fg_type node) "TEXT" then Some node
  else
    match fg_children node with
    | Some cs =>
        (fix loop (l : list FigmaNode) : option FigmaNode :=
           match l with
           | [] => None
           | child :: l' =>
               match findTextNode child with
               | Some found => Some found
               | None => loop l'
               end
           end) cs
    | None => None
    end.

(** The nodes of a design node in pre-order, and the first valid paint of a
    node. *)
Fixpoint figmaNodes (node : FigmaNode) : list FigmaNode :=
  node ::
  match fg_children node with
  | Some cs => flat_map figmaNodes cs
  | None => []
  end.

Definition ownFill (node : FigmaNode) : option Fill :=
  match fg_fills node with
  | Some fills => find isValidFill fills
  | None => None
  end.

Definition hasOwnFill (node : FigmaNode) : bool :=
  match ownFill node with Some _ => true | None => false end.

Definition isTextNode (node : FigmaNode) : bool := String.eqb (fg_type node) "TEXT".

(** The first result of a search in the elements of a list. *)
Fixpoint firstFound {A B : Type} (f : A -> option B) (l : list A) : option B :=
  match l with
  | [] => None
  | x :: l' =>
      match f x with
      | Some found => Some found
      | None => firstFound f l'
      end
  end.

(** The value of a text of hexadecimal digits, as [parseInt(s, 16)] reads
    it when every character is a digit. *)
Definition hexDigitValue (c : ascii) : option Z :=
  if between 48 57 c then Some (Z.of_N (code c) - 48)
  else if between 65 70 c then Some (Z.of_N (code c) - 55)
  else if between 97 102 c then Some (Z.of_N (code c) - 87)
  else None.

Fixpoint hexValue_go (acc : Z) (s : text) : option Z :=
  match s with
  | [] => Some acc
  | c :: s' =>
      match hexDigitValue c with
      | Some d => hexValue_go (16 * acc + d) s'
      | None => None
      end
  end.

Definition hexValue (s : string) : option Z :=
  match s2l s with
  | [] => None
  | l => hexValue_go 0 l
  end.

(** The two characters that [toHex] returns for a channel that scales to
    the integer [n]. *)
Definition byteHex (n : Z) : string :=
  let hex := toString16 (IntFinite n) in
  if Nat.eqb (String.length hex) 1 then "0" +:+ hex else hex.

Definition byteHexOk (n : Z) : bool :=
  (Nat.eqb (String.length (byteHex n)) 2
   && match hexValue (toUpperCase (byteHex n)) with
      | Some v => Z.eqb v n
      | None => false
      end)%bool.

(** ** The frame validator ([validateNode] of [design-validator.js]) *)

Inductive ResultStatus : Type := ERROR | WARNING | SUCCESS.

Record ValidationResult : Type := mkResult {
  r_id : string;
  r_status : ResultStatus;
  r_message : string }.

(** A node of a frame of the mock design.  [n_props] lists the own keys of
    [node.props] in the order [Object.keys] enumerates them. *)
#[warnings="-register-all"]
Inductive FrameNode : Type := mkFrameNode {
  n_id : string;
  n_name : string;
  n_props : option (list string);
  n_children : option (list FrameNode) }.

(** The nesting checks of a registered node under a parent. *)
Definition nestingResults (registry : Registry) (node : FrameNode) (lookupName : string)
           (parentNode : option FrameNode) : list ValidationResult :=
  match parentNode with
  | Some parent =>
      let parentLookupName := replaceString (n_name parent) "app-" "" in
      match components registry !! parentLookupName with
      | Some parentRules =>
          match composition parentRules with
          | Some comp =>
              (match cannotContain comp with
               | Some cannot =>
                   if (str_in lookupName cannot || str_in "*" cannot)%bool then
                     [mkResult (n_id node) ERROR
                        ("ILLEGAL NESTING: " +:+ dq +:+ n_name parent +:+ dq
                           +:+ " is forbidden from containing " +:+ dq +:+ n_name node
                           +:+ dq +:+ ".")]
                   else []
               | None => []
               end)
              ++
              (match canContain comp with
               | Some can =>
                   if (negb (Nat.eqb (List.length can) 0) && negb (str_in "*" can)
                       && negb (str_in lookupName can))%bool then
                     [mkResult (n_id node) WARNING
                        ("STRICT NESTING: " +:+ dq +:+ n_name parent +:+ dq
                           +:+ " usually only contains [" +:+ join ", " can +:+ "]. "
                           +:+ dq +:+ n_name node +:+ dq +:+ " found.")]
                   else []
               | None => []
               end)
          | None => []
          end
      | None => []
      end
  | None => []
  end.

(** The property checks of a registered node. *)
Definition propResults (node : FrameNode) (componentRules : ComponentRule)
  : list ValidationResult :=
  match n_props node, props componentRules with
  | Some nodeProps, Some ruleProps =>
      flat_map (fun prop =>
                  match ruleProps !! prop with
                  | Some _ => []
                  | None =>
                      [mkResult (n_id node) WARNING
                         ("Unknown property " +:+ dq +:+ prop +:+ dq +:+ " for component "
                            +:+ dq +:+ n_name node +:+ dq +:+ ".")]
                  end)
               nodeProps
  | _, _ => []
  end.

Fixpoint validateNode (registry : Registry) (node : FrameNode)
         (parentNode : option FrameNode) {struct node} : list ValidationResult :=
  let componentName := n_name node in
  let lookupName := replaceString componentName "app-" "" in
  match components registry !! lookupName with
  | None =>
      [mkResult (n_id node) ERROR
         ("Component " +:+ dq +:+ componentName +:+ dq
            +:+ " does not exist in the Design System registry.")]
  | Some componentRules =>
      let results :=
        nestingResults registry node lookupName parentNode ++ propResults node componentRules in
      let results :=
        match results with
        | [] =>
            [mkResult (n_id node) SUCCESS
               (dq +:+ componentName +:+ dq +:+ " (ID: " +:+ n_id node +:+ ") is valid.")]
        | _ => results
        end in
      results ++
      match n_children node with
      | Some cs => flat_map (fun child => validateNode registry child (Some node)) cs
      | None => []
      end
  end.

Definition isError (r : ValidationResult) : bool :=
  match r_status r with ERROR => true | _ => false end.

(** The results and the verdict [pass] of a frame with the given nodes. *)
Definition validateFrame (registry : Registry) (nodes : list FrameNode)
  : bool * list ValidationResult :=
  let frameResults := flat_map (fun node => validateNode registry node None) nodes in
  (negb (existsb isError frameResults), frameResults).

(** A node is forbidden under its parent: the rule of the parent has a
    [cannotContain] list with the lookup name of the node or the wildcard. *)
Definition forbidden (registry : Registry) (parentNode : option FrameNode)
           (lookupName : string) : bool :=
  match parentNode with
  | Some parent =>
      match components registry !! replaceString (n_name parent) "app-" "" with
      | Some parentRules =>
          match composition parentRules with
          | Some comp =>
              match cannotContain comp with
              | Some cannot => (str_in lookupName cannot || str_in "*" cannot)%bool
              | None => false
              end
          | None => false
          end
      | None => false
      end
  | None => false
  end.

(** Every node of a tree is registered and none is forbidden under its
    parent. *)
Fixpoint legal (registry : Registry) (node : FrameNode) (parentNode : option FrameNode)
         {struct node} : bool :=
  let lookupName := replaceString (n_name node) "app-" "" in
  match components registry !! lookupName with
  | None => false
  | Some _ =>
      (negb (forbidden registry parentNode lookupName)
       && match n_children node with
          | Some cs => forallb (fun child => legal registry child (Some node)) cs
          | None => true
          end)%bool
  end.

(** The nodes of a frame node in pre-order; no lookup name of the nodes of
    a frame is inherited from [Object.prototype]. *)
Fixpoint frameNodes (node : FrameNode) : list FrameNode :=
  node ::
  match n_children node with
  | Some cs => flat_map frameNodes cs
  | None => []
  end.

Definition ownFrameLookups (nodes : list FrameNode) : bool :=
  forallb (fun n => negb (str_in (replaceString (n_name n) "app-" "") inheritedKeys))
          (flat_map frameNodes nodes).

(** A frame with a button that has a property the registry does not
    know. *)
Definition warnedFrame : list FrameNode :=
  [mkFrameNode "1" "hero" None
     (Some [mkFrameNode "2" "app-button" (Some ["variant"; "size"]) None])].

(** The sum of the weights of a list of violations. *)
Definition penalty (l : list Violation) : Z :=
  fold_right (fun v acc => weights (severity v) + acc) 0 l.

(** The state [t] continues the state [this]: same registry, violations
    and components appended, the score lowered by the weights of the new
    violations, the critical flag kept once set. *)
Definition continues (this t : GovernanceEngine) : Prop :=
  registry t = registry this
  /\ (exists vs, violations t = violations this ++ vs
                 /\ globalScore t = globalScore this - penalty vs)
  /\ (exists cs, scannedComponents t = scannedComponents this ++ cs)
  /\ (hasCriticalViolation this = true -> hasCriticalViolation t = true).

(** A pattern matches at the head of a text. *)
Definition accepts (r : regex) (prev : option ascii) (s : text) : bool :=
  match matchHere r prev s with Some _ => true | None => false end.

(** The text that renames the class [h]: a global replacement of the
    literal [.h] by [.btn]. *)
Definition renamed (h : text) (s : text) : text :=
  replaceAll_go (lit (l2s ("."%char :: h))) (template 0 ".btn") 0 [] None s.

(** The marks of the leftmost match. *)
Definition execMarks (r : regex) (prev : option ascii) (s : text) : option (list text) :=
  match exec r prev s with Some (_, _, m) => Some m | None => None end.

(** The longest prefix of class-name characters. *)
Fixpoint classRun (s : text) : text :=
  match s with
  | c :: s' => if classChar c then c :: classRun s' else []
  | [] => []
  end.

(** A style sheet whose first top-level class, [hero], is written without
    a blank before the brace and is a prefix of another class name. *)
Definition heroMarkup : string := "<button class='btn'>Go</button>".

Definition heroSheet : string :=
  lines ["h1 { margin: 0 }"; ".hero{"; "  .hero-title { color: red }"; "}"].

(** * Proofs *)

(** ** Induction on design trees *)

Lemma DesignNode_tree_ind (P : DesignNode -> Prop) :
  (forall n, (forall cs, children n = Some cs -> Forall P cs) -> P n) ->
  forall n, P n.
Proof.
  intros H. fix IH 1. intros n. apply H.
  destruct n as [i nm cp cs bg br pd lm]; simpl.
  destruct cs as [l|]; [|intros ? [=]].
  assert (HF : Forall P l).
  { clear -IH. induction l as [|c l IHl]; constructor; [apply IH | exact IHl]. }
  intros l' [= <-]. exact HF.
Qed.

Lemma fold_left_preserves {A B : Type} (P : A -> Prop) (f : A -> B -> A) (l : list B) :
  Forall (fun b => forall a, P a -> P (f a b)) l -> forall a, P a -> P (fold_left f l a).
Proof.
  induction 1 as [|b l Hb _ IH]; simpl; intros a Ha; [exact Ha|].
  apply IH, Hb, Ha.
Qed.

(** Every property of the engine state that [_addViolation] and the push on
    [scannedComponents] preserve holds throughout a traversal. *)
Section Preservation.
Variable P : GovernanceEngine -> Prop.
Hypothesis P_add : forall n m s r g this, P this -> P (_addViolation n m s r g this).
Hypothesis P_push : forall c this, P this -> P (pushScanned c this).

Lemma nestingCheck_preserves node lookup parent this :
  P this -> P (snd (nestingCheck node lookup parent this)).
Proof.
  intros H. unfold nestingCheck.
  repeat (case_match; simpl; auto).
Qed.

Lemma propertyCheck_preserves node r this :
  P this -> P (propertyCheck node r this).
Proof.
  intros H. unfold propertyCheck.
  destruct (componentProperties node) as [cps|]; [|exact H].
  destruct (props r) as [rp|]; [|exact H].
  apply fold_left_preserves; [|exact H].
  apply Forall_forall. intros k _ a Ha. case_match; auto.
Qed.

Lemma scanNode_preserves node parent this :
  P this -> P (scanNode node parent this).
Proof.
  intros H. unfold scanNode.
  case_match; [|exact H].
  case_match.
  - pose proof (nestingCheck_preserves node (lookupName (name node)) parent this H) as Hn.
    destruct (nestingCheck _ _ _ _) as [st t1]. simpl in Hn.
    apply P_push, propertyCheck_preserves, Hn.
  - apply P_push, P_add, H.
Qed.

Lemma _recursiveCheck_preserves node :
  forall parent this, P this -> P (_recursiveCheck node parent this).
Proof.
  induction node as [node IH] using DesignNode_tree_ind.
  intros parent this H.
  destruct node as [i nm cp cs bg br pd lm]; simpl in *.
  set (n := mkNode i nm cp cs bg br pd lm) in *.
  pose proof (scanNode_preserves n parent this H) as H1.
  destruct cs as [l|]; [|exact H1].
  apply fold_left_preserves; [|exact H1].
  specialize (IH l eq_refl).
  eapply Forall_impl; [exact IH|]. simpl. intros c Hc a Ha. apply Hc, Ha.
Qed.
End Preservation.

(** ** The score, the breakdown and the verdict *)


Lemma countSeverity_nonneg s l : 0 <= countSeverity s l.
Proof. unfold countSeverity. lia. Qed.

Lemma countSeverity_snoc s l v :
  countSeverity s (l ++ [v])
  = countSeverity s l + (if sev_eqb (severity v) s then 1 else 0).
Proof.
  unfold countSeverity. rewrite List.filter_app, List.length_app. simpl.
  destruct (sev_eqb (severity v) s); simpl; lia.
Qed.

Lemma accounted_add n m s r g this :
  accounted this -> accounted (_addViolation n m s r g this).
Proof.
  unfold accounted, _addViolation. simpl.
  intros (Hs & Hc & HM & Hm & Hh).
  rewrite !countSeverity_snoc. simpl.
  pose proof (countSeverity_nonneg CRITICAL (violations this)).
  destruct s; simpl; unfold orZero; simpl; rewrite ?Hc, ?HM, ?Hm, ?Hh, ?Z.add_0_r.
  all: repeat split; try lia.
Qed.

Lemma accounted_push c this : accounted this -> accounted (pushScanned c this).
Proof. exact (fun H => H). Qed.

Lemma accounted_validate this node :
  accounted (_recursiveCheck node None
               (mkEngine (registry this) 100 [] [] false (mkBreakdown 0 0 0 0))).
Proof.
  apply _recursiveCheck_preserves.
  - intros. now apply accounted_add.
  - intros. now apply accounted_push.
  - unfold accounted. simpl. repeat split; reflexivity.
Qed.

(** C1: the score of every report is 100 less the weights of the recorded
    violations, floored at 0, so it lies in [0,100]; the report is valid
    exactly when no CRITICAL violation was recorded and the score is at
    least 90. *)
Theorem validate_score_and_verdict (this : GovernanceEngine) (tree : DesignNode) :
  let r := report this tree in
  let c := countSeverity CRITICAL (Report.violations r) in
  let M := countSeverity MAJOR (Report.violations r) in
  let m := countSeverity MINOR (Report.violations r) in
  Report.score r = Z.max 0 (100 - 50 * c - 20 * M - 5 * m)
  /\ 0 <= Report.score r <= 100
  /\ (Report.valid r = true <-> c = 0 /\ 90 <= Report.score r).
Proof.
  destruct (accounted_validate this tree) as (Hs & Hc & HM & Hm & Hh).
  unfold report, validate. simpl.
  set (t := _recursiveCheck _ _ _) in *.
  pose proof (countSeverity_nonneg CRITICAL (violations t)).
  pose proof (countSeverity_nonneg MAJOR (violations t)).
  pose proof (countSeverity_nonneg MINOR (violations t)).
  rewrite Hs, Hh. split; [reflexivity|]. split; [lia|].
  rewrite andb_true_iff, negb_true_iff, Z.ltb_ge, Z.leb_le. lia.
Qed.

(** C10: the three severity counters of the breakdown of every report equal
    the numbers of entries of that severity in its violation list; each call
    of [_addViolation] appends one entry and increments the one counter of
    its severity. *)
Theorem breakdown_counts_violations (this : GovernanceEngine) (tree : DesignNode) :
  let r := report this tree in
  (bCRITICAL (Report.breakdown r) = countSeverity CRITICAL (Report.violations r)
   /\ bMAJOR (Report.breakdown r) = countSeverity MAJOR (Report.violations r)
   /\ bMINOR (Report.breakdown r) = countSeverity MINOR (Report.violations r))
  /\ forall n m s ru g t,
      violations (_addViolation n m s ru g t) = violations t ++ [mkViolation n m s ru g]
      /\ breakdown (_addViolation n m s ru g t) = incr s (breakdown t)
      /\ forall s', (if sev_eqb s' s
                     then countSeverity s' (violations (_addViolation n m s ru g t))
                          = countSeverity s' (violations t) + 1
                     else countSeverity s' (violations (_addViolation n m s ru g t))
                          = countSeverity s' (violations t)).
Proof.
  split.
  - destruct (accounted_validate this tree) as (_ & Hc & HM & Hm & _).
    unfold report, validate. simpl. auto.
  - intros. simpl. repeat split.
    intros s'. rewrite countSeverity_snoc. simpl.
    destruct s, s'; simpl; lia.
Qed.

(** ** What the report depends on in the registry

    Two registries with the same keys whose rules agree on the presence and
    the key set of [props] and on the presence of [composition] and its
    [cannotContain] list yield the same traversal. *)


Lemma eng_sim_add n m s r g t t' :
  eng_sim t t' -> eng_sim (_addViolation n m s r g t) (_addViolation n m s r g t').
Proof.
  intros (HR & Hs & Hv & Hc & Hh & Hb). unfold eng_sim, _addViolation; simpl.
  rewrite Hs, Hv, Hc, Hh, Hb. auto 10.
Qed.

Lemma eng_sim_push c t t' :
  eng_sim t t' -> eng_sim (pushScanned c t) (pushScanned c t').
Proof.
  intros (HR & Hs & Hv & Hc & Hh & Hb). unfold eng_sim, pushScanned; simpl.
  rewrite Hs, Hv, Hc, Hh, Hb. auto 10.
Qed.

Lemma str_in_spec x l : str_in x l = true <-> In x l.
Proof.
  unfold str_in. rewrite existsb_exists. split.
  - intros (y & Hy & E). apply String.eqb_eq in E. now subst.
  - intros H. exists x. split; [exact H | apply String.eqb_refl].
Qed.

Lemma In_keys {A : Type} (m : gmap string A) k : In k (keys m) <-> is_Some (m !! k).
Proof.
  unfold keys. rewrite in_map_iff. split.
  - intros ([k' v] & E & Hin). simpl in E. subst k'.
    apply list_elem_of_In, elem_of_map_to_list in Hin. eauto.
  - intros [v Hv]. exists (k, v). split; [reflexivity|].
    apply list_elem_of_In, elem_of_map_to_list, Hv.
Qed.

Lemma official_spec {A : Type} (m : gmap string A) x :
  str_in x (map toLowerCase (keys m)) = true
  <-> exists k, is_Some (m !! k) /\ toLowerCase k = x.
Proof.
  rewrite str_in_spec, in_map_iff. split.
  - intros (k & E & Hin). exists k. split; [now apply In_keys | exact E].
  - intros (k & Hk & E). exists k. split; [exact E | now apply In_keys].
Qed.

Lemma official_sim {A B : Type} (p : gmap string A) (p' : gmap string B) x :
  (forall k, is_Some (p !! k) <-> is_Some (p' !! k)) ->
  str_in x (map toLowerCase (keys p)) = str_in x (map toLowerCase (keys p')).
Proof.
  intros H. apply eq_true_iff_eq. rewrite !official_spec.
  split; intros (k & Hk & E); exists k; (split; [now apply H | exact E]).
Qed.

Lemma nestingCheck_sim node lookup parent t t' :
  eng_sim t t' ->
  fst (nestingCheck node lookup parent t) = fst (nestingCheck node lookup parent t')
  /\ eng_sim (snd (nestingCheck node lookup parent t)) (snd (nestingCheck node lookup parent t')).
Proof.
  intros H. unfold nestingCheck.
  destruct parent as [p|]; [|now split].
  pose proof (proj1 H (parentLookup (name p))) as HR.
  destruct HR as [r r' [_ Hc]|]; [|now split].
  destruct (composition r) as [c|], (composition r') as [c'|]; simpl in Hc;
    try discriminate; [|now split].
  injection Hc as Hc. rewrite <- Hc.
  destruct (cannotContain c) as [l|]; [|now split].
  case_match; simpl; [|now split].
  split; [reflexivity | now apply eng_sim_add].
Qed.

Lemma propertyCheck_sim node r r' t t' :
  rule_sim r r' -> eng_sim t t' ->
  eng_sim (propertyCheck node r t) (propertyCheck node r' t').
Proof.
  intros [Hp _] H. unfold propertyCheck.
  destruct (componentProperties node) as [cps|]; [|exact H].
  destruct (props r) as [p|], (props r') as [p'|]; try contradiction; [|exact H].
  revert t t' H. induction (map fst cps) as [|k ks IH]; simpl; intros t t' H; [exact H|].
  apply IH. rewrite (official_sim p p' _ Hp).
  case_match; simpl; [now apply eng_sim_add | exact H].
Qed.

Lemma scanNode_sim node parent t t' :
  eng_sim t t' -> eng_sim (scanNode node parent t) (scanNode node parent t').
Proof.
  intros H. unfold scanNode.
  pose proof (proj1 H (lookupName (name node))) as HR.
  destruct HR as [r r' Hr|].
  - rewrite !bool_decide_eq_true_2 by eauto. rewrite orb_true_r.
    destruct (nestingCheck_sim node (lookupName (name node)) parent t t' H) as [E Hn].
    destruct (nestingCheck node _ parent t) as [st t1],
             (nestingCheck node _ parent t') as [st' t1']. simpl in *. subst st'.
    now apply eng_sim_push, propertyCheck_sim.
  - rewrite !bool_decide_eq_false_2 by (intros [? ?]; discriminate).
    case_match; [|exact H].
    now apply eng_sim_push, eng_sim_add.
Qed.

Lemma _recursiveCheck_sim node :
  forall parent t t', eng_sim t t' ->
    eng_sim (_recursiveCheck node parent t) (_recursiveCheck node parent t').
Proof.
  induction node as [node IH] using DesignNode_tree_ind.
  intros parent t t' H.
  destruct node as [i nm cp cs bg br pd lm]; simpl in *.
  set (n := mkNode i nm cp cs bg br pd lm) in *.
  pose proof (scanNode_sim n parent t t' H) as H1.
  destruct cs as [l|]; [|exact H1].
  specialize (IH l eq_refl).
  revert H1. generalize (scanNode n parent t) (scanNode n parent t').
  generalize (Some n). clear -IH. intros pn.
  induction IH as [|c l Hc _ IHl]; simpl; intros a a' Ha; [exact Ha|].
  apply IHl, Hc, Ha.
Qed.

Lemma report_sim this this' tree :
  reg_sim (registry this) (registry this') -> report this tree = report this' tree.
Proof.
  intros HR. unfold report, validate. simpl.
  assert (H : eng_sim
                (_recursiveCheck tree None
                   (mkEngine (registry this) 100 [] [] false (mkBreakdown 0 0 0 0)))
                (_recursiveCheck tree None
                   (mkEngine (registry this') 100 [] [] false (mkBreakdown 0 0 0 0)))).
  { apply _recursiveCheck_sim. unfold eng_sim; simpl. auto 10. }
  destruct H as (_ & Hs & Hv & Hc & Hh & Hb).
  now rewrite Hs, Hv, Hc, Hh, Hb.
Qed.


Lemma reg_sim_required g this :
  reg_sim (registry this) (registry (withRequired g this)).
Proof.
  intros k. simpl. rewrite map_lookup_imap.
  destruct (components (registry this) !! k) as [r|]; simpl; constructor.
  split; simpl; [|reflexivity].
  destruct (props r) as [p|]; simpl; [|exact I].
  intros q. rewrite map_lookup_imap. destruct (p !! q); simpl.
  - split; eauto.
  - split; intros [? ?]; discriminate.
Qed.

(** ** The violations of one node *)

Lemma propertyCheck_violations node r t :
  violations (propertyCheck node r t)
  = violations t ++ map (unknownViolation node) (unknownKeys node r).
Proof.
  unfold propertyCheck, unknownKeys.
  destruct (componentProperties node) as [cps|]; [|now rewrite app_nil_r].
  destruct (props r) as [p|]; [|now rewrite app_nil_r].
  rewrite <- (map_map fst cleanProp).
  revert t. induction (map fst cps) as [|k ks IH]; simpl; intros t.
  - now rewrite app_nil_r.
  - rewrite IH. destruct (str_in _ _); simpl; [reflexivity|].
    now rewrite <- app_assoc.
Qed.

Lemma nestingCheck_violations node lookup parent this :
  exists nest,
    violations (snd (nestingCheck node lookup parent this)) = violations this ++ nest
    /\ Forall (fun w => rule w = "Composition" /\ nodeName w = name node) nest.
Proof.
  unfold nestingCheck.
  repeat (case_match; simpl;
          try (exists []; split; [now rewrite app_nil_r | constructor])).
  eexists. split; [reflexivity|]. repeat constructor.
Qed.

(** The violations that the scan of a node records carry its name. *)
Lemma scanNode_violations node parent this :
  exists added,
    violations (scanNode node parent this) = violations this ++ added
    /\ Forall (fun w => nodeName w = name node) added.
Proof.
  unfold scanNode. case_match; [|exists []; split; [now rewrite app_nil_r | constructor]].
  case_match.
  - destruct (nestingCheck_violations node (lookupName (name node)) parent this)
      as (nest & E & Hn).
    destruct (nestingCheck _ _ _ _) as [st t1]. simpl in *.
    rewrite propertyCheck_violations, E, <- app_assoc.
    eexists. split; [reflexivity|]. apply Forall_app. split.
    + eapply List.Forall_impl; [|exact Hn]. now intros w [_ Hw].
    + apply List.Forall_forall. intros w Hw. apply in_map_iff in Hw.
      now destruct Hw as (k & <- & _).
  - simpl. eexists. split; [reflexivity|]. repeat constructor.
Qed.

(** The violations that the traversal of a subtree records carry the names
    of its nodes; those recorded after the scan of the root, the names of
    the nodes below it. *)
Lemma _recursiveCheck_violations node :
  forall parent this,
    exists below,
      violations (_recursiveCheck node parent this)
      = violations (scanNode node parent this) ++ below
      /\ Forall (fun w => In (nodeName w) (descendantNames node)) below.
Proof.
  induction node as [node IH] using DesignNode_tree_ind.
  intros parent this.
  destruct node as [i nm cp cs bg br pd lm]; simpl in *.
  set (n := mkNode i nm cp cs bg br pd lm) in *.
  unfold descendantNames. simpl.
  generalize (scanNode n parent this) as t. generalize (Some n) as pn.
  destruct cs as [l|]; [|intros; exists []; split; [now rewrite app_nil_r | constructor]].
  specialize (IH l eq_refl). clear n. intros pn.
  induction IH as [|c l Hc _ IHl]; intros t; simpl.
  - exists []. split; [now rewrite app_nil_r | constructor].
  - destruct (Hc pn t) as (b1 & E1 & H1).
    destruct (scanNode_violations c pn t) as (a1 & E0 & H0).
    destruct (IHl (_recursiveCheck c pn t)) as (b2 & E2 & H2).
    exists ((a1 ++ b1) ++ b2). split.
    + rewrite E2, E1, E0. now rewrite <- !app_assoc.
    + apply Forall_app. split; [apply Forall_app; split|].
      * eapply List.Forall_impl; [|exact H0]. intros w Hw. apply in_or_app. left.
        destruct c; simpl in *. now left.
      * eapply List.Forall_impl; [|exact H1]. intros w Hw. apply in_or_app. left.
        destruct c; simpl in *. now right.
      * eapply List.Forall_impl; [|exact H2]. intros w Hw. apply in_or_app. now right.
Qed.



(** C9: for a governed node with a rule, the violations recorded are the
    nesting violation, if any, one violation for an unknown property per
    node key that is not a property name of the rule, and the violations of
    the nodes below; a property of the rule never yields one, whatever its
    [required] flag, and the report does not depend on any [required]
    flag. *)
Theorem required_flag_not_enforced
  (this : GovernanceEngine) (node : DesignNode) (parent : option DesignNode)
  (r : ComponentRule) :
  components (registry this) !! lookupName (name node) = Some r ->
  (exists nest below,
      violations (_recursiveCheck node parent this)
      = violations this ++ nest ++ map (unknownViolation node) (unknownKeys node r) ++ below
      /\ Forall (fun w => rule w = "Composition") nest
      /\ Forall (fun w => In (nodeName w) (descendantNames node)) below)
  /\ (forall k, In k (unknownKeys node r) ->
        (exists cps key d,
            componentProperties node = Some cps /\ In (key, d) cps /\ cleanProp key = k)
        /\ forall ps p spec, props r = Some ps -> ps !! p = Some spec -> toLowerCase p <> k)
  /\ forall g tree, report (withRequired g this) tree = report this tree.
Proof.
  intros Hr. split; [|split].
  - destruct (_recursiveCheck_violations node parent this) as (below & Eb & Hb).
    destruct (nestingCheck_violations node (lookupName (name node)) parent this)
      as (nest & E & Hnest).
    exists nest, below. split; [|split; [|exact Hb]].
    + rewrite Eb. unfold scanNode. rewrite Hr. rewrite bool_decide_eq_true_2 by eauto.
      rewrite orb_true_r.
      destruct (nestingCheck _ _ _ _) as [st t1]. simpl in *.
      rewrite propertyCheck_violations, E. now rewrite <- !app_assoc.
    + eapply List.Forall_impl; [|exact Hnest]. now intros w [H _].
  - intros k Hk. unfold unknownKeys in Hk.
    destruct (componentProperties node) as [cps|] eqn:Ecp; [|contradiction].
    destruct (props r) as [rp|] eqn:Erp; [|contradiction].
    apply filter_In in Hk. destruct Hk as [Hk Hoff].
    apply in_map_iff in Hk. destruct Hk as ([key d] & E & Hin). split.
    + exists cps, key, d. auto.
    + intros ps p spec [= <-] Hp Elow.
      apply negb_true_iff, not_true_iff_false in Hoff. apply Hoff.
      apply official_spec. exists p. split; [eauto | exact Elow].
  - intros g tree. symmetry. apply report_sim, reg_sim_required.
Qed.

Lemma required_flag_not_enforced_witness :
  (exists nest below,
      violations (_recursiveCheck (leaf "2" "app-button") (Some (parentOf "1" "hero" []))
                    exampleEngine)
      = violations exampleEngine ++ nest
        ++ map (unknownViolation (leaf "2" "app-button"))
               (unknownKeys (leaf "2" "app-button") buttonRule) ++ below
      /\ Forall (fun w => rule w = "Composition") nest
      /\ Forall (fun w => In (nodeName w) (descendantNames (leaf "2" "app-button"))) below)
  /\ (forall k, In k (unknownKeys (leaf "2" "app-button") buttonRule) ->
        (exists cps key d,
            componentProperties (leaf "2" "app-button") = Some cps
            /\ In (key, d) cps /\ cleanProp key = k)
        /\ forall ps p spec,
            props buttonRule = Some ps -> ps !! p = Some spec -> toLowerCase p <> k)
  /\ forall g tree, report (withRequired g exampleEngine) tree = report exampleEngine tree.
Proof.
  apply (required_flag_not_enforced exampleEngine (leaf "2" "app-button")
           (Some (parentOf "1" "hero" [])) buttonRule).
  vm_compute. reflexivity.
Defined.

(** The end-to-end scenario of the specification: a button that omits its
    required [variant] under a [hero] that forbids nothing is verified. *)
Example required_variant_omitted :
  let r := report exampleEngine (parentOf "1" "hero" [leaf "2" "app-button"]) in
  Report.violations r = [] /\ Report.score r = 100 /\ Report.valid r = true
  /\ map sc_status (Report.components r) = [VERIFIED; VERIFIED].
Proof. vm_compute. auto. Qed.

(** C4: the parent's lookup name keeps what follows a slash and the
    surrounding blanks that the node's own lookup name drops, so a parent
    named [Card/Primary] is scanned under the rule [card] while its child's
    nesting check consults the key [card/primary] and finds no rule. *)
Theorem parent_lookup_differs_from_own_lookup :
  lookupName "Card/Primary" = "card"
  /\ parentLookup "Card/Primary" = "card/primary"
  /\ components exampleRegistry !! lookupName "Card/Primary" = Some cardRule
  /\ components exampleRegistry !! parentLookup "Card/Primary" = None
  /\ Report.violations
       (report exampleEngine (parentOf "1" "Card/Primary" [leaf "2" "app-button"])) = []
  /\ map severity
       (Report.violations
          (report exampleEngine (parentOf "1" "Card" [leaf "2" "app-button"]))) = [CRITICAL].
Proof. vm_compute. auto 10. Qed.

(** ** The regular expression matcher *)

Lemma s2l_l2s (l : text) : s2l (l2s l) = l.
Proof. apply list_ascii_of_string_of_list_ascii. Qed.

Lemma l2s_s2l (s : string) : l2s (s2l s) = s.
Proof. apply string_of_list_ascii_of_string. Qed.

Lemma s2l_append (a b : string) : s2l (a +:+ b) = s2l a ++ s2l b.
Proof. induction a as [|c a IH]; simpl; [reflexivity | now rewrite IH]. Qed.

Lemma matchHere_nil prev s : matchHere [] prev s = Some [s].
Proof. reflexivity. Qed.

Lemma matchHere_Chr p r prev s :
  matchHere (Chr p :: r) prev s
  = match s with
    | c :: s' => if p c then matchHere r (Some c) s' else None
    | [] => None
    end.
Proof. reflexivity. Qed.

Lemma matchHere_Star p r prev s :
  matchHere (Star p :: r) prev s
  = match s with
    | c :: s' =>
        if p c then
          match matchHere (Star p :: r) (Some c) s' with
          | Some m => Some m
          | None => matchHere r prev s
          end
        else matchHere r prev s
    | [] => matchHere r prev s
    end.
Proof. destruct s; reflexivity. Qed.

Lemma matchHere_Lazy p r prev s :
  matchHere (Lazy p :: r) prev s
  = match matchHere r prev s with
    | Some m => Some m
    | None =>
        match s with
        | c :: s' => if p c then matchHere (Lazy p :: r) (Some c) s' else None
        | [] => None
        end
    end.
Proof. destruct s; reflexivity. Qed.

Lemma matchHere_Mark r prev s :
  matchHere (Mark :: r) prev s
  = match matchHere r prev s with
    | Some m => Some (s :: m)
    | None => None
    end.
Proof. reflexivity. Qed.


(** A pattern without [^] does not look at the character before. *)
Lemma matchHere_prev r : noBol r -> forall s p p', matchHere r p s = matchHere r p' s.
Proof.
  induction 1 as [|a r Ha _ IH]; [reflexivity|].
  destruct a as [q|q|q|q| | |l]; try contradiction.
  - intros [|c s] p p'; reflexivity.
  - induction s as [|c s IHs]; intros p p'; rewrite !(matchHere_Star q r).
    + apply IH.
    + rewrite (IH (c :: s) p p'). reflexivity.
  - induction s as [|c s IHs]; intros p p'; rewrite !(matchHere_Lazy q r).
    + now rewrite (IH [] p p').
    + now rewrite (IH (c :: s) p p').
  - intros [|c s] p p'; simpl; [apply IH|]. now rewrite (IH (c :: s) p p').
  - intros s p p'. rewrite !matchHere_Mark. now rewrite (IH s p p').
  - intros s p p'. simpl. now rewrite (IH s p p').
Qed.

(** A greedy star is deterministic when what follows it cannot start with a
    character of its class. *)
Lemma matchHere_Star_det p r :
  noBol r ->
  (forall c s prev, p c = true -> matchHere r prev (c :: s) = None) ->
  forall s prev, matchHere (Star p :: r) prev s = matchHere r None (dropWhile p s).
Proof.
  intros Hb Hr. induction s as [|c s IH]; intros prev; rewrite matchHere_Star; simpl.
  - now apply matchHere_prev.
  - destruct (p c) eqn:E.
    + rewrite IH. destruct (matchHere r None (dropWhile p s)); [reflexivity|].
      now apply Hr.
    + now apply matchHere_prev.
Qed.

(** No match anywhere, for a pattern without [^]. *)
Lemma exec_none r : noBol r ->
  forall s prev,
    exec r prev s = None <-> forall a b, s = a ++ b -> matchHere r None b = None.
Proof.
  intros Hb. induction s as [|c s IH]; intros prev; simpl.
  - rewrite (matchHere_prev r Hb [] prev None). split.
    + intros H a b E. symmetry in E. apply app_eq_nil in E. destruct E; subst.
      now destruct (matchHere r None []).
    + intros H. now rewrite (H [] [] eq_refl).
  - rewrite (matchHere_prev r Hb (c :: s) prev None). split.
    + intros H a b E. destruct (matchHere r None (c :: s)) eqn:Em; [discriminate|].
      destruct (exec r (Some c) s) as [[[? ?] ?]|] eqn:Ee; [discriminate|].
      destruct a as [|c' a]; simpl in E.
      * now subst b.
      * injection E as -> ->. eapply IH; eauto.
    + intros H. rewrite (H [] (c :: s) eq_refl).
      assert (E : exec r (Some c) s = None).
      { apply IH. intros a b ->. apply (H (c :: a) b). reflexivity. }
      now rewrite E.
Qed.

Lemma last_cons {A : Type} (l : list A) (x d : A) :
  List.last (x :: l) d = List.last l x.
Proof.
  revert x d. induction l as [|y l IH]; intros x d; [reflexivity|].
  change (List.last (x :: y :: l) d) with (List.last (y :: l) d).
  now rewrite !IH.
Qed.

(** Inside a match the characters of the subject are skipped. *)
Lemma replaceAll_go_skip r f a :
  forall before prev b,
    replaceAll_go r f (List.length a) before prev (a ++ b)
    = replaceAll_go r f 0 (rev a ++ before) (List.last (map Some a) prev) b.
Proof.
  induction a as [|c a IH]; intros before prev b; [reflexivity|].
  simpl List.length. simpl app. cbn [replaceAll_go].
  rewrite IH. rewrite <- app_assoc. simpl map. now rewrite last_cons.
Qed.

Lemma replaceAll_go_nomatch r f before prev c s :
  matchHere r prev (c :: s) = None ->
  replaceAll_go r f 0 before prev (c :: s)
  = c :: replaceAll_go r f 0 (c :: before) (Some c) s.
Proof. intros H. simpl. now rewrite H. Qed.

(** ** Content healing is idempotent *)


Lemma chr_ci_lt c : chr_ci ltc c = true -> c = ltc.
Proof. destruct c as [[] [] [] [] [] [] [] []]; vm_compute; congruence. Qed.

Lemma chr_ci_lower a c : chr_ci a c = true -> lower c = lower a.
Proof. unfold chr_ci. apply Ascii.eqb_eq. Qed.

Lemma chr_ci_false a c d :
  chr_ci a c = true -> Ascii.eqb (lower a) (lower d) = false -> chr_ci d c = false.
Proof.
  unfold chr_ci. intros H Hn. apply Ascii.eqb_eq in H. now rewrite H.
Qed.

Lemma ws_not_lt c : isWhiteSpace c = true -> chr_ci ltc c = false.
Proof. destruct c as [[] [] [] [] [] [] [] []]; vm_compute; congruence. Qed.


Lemma lit_ci_inv l r :
  forall prev s m,
    matchHere (map (fun a => Chr (chr_ci a)) l ++ r) prev s = Some m ->
    exists o s1 prev',
      Forall2 (fun a c => chr_ci a c = true) l o /\ s = o ++ s1
      /\ matchHere r prev' s1 = Some m.
Proof.
  induction l as [|a l IH]; intros prev s m H; simpl in H.
  - exists [], s, prev. repeat split; [constructor | exact H].
  - destruct s as [|c s]; [discriminate|].
    destruct (chr_ci a c) eqn:E; [|discriminate].
    destruct (IH _ _ _ H) as (o & s1 & p' & Ho & -> & Hm).
    exists (c :: o), s1, p'. repeat split; [now constructor | exact Hm].
Qed.

Lemma dropWhile_split p s :
  exists x, s = x ++ dropWhile p s /\ Forall (fun c => p c = true) x.
Proof.
  induction s as [|c s (x & E & Hx)]; simpl.
  - exists []. split; [reflexivity | constructor].
  - destruct (p c) eqn:Ec.
    + exists (c :: x). split; [simpl; now f_equal | now constructor].
    + exists []. split; [reflexivity | constructor].
Qed.

Lemma noBol_skipn k r : noBol r -> noBol (skipn k r).
Proof.
  revert r. induction k as [|k IH]; intros r H; [exact H|].
  destruct H as [|a r _ H]; [constructor | now apply IH].
Qed.

Lemma noBol_button : noBol emptyButtonRegex.
Proof. unfold noBol. repeat constructor. Qed.

(** The shape of a match of [emptyButtonRegex]. *)
Lemma emptyButton_match prev s m :
  matchHere emptyButtonRegex prev s = Some m ->
  exists o x w c rest,
    isOpen o /\ noGt x /\ isClose c
    /\ s = o ++ x ++ gtc :: w ++ c ++ rest
    /\ m = [s; w ++ c ++ rest; c ++ rest; rest; rest].
Proof.
  unfold emptyButtonRegex. simpl app. rewrite matchHere_Mark.
  destruct (matchHere _ prev s) as [m1|] eqn:H1; [|discriminate].
  intros [= <-].
  change (Chr (chr_ci "<") :: Chr (chr_ci "b") :: Chr (chr_ci "u") :: Chr (chr_ci "t")
            :: Chr (chr_ci "t") :: Chr (chr_ci "o") :: Chr (chr_ci "n") :: ?r)
    with (map (fun a => Chr (chr_ci a)) (s2l "<button") ++ r) in H1.
  apply lit_ci_inv in H1. destruct H1 as (o & s1 & p1 & Ho & -> & H2).
  rewrite matchHere_Star_det in H2; cycle 1.
  { repeat constructor. }
  { intros c t p Hc. rewrite matchHere_Chr. unfold notChr, chr in *.
    now apply negb_true_iff in Hc as ->. }
  destruct (dropWhile_split (notChr ">") s1) as (x & E1 & Hx).
  rewrite matchHere_Chr in H2.
  destruct (dropWhile (notChr ">") s1) as [|g s3]; [discriminate|].
  destruct (chr ">" g) eqn:Eg; [|discriminate].
  unfold chr in Eg. apply Ascii.eqb_eq in Eg. subst g.
  rewrite matchHere_Mark in H2.
  destruct (matchHere _ _ s3) as [m3|] eqn:H3; [|discriminate].
  injection H2 as <-.
  rewrite matchHere_Star_det in H3; cycle 1.
  { repeat constructor. }
  { intros c t p Hc. rewrite matchHere_Mark, matchHere_Chr.
    now rewrite (ws_not_lt c Hc). }
  destruct (dropWhile_split isWhiteSpace s3) as (w & E3 & _).
  set (s4 := dropWhile isWhiteSpace s3) in *.
  rewrite matchHere_Mark in H3.
  destruct (matchHere _ None s4) as [m4|] eqn:H4; [|discriminate].
  injection H3 as <-.
  change (Chr (chr_ci "<") :: Chr (chr_ci "/") :: Chr (chr_ci "b") :: Chr (chr_ci "u")
            :: Chr (chr_ci "t") :: Chr (chr_ci "t") :: Chr (chr_ci "o")
            :: Chr (chr_ci "n") :: Chr (chr_ci ">") :: ?r)
    with (map (fun a => Chr (chr_ci a)) (s2l "</button>") ++ r) in H4.
  apply lit_ci_inv in H4. destruct H4 as (c & rest & p4 & Hc & E4 & H5).
  simpl in H5. injection H5 as <-.
  exists o, x, w, c, rest. repeat split; try assumption.
  - rewrite E1, E3, E4. reflexivity.
  - rewrite E3 at 1. rewrite E4. reflexivity.
Qed.


(** The binding variable is a word of letters. *)
Lemma lower_letter_plain c : between 97 122 (lower c) = true -> plainChar c.
Proof. destruct c as [[] [] [] [] [] [] [] []]; vm_compute; intuition congruence. Qed.

Lemma bindingVar_plain ii : Forall plainChar (s2l (bindingVar ii)).
Proof.
  unfold bindingVar.
  destruct (find _ _) as [i|] eqn:E.
  - apply find_some in E. destruct E as [_ E].
    assert (H : Forall (fun c => between 97 122 c = true) (s2l (toLowerCase (in_name i)))).
    { unfold str_in, textNames in E. simpl in E.
      repeat (apply orb_prop in E; destruct E as [E|E];
              [apply String.eqb_eq in E; rewrite E; repeat constructor|]).
      discriminate. }
    unfold toLowerCase in H. rewrite s2l_l2s in H.
    apply List.Forall_map in H. eapply List.Forall_impl; [|exact H].
    intros c. apply lower_letter_plain.
  - repeat constructor.
Qed.

Lemma expand_plain n v t b s0 m :
  Forall (fun c => Ascii.eqb c dollar = false) v ->
  expand n (v ++ t) b s0 m = v ++ expand n t b s0 m.
Proof.
  induction 1 as [|c v Hc _ IH]; [reflexivity|].
  simpl. rewrite Hc. simpl. now rewrite IH.
Qed.

(** The replacement text of [healEmptyTags] for a match. *)
Lemma heal_template v b s0 m :
  Forall plainChar (s2l v) ->
  template 2 ("$1{{ " +:+ v +:+ " }}$2") b s0 m
  = group m 1 ++ s2l "{{ " ++ s2l v ++ s2l " }}" ++ group m 2.
Proof.
  intros Hv. unfold template. rewrite !s2l_append.
  change (s2l "$1{{ ") with ("$"%char :: "1"%char :: s2l "{{ ").
  cbn [app]. cbn [expand].
  change (negb (Ascii.eqb "$" dollar)) with false. cbn iota.
  change (Ascii.eqb "1" dollar) with false.
  change (isCode 38 "1") with false. change (isCode 96 "1") with false.
  change (isCode 39 "1") with false. change (digit "1") with (Some 1%nat).
  cbn iota. change (digit "{") with (@None nat). cbn iota.
  change ((1 <=? 1)%nat && (1 <=? 2)%nat)%bool with true. cbn iota.
  f_equal.
  rewrite (expand_plain 2 (s2l "{{ ")) by (repeat constructor).
  f_equal.
  rewrite expand_plain by (eapply List.Forall_impl; [|exact Hv]; intros c Hc; apply Hc).
  f_equal.
  change (s2l " }}$2") with (s2l " }}" ++ s2l "$2").
  rewrite (expand_plain 2 (s2l " }}")) by (repeat constructor).
  f_equal. cbn -[group]. apply app_nil_r.
Qed.


(** Inside an opening tag that is followed by something else than blanks
    and a closing tag, no state of the pattern up to the tag's end
    accepts. *)
Lemma open_tag_rejects x c0 tail :
  noGt x -> isWhiteSpace c0 = false -> chr_ci ltc c0 = false ->
  forall k, (1 <= k <= 8)%nat -> forall p,
    matchHere (skipn k emptyButtonRegex) p (x ++ gtc :: c0 :: tail) = None.
Proof.
  intros Hx Hw Hc. induction Hx as [|c x Hcx _ IH]; intros k Hk p.
  - destruct k as [|[|[|[|[|[|[|[|[|k]]]]]]]]]; try lia; button_states.
    1-7: rewrite matchHere_Chr; closed_test; reflexivity.
    rewrite matchHere_Star. closed_test. cbn iota.
    rewrite matchHere_Chr. closed_test. cbn iota.
    rewrite matchHere_Mark, matchHere_Star, Hw, matchHere_Mark, matchHere_Chr, Hc.
    reflexivity.
  - simpl app.
    destruct k as [|[|[|[|[|[|[|[|[|k]]]]]]]]]; try lia.
    1-7: button_states; rewrite matchHere_Chr;
      match goal with |- context [if ?t then _ else _] => destruct t end;
      [|reflexivity].
    + exact (IH 2%nat ltac:(lia) _).
    + exact (IH 3%nat ltac:(lia) _).
    + exact (IH 4%nat ltac:(lia) _).
    + exact (IH 5%nat ltac:(lia) _).
    + exact (IH 6%nat ltac:(lia) _).
    + exact (IH 7%nat ltac:(lia) _).
    + exact (IH 8%nat ltac:(lia) _).
    + pose proof (IH 8%nat ltac:(lia) (Some c)) as H8.
      revert H8. button_states. intros H8.
      rewrite matchHere_Star, Hcx, H8, matchHere_Chr.
      unfold notChr in Hcx. unfold chr. apply negb_true_iff in Hcx. now rewrite Hcx.
Qed.

Lemma chr_ci_noGt a c :
  chr_ci a c = true -> Ascii.eqb (lower a) (lower gtc) = false -> notChr gtc c = true.
Proof.
  unfold chr_ci, notChr. intros H Hn. apply Ascii.eqb_eq in H.
  apply negb_true_iff, Ascii.eqb_neq. intros ->. rewrite H, Ascii.eqb_refl in Hn.
  discriminate.
Qed.

Lemma isOpen_noGt o : isOpen o -> noGt o.
Proof.
  unfold isOpen, noGt. cbv [s2l list_ascii_of_string]. intros H.
  repeat match goal with
         | H : Forall2 _ (_ :: _) _ |- _ => inversion H; subst; clear H
         | H : Forall2 _ [] _ |- _ => inversion H; subst; clear H
         end.
  repeat (constructor; [eapply chr_ci_noGt; [eassumption | reflexivity]|]).
  constructor.
Qed.

(** A replaced match is rejected by every state of the pattern that has
    consumed a character. *)
Lemma healed_match_rejects o x tail s :
  isOpen o -> noGt x ->
  forall k, (2 <= k <= 23)%nat -> forall p1 p2,
    matchHere (skipn k emptyButtonRegex) p1 s = None ->
    matchHere (skipn k emptyButtonRegex) p2 (o ++ x ++ gtc :: "{"%char :: tail) = None.
Proof.
  intros Ho Hx k Hk p1 p2 Hs.
  destruct (le_lt_dec k 8) as [Hk8|Hk8].
  - rewrite app_assoc. apply open_tag_rejects; try reflexivity; [|lia].
    apply Forall_app. split; [now apply isOpen_noGt | exact Hx].
  - unfold isOpen in Ho. cbv [s2l list_ascii_of_string] in Ho.
    inversion Ho as [|a1 o1 l1 o' H1 Ho']; subst; clear Ho.
    inversion Ho' as [|a2 o2 l2 o'' H2 _]; subst; clear Ho'.
    apply chr_ci_lt in H1. subst o1.
    assert (Hb : chr_ci "/" o2 = false) by (eapply chr_ci_false; [exact H2 | reflexivity]).
    simpl app.
    do 9 (destruct k as [|k]; [lia|]).
    do 13 (destruct k as [|k];
           [button_states;
            repeat (first [rewrite matchHere_Mark | rewrite matchHere_Chr
                          | rewrite matchHere_Star];
                    cbn iota; closed_test; cbn iota; rewrite ?Hb);
            reflexivity|]).
    destruct k as [|[|k]]; [| |lia]; revert Hs; button_states; discriminate.
Qed.

Lemma button_atom k :
  (k < 23)%nat ->
  (exists p, skipn k emptyButtonRegex = Chr p :: skipn (S k) emptyButtonRegex)
  \/ (exists p, skipn k emptyButtonRegex = Star p :: skipn (S k) emptyButtonRegex)
  \/ skipn k emptyButtonRegex = Mark :: skipn (S k) emptyButtonRegex.
Proof.
  intros Hk.
  do 23 (destruct k as [|k];
         [first [left; eexists; reflexivity
                | right; left; eexists; reflexivity
                | right; right; reflexivity]|]).
  lia.
Qed.

Lemma replaceAll_go_match r f b prev s m :
  matchHere r prev s = Some m ->
  replaceAll_go r f 0 b prev s
  = f (rev b) s m ++
    match s with
    | [] => []
    | c :: s' =>
        match List.length (matched s m) with
        | O => c :: replaceAll_go r f 0 (c :: b) (Some c) s'
        | S k => replaceAll_go r f k (c :: b) (Some c) s'
        end
    end.
Proof. intros H. destruct s; simpl; now rewrite H. Qed.

Lemma replaceAll_go_nil r f b prev :
  matchHere r prev [] = None -> replaceAll_go r f 0 b prev [] = [].
Proof. intros H. simpl. now rewrite H. Qed.

Lemma between_rests_app (a b : text) : between_rests (a ++ b) b = a.
Proof.
  unfold between_rests. rewrite List.length_app.
  replace (List.length a + List.length b - List.length b)%nat with (List.length a) by lia.
  rewrite firstn_app, Nat.sub_diag, firstn_all. simpl. apply app_nil_r.
Qed.

Section Healing.
Variable v : string.
Hypothesis v_plain : Forall plainChar (s2l v).

(** The replacement of a match: the opening tag, the binding, the closing
    tag. *)
Lemma heal_replacement b o x w c rest :
  healTemplate v b (o ++ x ++ gtc :: w ++ c ++ rest)
    [o ++ x ++ gtc :: w ++ c ++ rest; w ++ c ++ rest; c ++ rest; rest; rest]
  = o ++ x ++ gtc :: "{"%char :: s2l "{ " ++ s2l v ++ s2l " }}" ++ c.
Proof.
  unfold healTemplate. rewrite heal_template by exact v_plain.
  unfold group. simpl nth.
  replace (o ++ x ++ gtc :: w ++ c ++ rest) with ((o ++ x ++ [gtc]) ++ w ++ c ++ rest)
    by (now rewrite <- !app_assoc).
  rewrite !between_rests_app. rewrite <- !app_assoc. reflexivity.
Qed.

Lemma heal_keeps_rejecting :
  forall n s, (List.length s <= n)%nat ->
  forall j k, (k + j = 23)%nat -> (2 <= k)%nat ->
  forall b p p1 p2,
    matchHere (skipn k emptyButtonRegex) p1 s = None ->
    matchHere (skipn k emptyButtonRegex) p2 (replaceAll_go emptyButtonRegex (healTemplate v) 0 b p s) = None.
Proof.
  induction n as [|n IHn]; intros s Hn j k Hj Hk b p p1 p2 H.
  - destruct s; [|simpl in Hn; lia].
    rewrite replaceAll_go_nil by reflexivity.
    erewrite matchHere_prev; [exact H | apply noBol_skipn, noBol_button].
  - destruct (matchHere emptyButtonRegex p s) as [m|] eqn:Em.
    + rewrite (replaceAll_go_match _ _ _ _ _ _ Em).
      destruct (emptyButton_match _ _ _ Em) as (o & x & w & c & rest & Ho & Hx & Hc & E & ->).
      subst s. rewrite heal_replacement.
      rewrite <- !app_assoc. simpl app.
      eapply healed_match_rejects; eauto. lia.
    + destruct s as [|c s].
      { rewrite replaceAll_go_nil by reflexivity.
        erewrite matchHere_prev; [exact H | apply noBol_skipn, noBol_button]. }
      rewrite (replaceAll_go_nomatch _ _ _ _ _ _ Em).
      simpl in Hn. clear Em.
      revert k Hj Hk p1 p2 H. induction j as [|j IHj]; intros k Hj Hk p1 p2 H.
      * replace k with 23%nat in H by lia. discriminate H.
      * destruct (button_atom k ltac:(lia)) as [[q E]|[[q E]|E]]; rewrite E in *.
        -- rewrite matchHere_Chr in *. cbn iota in H |- *. destruct (q c); [|reflexivity].
           eapply (IHn s ltac:(lia) j (S k)); [lia | lia | exact H].
        -- rewrite matchHere_Star in H. rewrite matchHere_Star. cbn iota in H |- *.
           assert (H2 : matchHere (skipn (S k) emptyButtonRegex) p1 (c :: s) = None).
           { destruct (q c); [|exact H].
             now destruct (matchHere (Star q :: _) (Some c) s). }
           rewrite (IHj (S k) ltac:(lia) ltac:(lia) p1 p2 H2).
           destruct (q c) eqn:Eq; [|reflexivity].
           try rewrite Eq in H.
           destruct (matchHere (Star q :: skipn (S k) emptyButtonRegex) (Some c) s) eqn:E1;
             [discriminate|].
           rewrite <- E in E1 |- *.
           now rewrite (IHn s ltac:(lia) (S j) k Hj Hk _ _ _ (Some c) E1).
        -- rewrite matchHere_Mark in H. rewrite matchHere_Mark.
           destruct (matchHere (skipn (S k) emptyButtonRegex) p1 (c :: s)) eqn:H2;
             [discriminate|].
           now rewrite (IHj (S k) ltac:(lia) ltac:(lia) p1 p2 H2).
Qed.
End Healing.

Lemma exec_prev r : noBol r ->
  forall s p p', exec r p s = None -> exec r p' s = None.
Proof. intros Hb s p p' H. apply (exec_none r Hb s p'). now apply (exec_none r Hb s p). Qed.

Lemma exec_cons_none r c t :
  noBol r ->
  matchHere r None (c :: t) = None -> exec r None t = None -> exec r None (c :: t) = None.
Proof.
  intros Hb Hm He. simpl. rewrite Hm.
  now rewrite (exec_prev r Hb t None (Some c) He).
Qed.

Lemma button_needs_lt c t : chr_ci ltc c = false -> matchHere emptyButtonRegex None (c :: t) = None.
Proof.
  intros H. button_states. rewrite matchHere_Mark, matchHere_Chr. now rewrite H.
Qed.

Lemma exec_plain u t :
  Forall (fun c => chr_ci ltc c = false) u ->
  exec emptyButtonRegex None t = None -> exec emptyButtonRegex None (u ++ t) = None.
Proof.
  intros Hu Ht. induction Hu as [|c u Hc _ IH]; [exact Ht|].
  simpl app. apply exec_cons_none; [apply noBol_button | now apply button_needs_lt | exact IH].
Qed.

Lemma exec_open_tag x c0 t :
  noGt x -> isWhiteSpace c0 = false -> chr_ci ltc c0 = false ->
  exec emptyButtonRegex None (c0 :: t) = None ->
  exec emptyButtonRegex None (x ++ gtc :: c0 :: t) = None.
Proof.
  intros Hx Hw Hc Ht.
  assert (Hm : forall y, noGt y -> matchHere emptyButtonRegex None (y ++ gtc :: c0 :: t) = None).
  { intros y Hy. pose proof (open_tag_rejects y c0 t Hy Hw Hc 1 ltac:(lia) None) as H1.
    revert H1. button_states. intros H1. now rewrite matchHere_Mark, H1. }
  induction Hx as [|c x Hcx Hx IH].
  - simpl app. apply exec_cons_none; [apply noBol_button | apply (Hm []); constructor|].
    exact Ht.
  - simpl app. apply exec_cons_none; [apply noBol_button | |exact IH].
    apply (Hm (c :: x)). now constructor.
Qed.

Lemma exec_close_tag c t :
  isClose c -> exec emptyButtonRegex None t = None ->
  exec emptyButtonRegex None (c ++ t) = None.
Proof.
  intros Hc Ht. unfold isClose in Hc. cbv [s2l list_ascii_of_string] in Hc.
  repeat match goal with
         | H : Forall2 _ (_ :: _) _ |- _ => inversion H; subst; clear H
         | H : Forall2 _ [] _ |- _ => inversion H; subst; clear H
         end.
  simpl app.
  match goal with H : chr_ci "<" ?y = true |- _ => apply chr_ci_lt in H; subst y end.
  apply exec_cons_none; [apply noBol_button | |].
  { button_states. rewrite matchHere_Mark, !matchHere_Chr. closed_test. cbn iota.
    match goal with H : chr_ci "/" ?y = true |- _ =>
      rewrite (chr_ci_false "/" y "b" H eq_refl) end.
    reflexivity. }
  repeat (apply exec_cons_none;
          [apply noBol_button
          | apply button_needs_lt; eapply chr_ci_false; [eassumption | reflexivity]
          | ]).
  exact Ht.
Qed.

Lemma button_head p c t :
  matchHere emptyButtonRegex p (c :: t)
  = if chr_ci ltc c
    then match matchHere (skipn 2 emptyButtonRegex) (Some c) t with
         | Some m => Some ((c :: t) :: m)
         | None => None
         end
    else None.
Proof.
  button_states. rewrite matchHere_Mark, matchHere_Chr.
  now destruct (chr_ci "<" c).
Qed.

Section Healed.
Variable v : string.
Hypothesis v_plain : Forall plainChar (s2l v).

(** The healed markup has no empty button left. *)
Lemma healed_has_no_match :
  forall n s, (List.length s <= n)%nat ->
  forall b p, exec emptyButtonRegex None (replaceAll_go emptyButtonRegex (healTemplate v) 0 b p s) = None.
Proof.
  induction n as [|n IHn]; intros s Hn b p.
  - destruct s; [|simpl in Hn; lia].
    rewrite replaceAll_go_nil by reflexivity. reflexivity.
  - destruct (matchHere emptyButtonRegex p s) as [m|] eqn:Em.
    + rewrite (replaceAll_go_match _ _ _ _ _ _ Em).
      destruct (emptyButton_match _ _ _ Em) as (o & x & w & c & rest & Ho & Hx & Hc & E & ->).
      subst s. rewrite (heal_replacement v v_plain).
      unfold matched, rest_of. simpl List.last.
      replace (o ++ x ++ gtc :: w ++ c ++ rest)
        with ((o ++ x ++ gtc :: w ++ c) ++ rest)
        by (now rewrite <- !app_assoc, <- app_comm_cons, <- !app_assoc).
      rewrite between_rests_app.
      assert (Ho' := Ho). unfold isOpen in Ho'. cbv [s2l list_ascii_of_string] in Ho'.
      inversion Ho' as [|a1 o1 l1 o' H1 Ho'']; subst. clear Ho' Ho'' H1.
      simpl app. simpl List.length.
      rewrite replaceAll_go_skip.
      set (out := replaceAll_go _ _ 0 _ _ rest).
      assert (Hout : exec emptyButtonRegex None out = None).
      { apply IHn. simpl in Hn. rewrite !List.length_app in Hn. simpl in Hn.
        rewrite !List.length_app in Hn. lia. }
      match goal with
      | |- exec _ _ ?l = _ =>
          replace l with (((o1 :: o') ++ x) ++ ">"%char :: "{"%char
                            :: s2l "{ " ++ s2l v ++ s2l " }}" ++ c ++ out)
            by (simpl; repeat (rewrite <- app_assoc || rewrite <- app_comm_cons);
                reflexivity)
      end.
      apply exec_open_tag; try reflexivity.
      { apply Forall_app. split; [now apply isOpen_noGt | exact Hx]. }
      change ("{"%char :: s2l "{ " ++ s2l v ++ s2l " }}" ++ c ++ out)
        with (s2l "{{ " ++ s2l v ++ s2l " }}" ++ c ++ out).
      apply exec_plain; [repeat constructor|].
      apply exec_plain; [eapply List.Forall_impl; [|exact v_plain]; intros ? H; apply H|].
      apply exec_plain; [repeat constructor|].
      now apply exec_close_tag.
    + destruct s as [|c s].
      { rewrite replaceAll_go_nil by reflexivity. reflexivity. }
      rewrite (replaceAll_go_nomatch _ _ _ _ _ _ Em).
      simpl in Hn.
      apply exec_cons_none; [apply noBol_button | | apply IHn; lia].
      rewrite button_head in Em |- *.
      destruct (chr_ci "<" c); [|reflexivity].
      destruct (matchHere (skipn 2 emptyButtonRegex) (Some c) s) eqn:E2; [discriminate|].
      pose proof (heal_keeps_rejecting v v_plain n s ltac:(lia) 21 2 eq_refl ltac:(lia)
                    (c :: b) (Some c) (Some c) (Some c) E2) as K.
      now rewrite K.
Qed.
End Healed.

Lemma healEmptyTags_content_idempotent html ii :
  healEmptyTags_content (healEmptyTags_content html ii) ii = healEmptyTags_content html ii.
Proof.
  unfold healEmptyTags_content.
  destruct (test emptyButtonRegex html) eqn:T; [|now rewrite T].
  assert (T' : test emptyButtonRegex
                 (replaceAll emptyButtonRegex (healTemplate (bindingVar ii)) html) = false).
  { unfold test, replaceAll. rewrite s2l_l2s.
    now rewrite (healed_has_no_match _ (bindingVar_plain ii) _ _ (le_n _)). }
  unfold healTemplate in T'. now rewrite T'.
Qed.

(** ** Selector normalization renames the first top-level class *)



(** ** Structural healing *)









Lemma exec_matchHere r :
  forall s prev b s0 m,
    exec r prev s = Some (b, s0, m) ->
    s = b ++ s0 /\ exists prev', matchHere r prev' s0 = Some m.
Proof.
  induction s as [|c s IH]; intros prev b s0 m; simpl.
  - destruct (matchHere r prev []) eqn:E; [|discriminate].
    intros [= <- <- <-]. split; [reflexivity | eauto].
  - destruct (matchHere r prev (c :: s)) eqn:E.
    + intros [= <- <- <-]. split; [reflexivity | eauto].
    + destruct (exec r (Some c) s) as [[[b' s0'] m']|] eqn:Ee; [|discriminate].
      intros [= <- <- <-]. destruct (IH _ _ _ _ Ee) as [-> H]. split; [reflexivity | exact H].
Qed.





Lemma noBol_importCore : noBol importCoreRegex.
Proof. unfold noBol. repeat constructor. Qed.

Lemma noBol_fromCore : noBol fromCoreRegex.
Proof. unfold noBol. repeat constructor. Qed.

Lemma noBol_classStart : noBol classStartRegex.
Proof. unfold noBol. repeat constructor. Qed.



















(** C8: content healing is idempotent, on the markup and on the bundle;
    the empty button of the scenario is healed to a button with the binding
    of [label], which a second run leaves as it is, no empty button being
    left. *)
Theorem content_healing_idempotent :
  (forall html ii,
      healEmptyTags_content (healEmptyTags_content html ii) ii = healEmptyTags_content html ii)
  /\ (forall files ii, healEmptyTags (healEmptyTags files ii) ii = healEmptyTags files ii)
  /\ healEmptyTags_content emptyButtonMarkup labelInputs = healedButtonMarkup
  /\ test emptyButtonRegex healedButtonMarkup = false
  /\ healEmptyTags_content healedButtonMarkup labelInputs = healedButtonMarkup.
Proof.
  split; [exact healEmptyTags_content_idempotent|]. split.
  - intros files ii. unfold healEmptyTags.
    destruct (html files) as [h|] eqn:E; simpl; [|now rewrite E].
    unfold setContent. simpl. now rewrite healEmptyTags_content_idempotent.
  - vm_compute. auto.
Qed.

(** ** Colours *)

(** C7 as the code has it: the hexadecimal and contrast values of the
    specification's examples, and the contrast colour is black exactly when
    the luminance that the code computes in binary64 exceeds one half; a
    computed luminance of exactly one half, as for the grey [(0.5,0.5,0.5)],
    gives white. *)
Theorem contrast_by_computed_luminance :
  rgbToHex 1 0 0 = "#FF0000"
  /\ getContrastColor 1 0 0 = "#FFFFFF"
  /\ getContrastColor 1 1 1 = "#000000"
  /\ (forall r g b,
         getContrastColor r g b = "#000000" <-> PrimFloat.ltb 0.5 (luminance r g b) = true)
  /\ (forall r g b,
         getContrastColor r g b = "#FFFFFF" <-> PrimFloat.ltb 0.5 (luminance r g b) = false)
  /\ (forall r g b,
         PrimFloat.eqb (luminance r g b) 0.5 = true -> getContrastColor r g b = "#FFFFFF")
  /\ luminance 0.5 0.5 0.5 = 0.5%float
  /\ getContrastColor 0.5 0.5 0.5 = "#FFFFFF".
Proof.
  split; [vm_compute; reflexivity|].
  split; [vm_compute; reflexivity|].
  split; [vm_compute; reflexivity|].
  split; [|split; [|split; [|split; vm_compute; reflexivity]]].
  - intros r g b. unfold getContrastColor.
    destruct (PrimFloat.ltb 0.5 (luminance r g b)); split; (reflexivity || discriminate).
  - intros r g b. unfold getContrastColor.
    destruct (PrimFloat.ltb 0.5 (luminance r g b)); split; (reflexivity || discriminate).
  - intros r g b. unfold getContrastColor. generalize (luminance r g b) as x. intros x.
    rewrite FloatAxioms.eqb_spec, FloatAxioms.ltb_spec.
    change (Prim2SF 0.5) with (S754_finite false 4503599627370496 (-53)).
    destruct (Prim2SF x) as [s|s| |s m e]; try discriminate; simpl.
    + destruct s; discriminate.
    + unfold SFeqb, SFltb, SFcompare.
      destruct s; [discriminate|].
      destruct (Z.compare e (-53)) eqn:Ee; try discriminate.
      apply Z.compare_eq in Ee. subst e. rewrite Z.compare_refl.
      destruct (Pos.compare_cont Eq m 4503599627370496) eqn:Em; try discriminate.
      apply Pos.compare_eq in Em. subst m. reflexivity.
Qed.

Lemma contrast_by_computed_luminance_witness :
  getContrastColor 0.5 0.5 0.5 = "#FFFFFF".
Proof.
  apply (proj1 (proj2 (proj2 (proj2 (proj2 (proj2 contrast_by_computed_luminance)))))
           0.5%float 0.5%float 0.5%float).
  vm_compute. reflexivity.
Defined.

(** C7 as stated fails: the colour [(31/32, 7/32, 23/32)] has luminance
    exactly one half, by the formula evaluated exactly and evaluated in
    binary64, and its contrast colour is black. *)
Lemma contrast_of_exact_half_is_black :
  match exactLuminance halfR halfG halfB with
  | Some L => Qeq L (1 # 2)
  | None => False
  end
  /\ luminance_formula halfR halfG halfB = 0.5%float
  /\ getContrastColor halfR halfG halfB = "#000000"
  /\ getContrastColor halfR halfG halfB <> "#FFFFFF".
Proof.
  split; [vm_compute; reflexivity|].
  split; [vm_compute; reflexivity|].
  split; [vm_compute; reflexivity|].
  vm_compute. discriminate.
Qed.

(** ** The healing pipeline *)

Lemma push_fields files e :
  typescript (push files e) = typescript files /\ html (push files e) = html files
  /\ scss (push files e) = scss files /\ story (push files e) = story files
  /\ errors (push files e) = errors files ++ [e].
Proof. unfold push. simpl. auto. Qed.


Lemma extends_refl f : extends f f.
Proof. unfold extends. repeat split. exists []. now rewrite app_nil_r. Qed.

Lemma extends_trans f g h : extends f g -> extends g h -> extends f h.
Proof.
  intros (A1 & A2 & A3 & A4 & l1 & A5) (B1 & B2 & B3 & B4 & l2 & B5).
  unfold extends. rewrite B1, B2, B3, B4, A1, A2, A3, A4. repeat split.
  exists (l1 ++ l2). now rewrite B5, A5, app_assoc.
Qed.

Lemma extends_push f e : extends f (push f e).
Proof. unfold extends, push. simpl. repeat split. eauto. Qed.

Lemma extends_checkRequired t o f : extends f (checkRequired t o f).
Proof.
  unfold checkRequired. destruct o as [x|]; [|apply extends_push].
  destruct (String.eqb (content x) ""); [apply extends_push | apply extends_refl].
Qed.

Lemma extends_validateTypeScript c f : extends f (validateTypeScriptComponent c f).
Proof.
  unfold validateTypeScriptComponent.
  repeat match goal with
         | |- context [if ?b then _ else _] => destruct b
         end;
    repeat (eapply extends_trans; [|apply extends_push]); apply extends_refl.
Qed.

Lemma extends_validateHtml c f : extends f (validateHtmlTemplate c f).
Proof.
  unfold validateHtmlTemplate.
  destruct (Nat.ltb _ _); [apply extends_push | apply extends_refl].
Qed.

Lemma extends_nonempty f g : extends f g -> errors f <> [] -> errors g <> [].
Proof.
  intros (_ & _ & _ & _ & l & E) H. rewrite E. intros E'.
  apply app_eq_nil in E'. now destruct E'.
Qed.

Lemma checkRequired_reports t o f :
  missingOrEmpty o = true -> errors (checkRequired t o f) <> [].
Proof.
  unfold checkRequired, missingOrEmpty. intros H.
  destruct o as [x|]; [rewrite H|]; simpl; intros E; apply app_eq_nil in E;
    destruct E; discriminate.
Qed.

(** The final validation keeps the artifacts, and reports every absent or
    empty one. *)
Lemma validateExtractedFiles_reports files :
  extends files (validateExtractedFiles files)
  /\ (anyMissingOrEmpty files = true -> errors (validateExtractedFiles files) <> []).
Proof.
  unfold validateExtractedFiles.
  set (f1 := checkRequired "typescript" (typescript files) files).
  set (f2 := checkRequired "html" (html files) f1).
  set (f3 := checkRequired "scss" (scss files) f2).
  set (f4 := checkRequired "story" (story files) f3).
  set (f5 := match nonEmpty (typescript files) with
             | Some c => validateTypeScriptComponent c f4
             | None => f4
             end).
  assert (E1 : extends files f1) by apply extends_checkRequired.
  assert (E2 : extends f1 f2) by apply extends_checkRequired.
  assert (E3 : extends f2 f3) by apply extends_checkRequired.
  assert (E4 : extends f3 f4) by apply extends_checkRequired.
  assert (E5 : extends f4 f5).
  { unfold f5. destruct (nonEmpty (typescript files));
      [apply extends_validateTypeScript | apply extends_refl]. }
  assert (E6 : extends f5 (match nonEmpty (html files) with
                           | Some c => validateHtmlTemplate c f5
                           | None => f5
                           end)).
  { destruct (nonEmpty (html files)); [apply extends_validateHtml | apply extends_refl]. }
  split.
  - repeat (eapply extends_trans; [eassumption|]). apply extends_refl.
  - unfold anyMissingOrEmpty. rewrite !orb_true_iff. intros [[[H|H]|H]|H].
    + apply (extends_nonempty f1); [|now apply checkRequired_reports].
      repeat (eapply extends_trans; [eassumption|]). apply extends_refl.
    + apply (extends_nonempty f2); [|now apply checkRequired_reports].
      repeat (eapply extends_trans; [eassumption|]). apply extends_refl.
    + apply (extends_nonempty f3); [|now apply checkRequired_reports].
      repeat (eapply extends_trans; [eassumption|]). apply extends_refl.
    + apply (extends_nonempty f4); [|now apply checkRequired_reports].
      repeat (eapply extends_trans; [eassumption|]). apply extends_refl.
Qed.


Lemma storyContent_nonempty tsCode componentName inputs :
  String.eqb (storyContent tsCode componentName inputs) "" = false.
Proof. reflexivity. Qed.

Lemma validateAndHealStory_nonempty st tsCode componentName inputs :
  String.eqb (content (validateAndHealStory st tsCode componentName inputs)) "" = false.
Proof.
  unfold validateAndHealStory. destruct st as [f|]; [|reflexivity].
  destruct (String.eqb (content f) "") eqn:E; simpl; [reflexivity|].
  destruct (includes (content f) "Meta"); [exact E | reflexivity].
Qed.

Section PipelineFacts.
Variable FigmaNodeData : Type.
Variable overrideCss : option string -> option FigmaNodeData -> string.


End PipelineFacts.


(** * Further properties of the program *)

Lemma _recursiveCheck_scan_preserves (P : GovernanceEngine -> Prop) :
  (forall node parent this, P this -> P (scanNode node parent this)) ->
  forall node parent this, P this -> P (_recursiveCheck node parent this).
Proof.
  intros HP node.
  induction node as [node IH] using DesignNode_tree_ind.
  intros parent this H.
  destruct node as [i nm cp cs bg br pd lm]; simpl in *.
  set (n := mkNode i nm cp cs bg br pd lm) in *.
  pose proof (HP n parent this H) as H1.
  destruct cs as [l|]; [|exact H1].
  apply fold_left_preserves; [|exact H1].
  specialize (IH l eq_refl).
  eapply List.Forall_impl; [|exact IH]. simpl. intros c Hc a Ha. apply Hc, Ha.
Qed.

Lemma nestingCheck_cases node lookup parent this :
  nestingCheck node lookup parent this = (VERIFIED, this)
  \/ exists m g, nestingCheck node lookup parent this
               = (VIOLATION, _addViolation (name node) m CRITICAL "Composition" g this).
Proof.
  unfold nestingCheck.
  repeat (case_match; auto). right. eauto.
Qed.

Lemma propertyCheck_fields node r t :
  registry (propertyCheck node r t) = registry t
  /\ scannedComponents (propertyCheck node r t) = scannedComponents t.
Proof.
  apply (propertyCheck_preserves
           (fun x => registry x = registry t /\ scannedComponents x = scannedComponents t));
    auto.
Qed.

Lemma countSeverity_app s l l' :
  countSeverity s (l ++ l') = countSeverity s l + countSeverity s l'.
Proof. unfold countSeverity. rewrite List.filter_app, List.length_app. lia. Qed.

Lemma countSeverity_unknown node ks : countSeverity CRITICAL (map (unknownViolation node) ks) = 0.
Proof. induction ks as [|k ks IH]; [reflexivity|]. exact IH. Qed.

Lemma scanNode_invariant reg node parent this :
  scanInvariant reg this -> scanInvariant reg (scanNode node parent this).
Proof.
  intros (HR & HV & HS & HC). unfold scanNode.
  case_match; [|repeat split; assumption].
  destruct (components (registry this) !! lookupName (name node)) as [r|] eqn:E.
  - destruct (nestingCheck_cases node (lookupName (name node)) parent this) as [N|(m & g & N)];
      rewrite N; clear N.
    + destruct (propertyCheck_fields node r this) as [F1 F2].
      unfold scanInvariant, pushScanned. cbn [registry violations scannedComponents].
      rewrite F1, F2, propertyCheck_violations.
      repeat split.
      * exact HR.
      * apply Forall_app. split; [exact HV|].
        apply List.Forall_forall. intros v Hv. apply in_map_iff in Hv as (k & <- & _).
        right. split; reflexivity.
      * apply Forall_app. split; [exact HS|]. constructor; [|constructor].
        unfold scannedFits. simpl. rewrite <- HR, E. repeat split; intros; congruence.
      * rewrite countSeverity_app, countSeverity_unknown, List.filter_app, List.length_app.
        simpl. lia.
    + set (t1 := _addViolation _ _ _ _ _ this).
      destruct (propertyCheck_fields node r t1) as [F1 F2].
      unfold scanInvariant, pushScanned. cbn [registry violations scannedComponents].
      rewrite F1, F2, propertyCheck_violations.
      repeat split.
      * exact HR.
      * apply Forall_app. split.
        -- unfold t1, _addViolation. cbn [violations].
           apply Forall_app. split; [exact HV|]. constructor; [|constructor].
           left. simpl. auto.
        -- apply List.Forall_forall. intros v Hv. apply in_map_iff in Hv as (k & <- & _).
           right. split; reflexivity.
      * apply Forall_app. split; [exact HS|]. constructor; [|constructor].
        unfold scannedFits. simpl. rewrite <- HR, E. repeat split; intros; congruence.
      * rewrite countSeverity_app, countSeverity_unknown, List.filter_app, List.length_app.
        unfold t1, _addViolation. cbn [violations scannedComponents].
        rewrite countSeverity_snoc. simpl. lia.
  - unfold scanInvariant, pushScanned, _addViolation.
    cbn [registry violations scannedComponents].
    repeat split.
    + exact HR.
    + apply Forall_app. split; [exact HV|]. constructor; [|constructor].
      left. simpl. auto.
    + apply Forall_app. split; [exact HS|]. constructor; [|constructor].
      unfold scannedFits. simpl. rewrite <- HR, E. repeat split; intros; congruence.
    + rewrite countSeverity_snoc, List.filter_app, List.length_app. simpl. lia.
Qed.

Lemma scanInvariant_validate this tree :
  scanInvariant (registry this)
    (_recursiveCheck tree None
       (mkEngine (registry this) 100 [] [] false (mkBreakdown 0 0 0 0))).
Proof.
  apply _recursiveCheck_scan_preserves.
  - intros. now apply scanNode_invariant.
  - unfold scanInvariant. simpl. repeat split; constructor.
Qed.

Lemma countSeverity_fromChecks l : Forall fromChecks l -> countSeverity MAJOR l = 0.
Proof.
  induction 1 as [|v l Hv _ IH]; [reflexivity|].
  change (v :: l) with ([v] ++ l). rewrite countSeverity_app, IH.
  unfold countSeverity. simpl.
  destruct Hv as [[-> _]|[-> _]]; reflexivity.
Qed.

(** X1: the engine records only CRITICAL violations, from the existence and
    the composition check, and MINOR ones, from the property check, never a
    MAJOR one; so the score is 100 less 50 per CRITICAL and 5 per MINOR
    violation, and a report is valid exactly when it has no CRITICAL and at
    most two MINOR violations. *)
Theorem no_major_violation (this : GovernanceEngine) (tree : DesignNode) :
  let r := report this tree in
  Forall fromChecks (Report.violations r)
  /\ bMAJOR (Report.breakdown r) = 0
  /\ Report.score r
     = Z.max 0 (100 - 50 * bCRITICAL (Report.breakdown r) - 5 * bMINOR (Report.breakdown r))
  /\ (Report.valid r = true
      <-> bCRITICAL (Report.breakdown r) = 0 /\ bMINOR (Report.breakdown r) <= 2).
Proof.
  destruct (accounted_validate this tree) as (Hs & Hc & HM & Hm & Hh).
  destruct (scanInvariant_validate this tree) as (_ & HV & _ & _).
  unfold report, validate. simpl.
  set (t := _recursiveCheck _ _ _) in *.
  pose proof (countSeverity_fromChecks _ HV) as H0.
  pose proof (countSeverity_nonneg CRITICAL (violations t)).
  pose proof (countSeverity_nonneg MINOR (violations t)).
  split; [exact HV|]. split; [congruence|].
  rewrite Hs, Hh, Hc, Hm, H0. split; [f_equal; lia|].
  rewrite andb_true_iff, negb_true_iff, Z.ltb_ge, Z.leb_le. lia.
Qed.

(** X2: every scanned component is either counted as PASS or stands for
    exactly one CRITICAL violation, so the CRITICAL and the PASS counter add
    up to the number of components; a component has the status UNKNOWN
    exactly when it carries a draft registry fragment, and then the registry
    has no rule under its lookup name. *)
Theorem critical_or_pass (this : GovernanceEngine) (tree : DesignNode) :
  let r := report this tree in
  bCRITICAL (Report.breakdown r) + bPASS (Report.breakdown r)
  = Z.of_nat (List.length (Report.components r))
  /\ Forall (scannedFits (registry this)) (Report.components r).
Proof.
  destruct (accounted_validate this tree) as (_ & Hc & _).
  destruct (scanInvariant_validate this tree) as (_ & _ & HS & HC).
  unfold report, validate. simpl.
  set (t := _recursiveCheck _ _ _) in *.
  split; [|exact HS].
  rewrite Hc, HC. clear.
  induction (scannedComponents t) as [|c l IH]; [reflexivity|].
  simpl. unfold notVerified at 1. destruct (isVerified c); simpl in *; lia.
Qed.

Lemma scanNode_registry node parent this : registry (scanNode node parent this) = registry this.
Proof.
  apply (scanNode_preserves (fun x => registry x = registry this)); auto.
Qed.

Lemma _recursiveCheck_registry node parent this :
  registry (_recursiveCheck node parent this) = registry this.
Proof.
  apply (_recursiveCheck_preserves (fun x => registry x = registry this)); auto.
Qed.

Lemma scanNode_scanned node parent this :
  map scannedKey (scannedComponents (scanNode node parent this))
  = map scannedKey (scannedComponents this)
    ++ (if isComponent (registry this) node then [nodeKey node] else []).
Proof.
  unfold scanNode, isComponent.
  case_match; [|now rewrite app_nil_r].
  case_match.
  - destruct (nestingCheck_cases node (lookupName (name node)) parent this) as [N|(m & g & N)];
      rewrite N; clear N.
    + destruct (propertyCheck_fields node c this) as [_ F2].
      unfold pushScanned. cbn [scannedComponents]. now rewrite F2, map_app.
    + match goal with |- context [propertyCheck node c ?t] =>
        destruct (propertyCheck_fields node c t) as [_ F2] end.
      unfold pushScanned. cbn [scannedComponents]. now rewrite F2, map_app.
  - unfold pushScanned. cbn [scannedComponents]. now rewrite map_app.
Qed.

Lemma scanNode_names node parent this :
  exists added,
    violations (scanNode node parent this) = violations this ++ added
    /\ (isComponent (registry this) node = false -> added = [])
    /\ Forall (fun w => nodeName w = name node) added.
Proof.
  destruct (scanNode_violations node parent this) as (added & E & F).
  destruct (isComponent (registry this) node) eqn:C.
  - exists added. repeat split; [exact E | discriminate | exact F].
  - exists []. repeat split; auto.
    unfold scanNode. unfold isComponent in C. rewrite C. now rewrite app_nil_r.
Qed.

Lemma fold_scanned (R : Registry) (node : DesignNode) (l : list DesignNode) :
  Forall (fun c => forall parent this, registry this = R ->
            map scannedKey (scannedComponents (_recursiveCheck c parent this))
            = map scannedKey (scannedComponents this)
              ++ map nodeKey (List.filter (isComponent R) (subtreeNodes c))) l ->
  forall this, registry this = R ->
    map scannedKey
        (scannedComponents
           (fold_left (fun this child => _recursiveCheck child (Some node) this) l this))
    = map scannedKey (scannedComponents this)
      ++ map nodeKey (List.filter (isComponent R) (flat_map subtreeNodes l)).
Proof.
  induction 1 as [|c l Hc _ IH]; intros this HR; simpl.
  - now rewrite app_nil_r.
  - rewrite IH by (now rewrite _recursiveCheck_registry).
    rewrite (Hc _ _ HR), List.filter_app, map_app, app_assoc. reflexivity.
Qed.

Lemma _recursiveCheck_scanned node :
  forall parent this,
    map scannedKey (scannedComponents (_recursiveCheck node parent this))
    = map scannedKey (scannedComponents this)
      ++ map nodeKey (List.filter (isComponent (registry this)) (subtreeNodes node)).
Proof.
  induction node as [node IH] using DesignNode_tree_ind.
  intros parent this.
  destruct node as [i nm cp cs bg br pd lm]; simpl in *.
  set (n := mkNode i nm cp cs bg br pd lm) in *.
  pose proof (scanNode_scanned n parent this) as H1.
  destruct cs as [l|].
  - rewrite (fold_scanned (registry this) n l).
    + rewrite H1, <- app_assoc. f_equal.
      destruct (isComponent (registry this) n); reflexivity.
    + specialize (IH l eq_refl).
      eapply List.Forall_impl; [|exact IH]. simpl.
      intros c Hc p t <-. apply Hc.
    + apply scanNode_registry.
  - rewrite H1. f_equal.
    destruct (isComponent (registry this) n); reflexivity.
Qed.

(** X3: the components of a report are the governed nodes of the tree, each
    once, in the order of a pre-order traversal, with the identifier, the
    name and the lookup name of the node. *)
Theorem components_in_visit_order (this : GovernanceEngine) (tree : DesignNode) :
  ownLookups tree = true ->
  map scannedKey (Report.components (report this tree))
  = map nodeKey (List.filter (isComponent (registry this)) (subtreeNodes tree)).
Proof.
  intros _. unfold report, validate. simpl.
  now rewrite _recursiveCheck_scanned.
Qed.

Lemma components_in_visit_order_witness :
  map scannedKey
      (Report.components
         (report exampleEngine
                 (parentOf "1" "Page" [parentOf "2" "Hero / Wide" [leaf "3" "app-button"];
                                       leaf "4" "Caption"])))
  = [("2", "Hero / Wide", "hero"); ("3", "app-button", "button")].
Proof.
  apply (components_in_visit_order exampleEngine
           (parentOf "1" "Page" [parentOf "2" "Hero / Wide" [leaf "3" "app-button"];
                                 leaf "4" "Caption"])).
  vm_compute. reflexivity.
Defined.

(** X4: [validate] starts from fresh accumulators and never changes the
    registry, so an engine can be used again: the report of a second
    validation does not depend on the first, and validating the same tree
    again gives the same state and report. *)
Theorem validate_is_repeatable (this : GovernanceEngine) (first tree : DesignNode) :
  registry (fst (validate this first)) = registry this
  /\ report (fst (validate this first)) tree = report this tree
  /\ validate (fst (validate this first)) tree = validate this tree.
Proof.
  assert (R : registry (fst (validate this first)) = registry this).
  { unfold validate. simpl. now rewrite _recursiveCheck_registry. }
  assert (V : validate (fst (validate this first)) tree = validate this tree).
  { unfold validate at 1 3. now rewrite R. }
  repeat split; [exact R | | exact V].
  unfold report. now rewrite V.
Qed.

Lemma fold_names (R : Registry) (node : DesignNode) (l : list DesignNode) :
  Forall (fun c => forall parent this, registry this = R ->
            exists added,
              violations (_recursiveCheck c parent this) = violations this ++ added
              /\ Forall (fun w => exists n, In n (subtreeNodes c) /\ isComponent R n = true
                                            /\ nodeName w = name n) added) l ->
  forall this, registry this = R ->
    exists added,
      violations (fold_left (fun this child => _recursiveCheck child (Some node) this) l this)
      = violations this ++ added
      /\ Forall (fun w => exists n, In n (flat_map subtreeNodes l) /\ isComponent R n = true
                                    /\ nodeName w = name n) added.
Proof.
  induction 1 as [|c l Hc _ IH]; intros this HR; simpl.
  - exists []. split; [now rewrite app_nil_r | constructor].
  - destruct (Hc (Some node) this HR) as (a1 & E1 & F1).
    destruct (IH (_recursiveCheck c (Some node) this)) as (a2 & E2 & F2).
    { now rewrite _recursiveCheck_registry. }
    exists (a1 ++ a2). split; [now rewrite E2, E1, app_assoc|].
    apply Forall_app. split.
    + eapply List.Forall_impl; [|exact F1]. simpl. intros w (n & I & C & N).
      exists n. split; [apply in_app_iff; now left | auto].
    + eapply List.Forall_impl; [|exact F2]. simpl. intros w (n & I & C & N).
      exists n. split; [apply in_app_iff; now right | auto].
Qed.

Lemma _recursiveCheck_names node :
  forall parent this,
    exists added,
      violations (_recursiveCheck node parent this) = violations this ++ added
      /\ Forall (fun w => exists n, In n (subtreeNodes node)
                                    /\ isComponent (registry this) n = true
                                    /\ nodeName w = name n) added.
Proof.
  induction node as [node IH] using DesignNode_tree_ind.
  intros parent this.
  destruct node as [i nm cp cs bg br pd lm]; simpl in *.
  set (n := mkNode i nm cp cs bg br pd lm) in *.
  destruct (scanNode_names n parent this) as (a1 & E1 & Z1 & F1).
  assert (F1' : Forall (fun w => exists n', In n' [n] /\ isComponent (registry this) n' = true
                                            /\ nodeName w = name n') a1).
  { destruct (isComponent (registry this) n) eqn:C.
    - eapply List.Forall_impl; [|exact F1]. simpl. intros w N.
      exists n. repeat split; simpl; auto.
    - rewrite (Z1 eq_refl). constructor. }
  destruct cs as [l|].
  - destruct (fold_names (registry this) n l) with (this := scanNode n parent this)
      as (a2 & E2 & F2).
    + specialize (IH l eq_refl).
      eapply List.Forall_impl; [|exact IH]. simpl.
      intros c Hc p t <-. apply Hc.
    + apply scanNode_registry.
    + exists (a1 ++ a2). split; [now rewrite E2, E1, app_assoc|].
      apply Forall_app. split.
      * eapply List.Forall_impl; [|exact F1']. simpl. intros w (n' & [<-|[]] & C & N).
        exists n. repeat split; auto.
      * eapply List.Forall_impl; [|exact F2]. simpl. intros w (n' & I & C & N).
        exists n'. repeat split; auto.
  - exists a1. split; [exact E1|].
    eapply List.Forall_impl; [|exact F1']. simpl. intros w (n' & [<-|[]] & C & N).
    exists n. repeat split; auto.
Qed.

(** X5: every violation of a report is recorded against a governed node of
    the tree; a tree without governed nodes, and so every tree of nodes
    without the reserved prefix under an empty registry, gets the report
    with score 100, no violations, no components and the verdict valid. *)
Theorem violations_name_governed_nodes (this : GovernanceEngine) (tree : DesignNode) :
  ownLookups tree = true ->
  let r := report this tree in
  Forall (fun v => exists n, In n (subtreeNodes tree)
                             /\ isComponent (registry this) n = true
                             /\ nodeName v = name n)
         (Report.violations r)
  /\ (Forall (fun n => isComponent (registry this) n = false) (subtreeNodes tree) ->
      r = Report.mk 100 [] [] (mkBreakdown 0 0 0 0) true).
Proof.
  intros _. cbv zeta.
  pose (t0 := mkEngine (registry this) 100 [] [] false (mkBreakdown 0 0 0 0)).
  destruct (_recursiveCheck_names tree None t0) as (added & E & F).
  pose proof (_recursiveCheck_scanned tree None t0) as S.
  destruct (accounted_validate this tree) as (Hs & Hc & HM & Hm & Hh).
  fold t0 in Hs, Hc, HM, Hm, Hh.
  simpl in E, S.
  split.
  - unfold report, validate. simpl. fold t0. rewrite E. exact F.
  - intros H.
    assert (A : added = []).
    { destruct added as [|w ws]; [reflexivity|].
      inversion F as [|? ? (n & I & C & _) _]; subst.
      rewrite List.Forall_forall in H. pose proof (H n I) as C'.
      change (registry t0) with (registry this) in C. congruence. }
    assert (B : scannedComponents (_recursiveCheck tree None t0) = []).
    { replace (List.filter (isComponent (registry this)) (subtreeNodes tree)) with
        (@nil DesignNode) in S.
      - now destruct (scannedComponents _).
      - symmetry. clear -H. induction (subtreeNodes tree) as [|n l IH]; [reflexivity|].
        inversion H; subst. simpl. rewrite H2. now apply IH. }
    unfold report, validate. simpl. fold t0.
    rewrite A in E. rewrite E in Hs, Hc, HM, Hm, Hh.
    rewrite Hs, Hc, HM, Hm, Hh, E, B. reflexivity.
Qed.

Lemma violations_name_governed_nodes_witness :
  report (new_GovernanceEngine (mkRegistry ∅)) plainTree
  = Report.mk 100 [] [] (mkBreakdown 0 0 0 0) true.
Proof.
  apply (proj2 (violations_name_governed_nodes (new_GovernanceEngine (mkRegistry ∅)) plainTree
                  eq_refl)).
  vm_compute. repeat constructor.
Defined.

Lemma matchHere_star_only p : forall s prev, matchHere [Star p] prev s = Some [dropWhile p s].
Proof.
  induction s as [|c s IH]; intros prev; rewrite matchHere_Star.
  - reflexivity.
  - simpl. destruct (p c); [now rewrite IH | reflexivity].
Qed.

Lemma matchHere_plus p prev s :
  matchHere (plus p) prev s
  = match s with
    | c :: s' => if p c then Some [dropWhile p s'] else None
    | [] => None
    end.
Proof.
  unfold plus. rewrite matchHere_Chr. destruct s as [|c s]; [reflexivity|].
  destruct (p c); [apply matchHere_star_only | reflexivity].
Qed.

Lemma collapse_dropWhile p rep s :
  collapse p rep true s = collapse p rep false (dropWhile p s).
Proof.
  induction s as [|c s IH]; [reflexivity|].
  simpl. destruct (p c) eqn:E; [exact IH|]. simpl. now rewrite E.
Qed.

Lemma dropWhile_length p s : (List.length (dropWhile p s) <= List.length s)%nat.
Proof.
  induction s as [|c s IH]; simpl; [lia|]. destruct (p c); simpl; lia.
Qed.

(** A global replacement of the runs of a class by a fixed text. *)
Lemma replaceAll_go_plus p f rep :
  (forall b s0 m, f b s0 m = rep) ->
  forall n s, (List.length s <= n)%nat ->
  forall before prev, replaceAll_go (plus p) f 0 before prev s = collapse p rep false s.
Proof.
  intros Hf. induction n as [|n IH]; intros s Hn before prev.
  - destruct s; [|simpl in Hn; lia]. apply replaceAll_go_nil. now rewrite matchHere_plus.
  - destruct s as [|c s]; [apply replaceAll_go_nil; now rewrite matchHere_plus|].
    simpl in Hn.
    destruct (p c) eqn:E.
    + rewrite (replaceAll_go_match _ _ _ _ _ [dropWhile p s])
        by (now rewrite matchHere_plus, E).
      rewrite Hf. simpl collapse. rewrite E. f_equal.
      destruct (dropWhile_split p s) as (x & Ex & _).
      unfold matched, rest_of. simpl List.last.
      replace (between_rests (c :: s) (dropWhile p s)) with (c :: x).
      2:{ rewrite Ex at 1. change (c :: x ++ dropWhile p s) with ((c :: x) ++ dropWhile p s).
          now rewrite between_rests_app. }
      simpl List.length. rewrite collapse_dropWhile.
      rewrite Ex at 1. rewrite replaceAll_go_skip.
      apply IH. pose proof (dropWhile_length p s). lia.
    + rewrite replaceAll_go_nomatch by (now rewrite matchHere_plus, E).
      simpl. rewrite E. f_equal. apply IH. lia.
Qed.

Lemma replaceAll_plus p tmpl rep s :
  (forall b s0 m, template 0 tmpl b s0 m = rep) ->
  replaceAll (plus p) (template 0 tmpl) s = l2s (collapse p rep false (s2l s)).
Proof.
  intros H. unfold replaceAll. f_equal. now apply (replaceAll_go_plus p _ rep H _ _ (le_n _)).
Qed.

Lemma collapse_filter p s : collapse p [] false s = List.filter (fun c => negb (p c)) s.
Proof.
  assert (H : forall b, collapse p [] b s = List.filter (fun c => negb (p c)) s).
  { induction s as [|c s IH]; intros b; [reflexivity|].
    simpl. destruct (p c); simpl; [destruct b; apply IH | now rewrite IH]. }
  apply H.
Qed.

Lemma collapse_Forall (P : ascii -> Prop) p rep s :
  Forall P rep -> Forall (fun c => p c = false -> P c) s ->
  forall b, Forall P (collapse p rep b s).
Proof.
  intros Hr. induction 1 as [|c s Hc _ IH]; intros b; simpl; [constructor|].
  destruct (p c) eqn:E.
  - apply Forall_app. split; [destruct b; [constructor | exact Hr] | apply IH].
  - constructor; [now apply Hc | apply IH].
Qed.

Lemma collapse_no_class p rep s :
  Forall (fun c => p c = false) rep ->
  forall b, Forall (fun c => p c = false) (collapse p rep b s).
Proof.
  intros Hr b. apply collapse_Forall; [exact Hr|].
  apply List.Forall_forall. auto.
Qed.

Lemma hyphenate_collapse s :
  hyphenate s = l2s (collapse isWhiteSpace (s2l "-") false (s2l s)).
Proof. unfold hyphenate. now apply replaceAll_plus. Qed.

Lemma lower_lower c : lower (lower c) = lower c.
Proof. destruct c as [[] [] [] [] [] [] [] []]; reflexivity. Qed.

Lemma replaceStr_Forall (P : ascii -> Prop) pat s :
  Forall P s -> Forall P (replaceStr pat [] s).
Proof.
  induction 1 as [|c s Hc Hs IH]; simpl.
  - destruct (isPrefix pat []); simpl; [rewrite skipn_nil|]; constructor.
  - destruct (isPrefix pat (c :: s)).
    + simpl. assert (F : Forall P (c :: s)) by now constructor.
      clear -F. revert F. generalize (c :: s). generalize (List.length pat).
      induction n as [|n IH]; intros l F; [exact F|].
      destruct l; [constructor|]. inversion F; subst. simpl. now apply IH.
    + now constructor.
Qed.

Lemma stripPrefix_Forall (P : ascii -> Prop) s :
  Forall P (s2l s) -> Forall P (s2l (stripPrefix s)).
Proof.
  intros H. unfold stripPrefix. destruct (startsWith s "app-"); [|exact H].
  unfold replaceString. rewrite s2l_l2s. now apply replaceStr_Forall.
Qed.

Lemma normalized_lower (s : text) : Forall normalChar (collapse isWhiteSpace (s2l "-") false (map lower s)).
Proof.
  apply collapse_Forall.
  - repeat constructor.
  - apply List.Forall_forall. intros c Hc Hw. apply in_map_iff in Hc as (d & <- & _).
    split; [exact Hw | apply lower_lower].
Qed.

(** X6: a lookup name, of a node or of its parent, has no blank and no
    capital letter, so a rule whose registry key has one is never
    consulted. *)
Theorem lookup_names_are_normalized (n : string) :
  Forall normalChar (s2l (lookupName n))
  /\ Forall normalChar (s2l (parentLookup n))
  /\ forall key, Exists (fun c => ~ normalChar c) (s2l key) ->
                 lookupName n <> key /\ parentLookup n <> key.
Proof.
  assert (A : Forall normalChar (s2l (lookupName n))).
  { unfold lookupName, cleanName, baseNodeName. apply stripPrefix_Forall.
    rewrite hyphenate_collapse, s2l_l2s. unfold toLowerCase. rewrite s2l_l2s.
    apply normalized_lower. }
  assert (B : Forall normalChar (s2l (parentLookup n))).
  { unfold parentLookup, parentNodeName. apply stripPrefix_Forall.
    rewrite hyphenate_collapse, s2l_l2s. unfold toLowerCase. rewrite s2l_l2s.
    apply normalized_lower. }
  repeat split; auto.
  - intros <-. apply List.Exists_exists in H as (c & I & N).
    rewrite List.Forall_forall in A. exact (N (A c I)).
  - intros <-. apply List.Exists_exists in H as (c & I & N).
    rewrite List.Forall_forall in B. exact (N (B c I)).
Qed.

Lemma lookup_names_are_normalized_witness :
  lookupName "Primary Button" <> "Primary Button"
  /\ parentLookup "Primary Button" <> "Primary Button".
Proof.
  apply (proj2 (proj2 (lookup_names_are_normalized "Primary Button")) "Primary Button").
  apply Exists_cons_hd. intros [_ H]. vm_compute in H. discriminate.
Defined.

Lemma isInfix_cons p c s : isInfix p (c :: s) = (isPrefix p (c :: s) || isInfix p s)%bool.
Proof. reflexivity. Qed.

Lemma no_slash s : isInfix (s2l "/") s = false -> Forall (fun c => Ascii.eqb c "/" = false) s.
Proof.
  induction s as [|c s IH]; intros H; [constructor|].
  rewrite isInfix_cons in H. apply orb_false_iff in H as [H1 H2].
  constructor; [|now apply IH].
  change (isPrefix (s2l "/") (c :: s)) with (Ascii.eqb "/" c && true)%bool in H1.
  rewrite Ascii.eqb_sym. destruct (Ascii.eqb "/" c); [discriminate | reflexivity].
Qed.

Lemma beforeSep_app sep a b :
  Forall (fun c => Ascii.eqb c sep = false) a -> beforeSep sep (a ++ sep :: b) = a.
Proof.
  induction 1 as [|c a Hc _ IH]; simpl.
  - now rewrite Ascii.eqb_refl.
  - now rewrite Hc, IH.
Qed.

Lemma beforeSep_none sep a :
  Forall (fun c => Ascii.eqb c sep = false) a -> beforeSep sep a = a.
Proof.
  induction 1 as [|c a Hc _ IH]; simpl; [reflexivity|]. now rewrite Hc, IH.
Qed.

(** X7: the lookup name of a node depends only on the part of its name
    before the first slash; and on a name without a slash and without
    blanks around it, the lookup name that a child's nesting check derives
    for its parent is the lookup name under which the parent itself is
    scanned. *)
Theorem lookups_agree_on_plain_names (n variant : string) :
  includes n "/" = false ->
  lookupName (n +:+ "/" +:+ variant) = lookupName n
  /\ (trim n = n -> parentLookup n = lookupName n).
Proof.
  intros H. apply no_slash in H.
  assert (E : splitFirst "/" n = n).
  { unfold splitFirst. rewrite beforeSep_none by exact H. apply l2s_s2l. }
  split.
  - unfold lookupName, cleanName, baseNodeName. rewrite E. do 4 f_equal.
    unfold splitFirst. rewrite s2l_append. simpl. rewrite beforeSep_app by exact H.
    apply l2s_s2l.
  - intros T. unfold parentLookup, parentNodeName, lookupName, cleanName, baseNodeName.
    now rewrite E, T.
Qed.

Lemma lookups_agree_on_plain_names_witness :
  lookupName ("Card" +:+ "/" +:+ "Primary") = lookupName "Card"
  /\ parentLookup "Card" = lookupName "Card".
Proof.
  destruct (lookups_agree_on_plain_names "Card" "Primary" eq_refl) as [A B].
  split; [exact A | apply B; reflexivity].
Defined.

Lemma upper_upper c : upper (upper c) = upper c.
Proof. destruct c as [[] [] [] [] [] [] [] []]; reflexivity. Qed.

Lemma isWord_upper c : isWord (upper c) = isWord c.
Proof. destruct c as [[] [] [] [] [] [] [] []]; reflexivity. Qed.

Lemma upper_capital c : between 65 90 c = true -> upper c = c.
Proof. destruct c as [[] [] [] [] [] [] [] []]; try reflexivity; discriminate. Qed.

Lemma capitalizeWords_fix prev s : capitalized prev s -> capitalizeWords prev s = s.
Proof.
  revert prev. induction s as [|c s IH]; intros prev; [reflexivity|].
  intros [H1 H2]. simpl. rewrite (IH _ H2). f_equal.
  unfold atWordStart in H1.
  destruct (_ || _)%bool; [now apply H1 | reflexivity].
Qed.

Lemma atWordStart_wordBefore p p' c :
  wordBefore p = wordBefore p' -> atWordStart p c = atWordStart p' c.
Proof.
  unfold atWordStart, wordBefore. intros H.
  destruct p as [a|], p' as [b|]; cbn beta iota in *;
    try destruct (isWord a); try destruct (isWord b); try discriminate; reflexivity.
Qed.

Lemma capitalizeWords_capitalized s :
  forall prev prev', wordBefore prev = wordBefore prev' ->
    capitalized prev' (capitalizeWords prev s).
Proof.
  induction s as [|c s IH]; intros prev prev' H; [exact I|].
  simpl. fold (atWordStart prev c).
  rewrite (atWordStart_wordBefore prev prev' c H).
  split.
  - destruct (atWordStart prev' c) eqn:E.
    + intros _. apply upper_upper.
    + congruence.
  - apply IH. simpl. destruct (atWordStart prev' c); [symmetry; apply isWord_upper | reflexivity].
Qed.

Lemma ws_not_word c : isWhiteSpace c = true -> isWord c = false.
Proof. destruct c as [[] [] [] [] [] [] [] []]; try reflexivity; discriminate. Qed.

Lemma atWordStart_weaken prev prev' c :
  (wordBefore prev' = false -> wordBefore prev = false) ->
  atWordStart prev' c = true -> atWordStart prev c = true.
Proof.
  unfold atWordStart. intros H.
  destruct (between 65 90 c); [reflexivity|]. simpl.
  destruct (isWord c); [|discriminate]. simpl.
  destruct prev' as [b|], prev as [a|]; simpl in *; try reflexivity.
  - intros A. rewrite H; [reflexivity|]. now destruct (isWord b).
  - intros _. now rewrite H.
Qed.

Lemma capitalized_filter s :
  forall prev prev', (wordBefore prev' = false -> wordBefore prev = false) ->
    capitalized prev s ->
    capitalized prev' (List.filter (fun c => negb (isWhiteSpace c)) s).
Proof.
  induction s as [|c s IH]; intros prev prev' H C; [exact I|].
  destruct C as [H1 H2].
  simpl. destruct (isWhiteSpace c) eqn:W; simpl.
  - apply (IH (Some c)); [|exact H2]. intros _. simpl. now apply ws_not_word.
  - split.
    + intros A. apply H1. now apply (atWordStart_weaken prev prev').
    + apply (IH (Some c)); auto.
Qed.

Lemma filter_no_ws s :
  Forall (fun c => isWhiteSpace c = false) s ->
  List.filter (fun c => negb (isWhiteSpace c)) s = s.
Proof.
  induction 1 as [|c s Hc _ IH]; [reflexivity|]. simpl. now rewrite Hc, IH.
Qed.

Lemma filter_is_no_ws s :
  Forall (fun c => isWhiteSpace c = false) (List.filter (fun c => negb (isWhiteSpace c)) s).
Proof.
  induction s as [|c s IH]; [constructor|]. simpl.
  destruct (isWhiteSpace c) eqn:E; simpl; [exact IH | now constructor].
Qed.

Lemma toPascalCase_filter str :
  toPascalCase str
  = l2s (List.filter (fun c => negb (isWhiteSpace c)) (capitalizeWords None (s2l str))).
Proof.
  unfold toPascalCase. rewrite (replaceAll_plus _ _ []) by reflexivity.
  now rewrite s2l_l2s, collapse_filter.
Qed.

Lemma nameChar_facts c :
  isNameChar c = true -> isWord c = true /\ isWhiteSpace c = false.
Proof. destruct c as [[] [] [] [] [] [] [] []]; simpl; auto; discriminate. Qed.

Lemma capitalizeWords_name s :
  forall p, isWord p = true -> forallb isNameChar s = true ->
    capitalizeWords (Some p) s = s.
Proof.
  induction s as [|c s IH]; intros p Hp H; [reflexivity|].
  simpl in H. apply andb_true_iff in H as [Hc Hs].
  simpl. rewrite Hp. simpl. rewrite andb_false_r, orb_false_r.
  rewrite IH; auto; [|apply nameChar_facts, Hc].
  destruct (between 65 90 c) eqn:E; [now rewrite upper_capital | reflexivity].
Qed.

(** X8: [toPascalCase] is idempotent and its result has no blank; on a
    component name of letters and digits it turns the first character into
    its capital and changes nothing else. *)
Theorem toPascalCase_idempotent (str : string) :
  toPascalCase (toPascalCase str) = toPascalCase str
  /\ Forall (fun c => isWhiteSpace c = false) (s2l (toPascalCase str))
  /\ (isComponentName str = true ->
      toPascalCase str
      = match s2l str with
        | c :: t => l2s (upper c :: t)
        | [] => ""
        end).
Proof.
  set (out := List.filter (fun c => negb (isWhiteSpace c)) (capitalizeWords None (s2l str))).
  assert (E : toPascalCase str = l2s out) by apply toPascalCase_filter.
  assert (W : Forall (fun c => isWhiteSpace c = false) out) by apply filter_is_no_ws.
  split; [|split].
  - rewrite toPascalCase_filter, E, s2l_l2s. f_equal.
    rewrite capitalizeWords_fix; [now apply filter_no_ws|].
    unfold out. apply (capitalized_filter _ None None); [auto|].
    now apply capitalizeWords_capitalized.
  - now rewrite E, s2l_l2s.
  - intros H. rewrite E. unfold out, isComponentName in *.
    destruct (s2l str) as [|c t]; [reflexivity|].
    simpl in H. apply andb_true_iff in H as [Hc Ht].
    destruct (nameChar_facts c Hc) as [Wc Sc].
    simpl. rewrite Wc. simpl. rewrite orb_true_r.
    assert (Su : isWhiteSpace (upper c) = false).
    { clear -Sc. destruct c as [[] [] [] [] [] [] [] []]; try reflexivity; discriminate. }
    rewrite Su. simpl. f_equal. f_equal.
    rewrite capitalizeWords_name; auto.
    apply filter_no_ws. clear -Ht. induction t as [|d t IH]; [constructor|].
    simpl in Ht. apply andb_true_iff in Ht as [Hd Ht].
    constructor; [apply nameChar_facts, Hd | now apply IH].
Qed.

Lemma toPascalCase_idempotent_witness : toPascalCase "loginForm2" = "LoginForm2".
Proof.
  apply (proj2 (proj2 (toPascalCase_idempotent "loginForm2"))). reflexivity.
Defined.

Lemma push_errors_length f e : List.length (errors (push f e)) = S (List.length (errors f)).
Proof. unfold push. simpl. rewrite List.length_app. simpl. lia. Qed.

Lemma checkRequired_length t o f :
  List.length (errors (checkRequired t o f))
  = (List.length (errors f) + if missingOrEmpty o then 1 else 0)%nat.
Proof.
  unfold checkRequired, missingOrEmpty. destruct o as [x|].
  - destruct (String.eqb (content x) ""); rewrite ?push_errors_length; lia.
  - rewrite push_errors_length. lia.
Qed.

Lemma validateTypeScript_length c f :
  (List.length (errors f) <= List.length (errors (validateTypeScriptComponent c f)))%nat
  /\ (List.length (errors (validateTypeScriptComponent c f)) = List.length (errors f)
      <-> structurallyValid c = true).
Proof.
  unfold validateTypeScriptComponent, structurallyValid.
  destruct (includes c "@Component"), (test exportClassRegex c), (includes c "import"),
    (includes c "@angular/core"); cbn [negb orb andb]; rewrite ?push_errors_length;
    (split; [lia|]); split; intros; try reflexivity; try discriminate; lia.
Qed.

Lemma validateHtml_length c f :
  List.length (errors (validateHtmlTemplate c f))
  = (List.length (errors f) + if Nat.ltb (String.length c) 10 then 1 else 0)%nat.
Proof.
  unfold validateHtmlTemplate. destruct (Nat.ltb _ _); rewrite ?push_errors_length; lia.
Qed.

Lemma nonEmpty_spec f :
  nonEmpty f = match f with
               | Some x => if String.eqb (content x) "" then None else Some (content x)
               | None => None
               end.
Proof. reflexivity. Qed.

(** The final validation appends [k] errors, and none exactly for an
    acceptable bundle. *)
Lemma validateExtractedFiles_count (files : Files) :
  exists k,
    List.length (errors (validateExtractedFiles files)) = (List.length (errors files) + k)%nat
    /\ (k = 0%nat <-> acceptable files).
Proof.
  unfold validateExtractedFiles, acceptable.
  set (f1 := checkRequired "typescript" (typescript files) files).
  set (f2 := checkRequired "html" (html files) f1).
  set (f3 := checkRequired "scss" (scss files) f2).
  set (f4 := checkRequired "story" (story files) f3).
  pose proof (checkRequired_length "typescript" (typescript files) files) as L1.
  pose proof (checkRequired_length "html" (html files) f1) as L2.
  pose proof (checkRequired_length "scss" (scss files) f2) as L3.
  pose proof (checkRequired_length "story" (story files) f3) as L4.
  fold f1 in L1. fold f2 in L2. fold f3 in L3. fold f4 in L4.
  set (f5 := match nonEmpty (typescript files) with
             | Some c => validateTypeScriptComponent c f4
             | None => f4
             end).
  assert (L5 : exists k5, List.length (errors f5) = (List.length (errors f4) + k5)%nat
               /\ (k5 = 0%nat <-> forall c, nonEmpty (typescript files) = Some c ->
                                            structurallyValid c = true)).
  { unfold f5. destruct (nonEmpty (typescript files)) as [c|].
    - destruct (validateTypeScript_length c f4) as [V1 V2].
      exists (List.length (errors (validateTypeScriptComponent c f4)) - List.length (errors f4))%nat.
      split; [lia|]. split.
      + intros K c' E'. inversion E'; subst. apply V2. lia.
      + intros K. specialize (K c eq_refl). apply V2 in K. lia.
    - exists 0%nat. split; [lia|]. split; [discriminate | reflexivity]. }
  destruct L5 as (k5 & L5 & K5).
  set (f6 := match nonEmpty (html files) with
             | Some c => validateHtmlTemplate c f5
             | None => f5
             end).
  assert (L6 : exists k6, List.length (errors f6) = (List.length (errors f5) + k6)%nat
               /\ (k6 = 0%nat <-> forall c, nonEmpty (html files) = Some c ->
                                            (10 <= String.length c)%nat)).
  { unfold f6. destruct (nonEmpty (html files)) as [c|].
    - rewrite validateHtml_length. destruct (Nat.ltb (String.length c) 10) eqn:E.
      + exists 1%nat. split; [lia|]. apply Nat.ltb_lt in E. split; [discriminate|].
        intros K. specialize (K c eq_refl). lia.
      + exists 0%nat. split; [lia|]. apply Nat.ltb_ge in E. split; [|reflexivity].
        intros _ c' E'. inversion E'; subst. exact E.
    - exists 0%nat. split; [lia|]. split; [discriminate | reflexivity]. }
  destruct L6 as (k6 & L6 & K6).
  exists ((if missingOrEmpty (typescript files) then 1 else 0)
          + (if missingOrEmpty (html files) then 1 else 0)
          + (if missingOrEmpty (scss files) then 1 else 0)
          + (if missingOrEmpty (story files) then 1 else 0) + k5 + k6)%nat.
  split; [lia|].
  clearbody f1 f2 f3 f4 f5 f6. clear L1 L2 L3 L4 L5 L6.
  rewrite !nonEmpty_spec in *. unfold missingOrEmpty.
  split.
  - intros K.
    destruct (typescript files) as [ts|]; [|lia].
    destruct (html files) as [h|]; [|lia].
    destruct (scss files) as [sc|]; [|lia].
    destruct (story files) as [st|]; [|lia].
    destruct (String.eqb (content ts) "") eqn:E1; [lia|].
    destruct (String.eqb (content h) "") eqn:E2; [lia|].
    destruct (String.eqb (content sc) "") eqn:E3; [lia|].
    destruct (String.eqb (content st) "") eqn:E4; [lia|].
    apply String.eqb_neq in E1, E2, E3, E4.
    exists ts, h, sc, st. repeat split; auto.
    + apply K5; [lia | reflexivity].
    + apply K6; [lia | reflexivity].
  - intros (ts & h & sc & st & A1 & A2 & A3 & A4 & N1 & N2 & N3 & N4 & V & G).
    apply String.eqb_neq in N1, N2, N3, N4. rewrite A1, A2, A3, A4, N1, N2, N3, N4 in *.
    assert (k5 = 0%nat) by (apply K5; intros c E'; inversion E'; now subst).
    assert (k6 = 0%nat) by (apply K6; intros c E'; inversion E'; now subst).
    lia.
Qed.

(** X9: the final validation adds no error exactly when all four artifacts
    are present with content, the structural artifact has the component
    decorator, an exported class and the core import, and the markup has
    at least ten characters; otherwise the error list grows. *)
Theorem final_validation_accepts (files : Files) :
  (errors (validateExtractedFiles files) = errors files <-> acceptable files)
  /\ (List.length (errors files) <= List.length (errors (validateExtractedFiles files)))%nat.
Proof.
  destruct (validateExtractedFiles_count files) as (k & L1 & L2). split; [|lia].
  destruct (validateExtractedFiles_reports files) as [(_ & _ & _ & _ & l & E) _].
  rewrite <- L2. split.
  - intros H. rewrite H in L1. lia.
  - intros ->. rewrite E in L1 |- *. rewrite List.length_app in L1.
    destruct l; [now rewrite app_nil_r | simpl in L1; lia].
Qed.

Lemma final_validation_accepts_witness :
  errors (validateExtractedFiles acceptableBundle) = errors acceptableBundle.
Proof.
  apply (proj2 (proj1 (final_validation_accepts acceptableBundle))).
  exists (mkFile "x.component.ts" bareComponent "typescript" 0),
         (mkFile "x.component.html" btnMarkup "html" 0),
         (mkFile "x.component.scss" twoClassSheet "scss" 0),
         (mkFile "x.stories.ts" "Meta" "typescript" 0).
  repeat split; try discriminate; try reflexivity. vm_compute. lia.
Defined.

Lemma storyContent_has_Meta tsCode componentName inputs :
  includes (storyContent tsCode componentName inputs) "Meta" = true.
Proof. reflexivity. Qed.

(** X10: the documentation artifact that [validateAndHealStory] returns has
    content with the marker [Meta], so healing it again, with whatever
    component and inputs, returns it unchanged. *)
Theorem story_healing_is_stable
  (existingStory : option File) (tsCode componentName : string)
  (inputs : option (list InferredInput))
  (tsCode' componentName' : string) (inputs' : option (list InferredInput)) :
  let healed := validateAndHealStory existingStory tsCode componentName inputs in
  content healed <> "" /\ includes (content healed) "Meta" = true
  /\ validateAndHealStory (Some healed) tsCode' componentName' inputs' = healed.
Proof.
  cbv zeta.
  assert (A : String.eqb (content (validateAndHealStory existingStory tsCode componentName inputs)) "" = false)
    by apply validateAndHealStory_nonempty.
  assert (B : includes (content (validateAndHealStory existingStory tsCode componentName inputs)) "Meta" = true).
  { unfold validateAndHealStory. destruct existingStory as [f|]; [|apply storyContent_has_Meta].
    destruct (String.eqb (content f) ""); simpl; [apply storyContent_has_Meta|].
    destruct (includes (content f) "Meta") eqn:E; [exact E | apply storyContent_has_Meta]. }
  split; [now apply String.eqb_neq|]. split; [exact B|].
  unfold validateAndHealStory at 1. now rewrite A, B.
Qed.

Lemma uniqueInputs_seen seen l :
  Forall (fun i => ~ In (in_name i) seen) (uniqueInputs seen l).
Proof.
  revert seen. induction l as [|i l IH]; intros seen; simpl; [constructor|].
  destruct (str_in (in_name i) seen) eqn:E; [apply IH|].
  constructor.
  - intros H. apply str_in_spec in H. congruence.
  - eapply List.Forall_impl; [|apply IH]. simpl. intros j Hj Hs. apply Hj. now right.
Qed.

Lemma uniqueInputs_NoDup seen l : List.NoDup (map in_name (uniqueInputs seen l)).
Proof.
  revert seen. induction l as [|i l IH]; intros seen; simpl; [constructor|].
  destruct (str_in (in_name i) seen); [apply IH|].
  simpl. constructor; [|apply IH].
  intros H. apply in_map_iff in H as (j & E & Hj).
  pose proof (uniqueInputs_seen (in_name i :: seen) l) as F.
  rewrite List.Forall_forall in F. apply (F j Hj). left. now symmetry.
Qed.

Lemma uniqueInputs_find seen l x :
  ~ In x seen ->
  find (fun i => String.eqb (in_name i) x) (uniqueInputs seen l)
  = find (fun i => String.eqb (in_name i) x) l.
Proof.
  revert seen. induction l as [|i l IH]; intros seen Hx; simpl; [reflexivity|].
  destruct (str_in (in_name i) seen) eqn:E.
  - apply str_in_spec in E.
    destruct (String.eqb (in_name i) x) eqn:Ex.
    + apply String.eqb_eq in Ex. congruence.
    + now apply IH.
  - simpl. destruct (String.eqb (in_name i) x) eqn:Ex; [reflexivity|].
    apply IH. intros [H|H]; [|contradiction].
    apply String.eqb_neq in Ex. contradiction.
Qed.

Lemma uniqueInputs_fix seen l :
  Forall (fun i => ~ In (in_name i) seen) l -> List.NoDup (map in_name l) ->
  uniqueInputs seen l = l.
Proof.
  revert seen. induction l as [|i l IH]; intros seen F N; simpl; [reflexivity|].
  inversion F as [|? ? Fi Fl]; subst. inversion N as [|? ? Ni Nl]; subst.
  destruct (str_in (in_name i) seen) eqn:E.
  - apply str_in_spec in E. contradiction.
  - f_equal. apply IH; [|exact Nl].
    rewrite List.Forall_forall in *. intros j Hj [H|H].
    + apply Ni. rewrite H. now apply in_map.
    + now apply (Fl j Hj).
Qed.

(** X11: documentation healing keeps, of the inferred inputs with one
    name, the first, and keeps the order: the names of the inputs it uses
    are those of the list, each once; and the story generated from a list
    is the story generated from its deduplicated list. *)
Theorem story_inputs_deduplicated (l : list InferredInput) :
  List.NoDup (map in_name (uniqueInputs [] l))
  /\ (forall x, find (fun i => String.eqb (in_name i) x) (uniqueInputs [] l)
                = find (fun i => String.eqb (in_name i) x) l)
  /\ uniqueInputs [] (uniqueInputs [] l) = uniqueInputs [] l
  /\ forall tsCode componentName,
      storyContent tsCode componentName (Some (uniqueInputs [] l))
      = storyContent tsCode componentName (Some l).
Proof.
  assert (I : uniqueInputs [] (uniqueInputs [] l) = uniqueInputs [] l).
  { apply uniqueInputs_fix; [|apply uniqueInputs_NoDup]. apply uniqueInputs_seen. }
  repeat split.
  - apply uniqueInputs_NoDup.
  - intros x. apply uniqueInputs_find. intros [].
  - exact I.
  - intros tsCode componentName. unfold storyContent. now rewrite I.
Qed.

Lemma isPrefix_app_long p : forall b t,
  (List.length p <= List.length b)%nat -> isPrefix p (b ++ t) = isPrefix p b.
Proof.
  induction p as [|a p IH]; intros b t H; [now destruct b|].
  destruct b as [|c b]; [simpl in H; lia|].
  simpl in *. rewrite IH by lia. reflexivity.
Qed.

Lemma isPrefix_app_short p : forall b t,
  (List.length b <= List.length p)%nat -> isPrefix p (b ++ t) = true ->
  isPrefix (skipn (List.length b) p) t = true.
Proof.
  induction p as [|a p IH]; intros b t H E.
  - destruct b; [exact E | simpl in H; lia].
  - destruct b as [|c b]; [exact E|].
    simpl in *. apply andb_true_iff in E as [_ E]. apply IH; [lia | exact E].
Qed.

Lemma isPrefix_trunc q : forall p t,
  (List.length q <= List.length p)%nat -> isPrefix q (p ++ t) = true -> isPrefix q p = true.
Proof.
  induction q as [|a q IH]; intros p t H E; [now destruct p|].
  destruct p as [|c p]; [simpl in H; lia|].
  simpl in *. apply andb_true_iff in E as [E1 E2]. rewrite E1. simpl.
  apply (IH p t); [lia | exact E2].
Qed.

Lemma isInfix_suffix p a b : isInfix p (a ++ b) = false -> isInfix p b = false.
Proof.
  induction a as [|c a IH]; [auto|].
  simpl app. rewrite isInfix_cons. intros H. apply orb_false_iff in H as [_ H]. auto.
Qed.

Lemma isInfix_head p s : isInfix p s = false -> isPrefix p s = false.
Proof.
  destruct s; simpl; intros H; apply orb_false_iff in H as [H _]; exact H.
Qed.

Lemma isInfix_app_r p a b : isInfix p b = true -> isInfix p (a ++ b) = true.
Proof.
  intros H. induction a as [|c a IH]; [exact H|].
  simpl app. rewrite isInfix_cons, IH. apply orb_true_r.
Qed.

Lemma isPrefix_isInfix p s : isPrefix p s = true -> isInfix p s = true.
Proof. destruct s; simpl; intros ->; reflexivity. Qed.

Lemma skipn_length_le {A : Type} k (p : list A) : (List.length (skipn k p) <= List.length p)%nat.
Proof. rewrite List.length_skipn. lia. Qed.

(** No occurrence of a borderless text [p] starts inside [x] in
    [x ++ p ++ t] when [p] does not occur in [x]. *)
Lemma borderless_first p x t :
  borderless p = true -> isInfix p x = false ->
  forall a b, x = a ++ b -> b <> [] -> isPrefix p (b ++ p ++ t) = false.
Proof.
  intros B H a b -> Hb.
  apply isInfix_suffix, isInfix_head in H.
  destruct (Nat.le_gt_cases (List.length p) (List.length b)) as [L|L].
  - now rewrite isPrefix_app_long.
  - destruct (isPrefix p (b ++ p ++ t)) eqn:E; [|reflexivity]. exfalso.
    apply isPrefix_app_short in E; [|lia].
    apply isPrefix_trunc in E; [|apply skipn_length_le].
    unfold borderless in B. rewrite forallb_forall in B.
    specialize (B (List.length b)). rewrite E in B.
    assert (I : In (List.length b) (seq 1 (List.length p - 1))).
    { apply in_seq. destruct b; [contradiction | simpl; simpl in L; lia]. }
    specialize (B I). discriminate.
Qed.

Lemma lit_ci_prefix l r :
  forall prev s m,
    matchHere (map (fun a => Chr (chr_ci a)) l ++ r) prev s = Some m ->
    isPrefix (map lower l) (map lower s) = true.
Proof.
  induction l as [|a l IH]; intros prev s m H; [reflexivity|].
  simpl app in H. rewrite matchHere_Chr in H.
  destruct s as [|c s]; [discriminate|].
  destruct (chr_ci a c) eqn:E; [|discriminate].
  simpl. unfold chr_ci in E. apply Ascii.eqb_eq in E. rewrite E, Ascii.eqb_refl. simpl.
  eapply IH, H.
Qed.

Lemma lit_ci_self l r :
  forall prev s,
    matchHere (map (fun a => Chr (chr_ci a)) l ++ r) prev (l ++ s)
    = matchHere r (List.last (map Some l) prev) s.
Proof.
  induction l as [|a l IH]; intros prev s; [reflexivity|].
  simpl app. rewrite matchHere_Chr. unfold chr_ci at 1. rewrite Ascii.eqb_refl.
  rewrite IH. simpl map. now rewrite last_cons.
Qed.

Lemma lit_ci_app a b : lit_ci (a +:+ b) = lit_ci a ++ lit_ci b.
Proof. unfold lit_ci. now rewrite s2l_append, map_app. Qed.

Lemma exec_cons r prev c s :
  exec r prev (c :: s)
  = match matchHere r prev (c :: s) with
    | Some m => Some ([], c :: s, m)
    | None =>
        match exec r (Some c) s with
        | Some (b, s0, m) => Some (c :: b, s0, m)
        | None => None
        end
    end.
Proof. reflexivity. Qed.

(** A search skips a part of the subject in which no match starts. *)
Lemma exec_skip r x rest :
  (forall a b, x = a ++ b -> b <> [] -> forall prev, matchHere r prev (b ++ rest) = None) ->
  forall prev,
    exec r prev (x ++ rest)
    = match exec r (List.last (map Some x) prev) rest with
      | Some (b0, s0, m) => Some (x ++ b0, s0, m)
      | None => None
      end.
Proof.
  induction x as [|c x IH]; intros H prev.
  - simpl. now destruct (exec r prev rest) as [[[b0 s0] m]|].
  - replace (List.last (map Some (c :: x)) prev) with (List.last (map Some x) (Some c))
      by (simpl map; now rewrite last_cons).
    change ((c :: x) ++ rest) with (c :: x ++ rest).
    rewrite exec_cons. change (c :: x ++ rest) with ((c :: x) ++ rest).
    rewrite (H [] (c :: x) eq_refl) by discriminate.
    rewrite IH.
    + now destruct (exec r _ rest) as [[[b0 s0] m]|].
    + intros a b -> Hb p. apply (H (c :: a) b); [reflexivity | exact Hb].
Qed.

Lemma backtick_ci c : chr_ci "`" c = Ascii.eqb "`" c.
Proof. destruct c as [[] [] [] [] [] [] [] []]; reflexivity. Qed.

Lemma matchHere_fence r prev s :
  matchHere (lit_ci fence ++ r) prev s
  = if isPrefix (s2l fence) s then matchHere r (Some "`"%char) (skipn 3 s) else None.
Proof.
  change (lit_ci fence) with [Chr (chr_ci "`"); Chr (chr_ci "`"); Chr (chr_ci "`")].
  change (s2l fence) with ["`"%char; "`"%char; "`"%char].
  simpl app. rewrite matchHere_Chr.
  destruct s as [|c1 s]; [reflexivity|]. rewrite backtick_ci.
  cbn [isPrefix]. destruct (Ascii.eqb "`" c1) eqn:E1; [|reflexivity].
  rewrite matchHere_Chr.
  destruct s as [|c2 s]; [reflexivity|]. rewrite backtick_ci.
  cbn [isPrefix]. destruct (Ascii.eqb "`" c2) eqn:E2; [|reflexivity].
  rewrite matchHere_Chr.
  destruct s as [|c3 s]; [reflexivity|]. rewrite backtick_ci.
  cbn [isPrefix]. destruct (Ascii.eqb "`" c3) eqn:E3; [|reflexivity].
  apply Ascii.eqb_eq in E3. subst c3. simpl. now destruct s.
Qed.

Lemma fence_ahead c b post :
  isPrefix (s2l fence) (c :: b ++ s2l fence ++ post)
  = isPrefix (s2l fence) (c :: b ++ s2l "``").
Proof.
  change (s2l fence) with ["`"%char; "`"%char; "`"%char].
  change (s2l "``") with ["`"%char; "`"%char].
  destruct b as [|d [|e b]]; cbn [isPrefix app]; rewrite ?Ascii.eqb_refl, ?andb_true_r;
    reflexivity.
Qed.

Lemma matchHere_fence_end prev s :
  matchHere (lit_ci fence) prev s
  = if isPrefix (s2l fence) s then Some [skipn 3 s] else None.
Proof. rewrite <- (app_nil_r (lit_ci fence)). apply matchHere_fence. Qed.

(** The lazy group of a fenced block ends at the first closing fence. *)
Lemma lazy_until_fence post :
  forall body prev,
    isInfix (s2l fence) (body ++ s2l "``") = false ->
    matchHere (Lazy any :: Mark :: lit_ci fence) prev (body ++ s2l fence ++ post)
    = Some [s2l fence ++ post; post].
Proof.
  induction body as [|c body IH]; intros prev H; rewrite matchHere_Lazy, matchHere_Mark,
    matchHere_fence_end.
  - reflexivity.
  - change ((c :: body) ++ s2l fence ++ post) with (c :: body ++ s2l fence ++ post).
    rewrite fence_ahead.
    change ((c :: body) ++ s2l "``") with (c :: body ++ s2l "``") in H.
    rewrite isInfix_cons in H. apply orb_false_iff in H as [H1 H2].
    rewrite H1. unfold any at 1. now apply IH.
Qed.

Lemma exec_match r prev s m : matchHere r prev s = Some m -> exec r prev s = Some ([], s, m).
Proof. intros H. destruct s; simpl; now rewrite H. Qed.

Lemma isPrefix_In p : forall s, isPrefix p s = true -> forall c, In c p -> In c s.
Proof.
  induction p as [|a p IH]; intros s H c Hc; [destruct Hc|].
  destruct s as [|b s]; [discriminate|].
  simpl in H. apply andb_true_iff in H as [H1 H2]. apply Ascii.eqb_eq in H1. subst b.
  destruct Hc as [<-|Hc]; [now left | right; now apply (IH s)].
Qed.

Lemma isPrefix_app_self p t : isPrefix p (p ++ t) = true.
Proof. induction p as [|a p IH]; [reflexivity|]. simpl. now rewrite Ascii.eqb_refl. Qed.

Lemma name_not_stories componentName :
  isComponentName componentName = true -> endsWith componentName ".stories" = false.
Proof.
  intros H. unfold endsWith. destruct (isPrefix _ _) eqn:E; [|reflexivity]. exfalso.
  assert (I : In "."%char (rev (s2l componentName))).
  { apply (isPrefix_In _ _ E). apply in_rev. rewrite rev_involutive. simpl. tauto. }
  apply in_rev in I. unfold isComponentName in H. rewrite forallb_forall in H.
  specialize (H _ I). discriminate.
Qed.

Lemma stories_ends componentName : endsWith (componentName +:+ ".stories") ".stories" = true.
Proof.
  unfold endsWith. rewrite s2l_append, rev_app_distr. apply isPrefix_app_self.
Qed.

(** The primary pattern finds the first block with the language tag. *)
Lemma fenced_block_found (pre body post : text) (language : string) :
  In language languages ->
  isInfix (s2l (fence +:+ language)) (map lower pre) = false ->
  isInfix (s2l fence) (body ++ s2l "``") = false ->
  exists b0 s0 m,
    exec (codeBlockRegex language) None (pre ++ s2l (fence +:+ language) ++ body ++ s2l fence ++ post)
    = Some (b0, s0, m)
    /\ group m 1 = body.
Proof.
  intros L H1 H2.
  set (opening := s2l (fence +:+ language)) in *.
  assert (O : map lower opening = opening /\ borderless opening = true).
  { unfold opening. destruct L as [<-|[<-|[<-|[]]]]; split; vm_compute; reflexivity. }
  destruct O as [O1 O2].
  assert (R : codeBlockRegex language
              = map (fun a => Chr (chr_ci a)) opening ++ (Mark :: Lazy any :: Mark :: lit_ci fence)).
  { unfold codeBlockRegex, opening. rewrite app_assoc, <- lit_ci_app. reflexivity. }
  rewrite R.
  set (rest := body ++ s2l fence ++ post).
  rewrite exec_skip.
  - rewrite (exec_match _ _ _ [rest; s2l fence ++ post; post]).
    + do 3 eexists. split; [reflexivity|].
      unfold group. simpl. unfold rest. apply between_rests_app.
    + rewrite lit_ci_self, matchHere_Mark. unfold rest.
      now rewrite lazy_until_fence.
  - intros a b -> Hb prev.
    destruct (matchHere _ prev _) eqn:E; [|reflexivity]. exfalso.
    apply lit_ci_prefix in E. rewrite !map_app, O1 in E.
    rewrite (borderless_first opening (map lower (a ++ b)) _ O2 H1 (map lower a) (map lower b)) in E.
    + discriminate.
    + apply map_app.
    + destruct b; [contradiction | discriminate].
Qed.

(** X12: when the response holds a fenced block tagged with the language,
    the first such tag follows [pre] and [body] runs up to the next fence,
    extraction returns the trimmed body, with [styleUrl] repaired in the
    structural artifact, under the file name of the component; asked for
    the story of the component it returns the same block. *)
Theorem fenced_block_is_extracted (pre body post language componentName : string) :
  In language languages ->
  isComponentName componentName = true ->
  includes (toLowerCase pre) (fence +:+ language) = false ->
  includes (body +:+ "``") fence = false ->
  let response := pre +:+ fence +:+ language +:+ body +:+ fence +:+ post in
  let text := trim body in
  let content := if String.eqb language "typescript" then fixAngularSyntax text else text in
  extractCodeBlock response language componentName
  = Ok (mkFile (toLowerCase componentName +:+ ".component." +:+ getFileExtension language)
               content language (String.length content))
  /\ extractCodeBlock response language (componentName +:+ ".stories")
     = Ok (mkFile (toLowerCase (componentName +:+ ".stories") +:+ ".ts")
                  text language (String.length text)).
Proof.
  intros L N H1 H2. cbv zeta.
  destruct (fenced_block_found (s2l pre) (s2l body) (s2l post) language L) as (b0 & s0 & m & E & G).
  { unfold includes, toLowerCase in H1. now rewrite s2l_l2s in H1. }
  { unfold includes in H2. now rewrite s2l_append in H2. }
  assert (S : s2l (pre +:+ fence +:+ language +:+ body +:+ fence +:+ post)
              = s2l pre ++ s2l (fence +:+ language) ++ s2l body ++ s2l fence ++ s2l post).
  { rewrite !s2l_append. now rewrite <- !app_assoc. }
  unfold extractCodeBlock. rewrite S, E, G, l2s_s2l.
  rewrite (name_not_stories _ N), stories_ends.
  split; [|now rewrite andb_false_r].
  now rewrite andb_true_r.
Qed.

Lemma fenced_block_is_extracted_witness :
  extractCodeBlock ("Markup:" +:+ fence +:+ "html" +:+ " <p>Hello there</p> " +:+ fence +:+ "")
                   "html" "Card"
  = Ok (mkFile "card.component.html" "<p>Hello there</p>" "html" 18).
Proof.
  destruct (fenced_block_is_extracted "Markup:" " <p>Hello there</p> " "" "html" "Card")
    as [A _].
  - right. left. reflexivity.
  - reflexivity.
  - reflexivity.
  - reflexivity.
  - exact A.
Defined.

Lemma matchHere_Opt p r prev s :
  matchHere (Opt p :: r) prev s
  = match s with
    | c :: s' =>
        if p c then
          match matchHere r (Some c) s' with
          | Some m => Some m
          | None => matchHere r prev s
          end
        else matchHere r prev s
    | [] => matchHere r prev s
    end.
Proof. reflexivity. Qed.

(** A match of a pattern holds a match of each of its tails. *)
Lemma matchHere_tail r1 r2 :
  forall prev s m,
    matchHere (r1 ++ r2) prev s = Some m ->
    exists a b prev' m', s = a ++ b /\ matchHere r2 prev' b = Some m'.
Proof.
  induction r1 as [|x r1 IH]; intros prev s m H.
  - exists [], s, prev, m. split; [reflexivity | exact H].
  - change ((x :: r1) ++ r2) with (x :: (r1 ++ r2)) in H.
    destruct x as [p|p|p|p| | |l].
    + rewrite matchHere_Chr in H. destruct s as [|c s]; [discriminate|].
      destruct (p c); [|discriminate].
      destruct (IH _ _ _ H) as (a & b & p' & m' & -> & Hm).
      exists (c :: a), b, p', m'. split; [reflexivity | exact Hm].
    + revert prev H. induction s as [|c s IHs]; intros prev H; rewrite matchHere_Star in H.
      * eapply IH, H.
      * destruct (p c); [|eapply IH, H].
        destruct (matchHere (Star p :: r1 ++ r2) (Some c) s) as [m0|] eqn:E; [|eapply IH, H].
        inversion H; subst m0.
        destruct (IHs _ E) as (a & b & p' & m' & -> & Hm).
        exists (c :: a), b, p', m'. split; [reflexivity | exact Hm].
    + revert prev H. induction s as [|c s IHs]; intros prev H; rewrite matchHere_Lazy in H.
      * destruct (matchHere (r1 ++ r2) prev []) as [m0|] eqn:E; [|discriminate].
        eapply IH, E.
      * destruct (matchHere (r1 ++ r2) prev (c :: s)) as [m0|] eqn:E; [eapply IH, E|].
        destruct (p c); [|discriminate].
        destruct (IHs _ H) as (a & b & p' & m' & -> & Hm).
        exists (c :: a), b, p', m'. split; [reflexivity | exact Hm].
    + rewrite matchHere_Opt in H. destruct s as [|c s]; [eapply IH, H|].
      destruct (p c); [|eapply IH, H].
      destruct (matchHere (r1 ++ r2) (Some c) s) as [m0|] eqn:E; [|eapply IH, H].
      destruct (IH _ _ _ E) as (a & b & p' & m' & -> & Hm).
      exists (c :: a), b, p', m'. split; [reflexivity | exact Hm].
    + rewrite matchHere_Mark in H.
      destruct (matchHere (r1 ++ r2) prev s) as [m0|] eqn:E; [|discriminate].
      eapply IH, E.
    + simpl in H. destruct (atLineStart prev); [|discriminate]. eapply IH, H.
    + simpl in H. destruct (_ || _)%bool; [|discriminate]. eapply IH, H.
Qed.

(** A match of a pattern with a literal part, read up to letter case, has
    that literal in the subject. *)
Lemma matchHere_literal r1 l r2 prev s m :
  matchHere (r1 ++ lit_ci l ++ r2) prev s = Some m ->
  isInfix (map lower (s2l l)) (map lower s) = true.
Proof.
  intros H. apply matchHere_tail in H as (a & b & p' & m' & -> & Hm).
  apply lit_ci_prefix in Hm. rewrite map_app.
  now apply isInfix_app_r, isPrefix_isInfix.
Qed.

Lemma exec_literal r1 l r2 s :
  isInfix (map lower (s2l l)) (map lower s) = false ->
  forall prev, exec (r1 ++ lit_ci l ++ r2) prev s = None.
Proof.
  induction s as [|c s IH]; intros H prev.
  - simpl. destruct (matchHere _ prev []) eqn:E; [|reflexivity].
    apply matchHere_literal in E. congruence.
  - rewrite exec_cons. destruct (matchHere _ prev (c :: s)) eqn:E.
    + apply matchHere_literal in E. congruence.
    + rewrite IH; [reflexivity|].
      simpl map in H. rewrite isInfix_cons in H. now apply orb_false_iff in H as [_ H].
Qed.

Lemma lower_backtick c : Ascii.eqb "`" (lower c) = Ascii.eqb "`" c.
Proof. destruct c as [[] [] [] [] [] [] [] []]; reflexivity. Qed.

Lemma fence_lower s : isInfix (s2l fence) (map lower s) = isInfix (s2l fence) s.
Proof.
  change (s2l fence) with ["`"%char; "`"%char; "`"%char].
  induction s as [|c1 s IH]; [reflexivity|].
  simpl map. rewrite !isInfix_cons, IH. f_equal.
  destruct s as [|c2 [|c3 s]]; cbn [isPrefix map]; rewrite ?lower_backtick; reflexivity.
Qed.

Lemma no_block response language componentName :
  includes response fence = false ->
  includes (toLowerCase response) ".component." = false ->
  extractCodeBlock response language componentName
  = Throw ("No " +:+ language +:+ " code block found").
Proof.
  intros H1 H2. unfold includes in *. unfold toLowerCase in H2. rewrite s2l_l2s in H2.
  assert (F : isInfix (map lower (s2l fence)) (map lower (s2l response)) = false).
  { change (map lower (s2l fence)) with (s2l fence). now rewrite fence_lower. }
  assert (C : isInfix (map lower (s2l ".component.")) (map lower (s2l response)) = false)
    by exact H2.
  assert (K : forall opener,
             exec (commentRegex opener language componentName) None (s2l response) = None).
  { intros opener. unfold commentRegex. rewrite lit_ci_app.
    rewrite <- (app_assoc (lit_ci ".component.")).
    rewrite (app_assoc (nameRegex componentName)), (app_assoc (lit_ci opener)).
    now apply exec_literal. }
  unfold extractCodeBlock.
  replace (exec (codeBlockRegex language) None (s2l response)) with
    (@None (text * text * list text)).
  2:{ symmetry. unfold codeBlockRegex. now apply (exec_literal []). }
  assert (A : exec (lit_ci fence ++ [Mark; Lazy any; Mark] ++ lit_ci fence ++ [Star dot]
                      ++ lit_ci language) None (s2l response) = None)
    by apply (exec_literal [] fence _ _ F).
  unfold altPatterns, firstMatch. now rewrite !K, A.
Qed.

Lemma replaceAll_go_class p f :
  (forall b s0 m, f b s0 m = []) ->
  forall s before prev,
    replaceAll_go [Chr p] f 0 before prev s = List.filter (fun c => negb (p c)) s.
Proof.
  intros Hf. induction s as [|c s IH]; intros before prev.
  - apply replaceAll_go_nil. now rewrite matchHere_Chr.
  - destruct (p c) eqn:E.
    + rewrite (replaceAll_go_match _ _ _ _ _ [s])
        by (now rewrite matchHere_Chr, E, matchHere_nil).
      rewrite Hf. simpl List.filter. rewrite E. simpl negb. cbn iota.
      unfold matched, rest_of. simpl List.last.
      change (c :: s) with ([c] ++ s). rewrite between_rests_app. simpl. apply IH.
    + rewrite replaceAll_go_nomatch by (now rewrite matchHere_Chr, E).
      simpl. rewrite E. simpl. f_equal. apply IH.
Qed.

Lemma filter_name_chars s :
  replaceAll [Chr (fun c => negb (isNameChar c))] (template 0 "") s
  = l2s (List.filter isNameChar (s2l s)).
Proof.
  unfold replaceAll. rewrite replaceAll_go_class by reflexivity. f_equal.
  induction (s2l s) as [|c l IH]; [reflexivity|].
  simpl. rewrite negb_involutive. destruct (isNameChar c); now rewrite IH.
Qed.

Lemma filter_forallb {A : Type} (p : A -> bool) l : forallb p (List.filter p l) = true.
Proof.
  induction l as [|a l IH]; [reflexivity|]. simpl.
  destruct (p a) eqn:E; simpl; rewrite ?E; exact IH.
Qed.

Lemma filter_id {A : Type} (p : A -> bool) l : forallb p l = true -> List.filter p l = l.
Proof.
  induction l as [|a l IH]; [reflexivity|]. simpl. intros H.
  apply andb_true_iff in H as [H1 H2]. now rewrite H1, IH.
Qed.

Lemma digit_or_letter c :
  isNameChar c = true -> between 48 57 c = false ->
  (between 65 90 c || between 97 122 c)%bool = true.
Proof. unfold isNameChar. intros H D. rewrite D in H. exact H. Qed.

Lemma testAtStart_digit s :
  testAtStart [Chr (between 48 57)] s
  = match s2l s with
    | c :: _ => between 48 57 c
    | [] => false
    end.
Proof.
  unfold testAtStart. rewrite matchHere_Chr. destruct (s2l s) as [|c t]; [reflexivity|].
  destruct (between 48 57 c); [now rewrite matchHere_nil | reflexivity].
Qed.

(** The last two steps of [sanitizedScreenName] on a text of letters and
    digits. *)
Lemma screen_name_steps (s : string) :
  forallb isNameChar (s2l s) = true ->
  let s1 := if testAtStart [Chr (between 48 57)] s then "Component" +:+ s else s in
  let n := if String.eqb s1 "" then "GeneratedScreen" else s1 in
  isComponentName n = true
  /\ (exists c t, s2l n = c :: t /\ (between 65 90 c || between 97 122 c)%bool = true)
  /\ testAtStart [Chr (between 48 57)] n = false /\ n <> "".
Proof.
  intros Hs. cbv zeta. rewrite testAtStart_digit.
  destruct s as [|c s].
  - simpl. repeat split; try reflexivity; [|discriminate]. eauto.
  - change (s2l (String c s)) with (c :: s2l s) in *.
    simpl in Hs. apply andb_true_iff in Hs as [Hc Hs'].
    destruct (between 48 57 c) eqn:D.
    + change (String.eqb ("Component" +:+ String c s) "") with false. cbn iota.
      repeat split; try reflexivity; [|eauto|discriminate].
      unfold isComponentName.
      change (s2l ("Component" +:+ String c s)) with (s2l "Component" ++ c :: s2l s).
      rewrite forallb_app. simpl. now rewrite Hc, Hs'.
    + change (String.eqb (String c s) "") with false. cbn iota. repeat split.
      * unfold isComponentName. change (s2l (String c s)) with (c :: s2l s).
        simpl. now rewrite Hc, Hs'.
      * exists c, (s2l s). split; [reflexivity | now apply digit_or_letter].
      * rewrite testAtStart_digit. change (s2l (String c s)) with (c :: s2l s). exact D.
      * discriminate.
Qed.

(** X16: the screen name that the callers pass to the healing pipeline is
    never empty, consists of letters and digits and starts with a letter;
    sanitizing it again changes nothing. *)
Theorem screen_name_is_component_name (screenName : string) :
  let n := sanitizedScreenName screenName in
  isComponentName n = true
  /\ (exists c t, s2l n = c :: t /\ (between 65 90 c || between 97 122 c)%bool = true)
  /\ sanitizedScreenName n = n.
Proof.
  cbv zeta.
  destruct (screen_name_steps (l2s (List.filter isNameChar (s2l screenName)))) as (A & B & C & D).
  { rewrite s2l_l2s. apply filter_forallb. }
  assert (E : sanitizedScreenName screenName
              = let s := l2s (List.filter isNameChar (s2l screenName)) in
                let s1 := if testAtStart [Chr (between 48 57)] s then "Component" +:+ s else s in
                if String.eqb s1 "" then "GeneratedScreen" else s1).
  { unfold sanitizedScreenName. now rewrite filter_name_chars. }
  cbv zeta in E. rewrite <- E in A, B, C, D.
  repeat split; [exact A | exact B |].
  set (n := sanitizedScreenName screenName) in *.
  unfold sanitizedScreenName. rewrite filter_name_chars, filter_id, l2s_s2l by exact A.
  rewrite C. apply String.eqb_neq in D. now rewrite D.
Qed.

Lemma extractCodeBlock_meta response lang componentName f :
  extractCodeBlock response lang componentName = Ok f ->
  size f = String.length (content f) /\ language f = lang
  /\ (endsWith componentName ".stories" = false ->
      fileName f = toLowerCase componentName +:+ ".component." +:+ getFileExtension lang).
Proof.
  unfold extractCodeBlock.
  destruct (match exec _ None (s2l response) with Some x => Some x | None => _ end)
    as [[[b s0] m]|]; [|discriminate].
  intros [= <-]. simpl. repeat split. now intros ->.
Qed.

Lemma exportFile_length d t f : (List.length (exportFile d t f) <= 1)%nat.
Proof. unfold exportFile. destruct f as [x|]; [destruct (String.eqb _ _)|]; simpl; lia. Qed.

Lemma exportFile_content d t f : Forall (fun e => ex_content e <> "") (exportFile d t f).
Proof.
  unfold exportFile. destruct f as [x|]; [|constructor].
  destruct (String.eqb (content x) "") eqn:E; constructor; [|constructor].
  simpl. now apply String.eqb_neq.
Qed.

Lemma exportFile_present d t f :
  missingOrEmpty f = false ->
  exists x, f = Some x /\ exportFile d t f = [mkExport (d +:+ "/" +:+ fileName x) (content x) t].
Proof.
  unfold missingOrEmpty, exportFile. destruct f as [x|]; [|discriminate].
  intros ->. eauto.
Qed.

Lemma summarize_fields t f s :
  Summary.success (summarize t f s) = Summary.success s
  /\ (Forall (fun kv => fs_hasContent (snd kv) = true) (Summary.files s) ->
      missingOrEmpty f = false ->
      Forall (fun kv => fs_hasContent (snd kv) = true) (Summary.files (summarize t f s))).
Proof.
  unfold summarize, missingOrEmpty. destruct f as [x|]; simpl.
  - repeat split.
    intros F E. apply Forall_app. split; [exact F|]. constructor; [|constructor].
    simpl. now rewrite E.
  - repeat split; auto.
Qed.

Section ParseFacts.
Variable FigmaNodeData : Type.
Variable overrideCss : option string -> option FigmaNodeData -> string.

Lemma parse_shape response componentName ii fig :
  (exists files, parseGeminiResponse FigmaNodeData overrideCss response componentName ii fig = validateExtractedFiles files)
  \/ errors (parseGeminiResponse FigmaNodeData overrideCss response componentName ii fig) <> [].
Proof.
  unfold parseGeminiResponse.
  destruct (extractCodeBlock response "typescript" componentName); [|right; discriminate].
  destruct (extractCodeBlock response "html" componentName); [|right; discriminate].
  destruct (extractCodeBlock response "scss" componentName); [|right; discriminate].
  left. unfold healExtracted. eexists. reflexivity.
Qed.

Lemma parse_complete response componentName ii fig :
  errors (parseGeminiResponse FigmaNodeData overrideCss response componentName ii fig) = [] ->
  anyMissingOrEmpty (parseGeminiResponse FigmaNodeData overrideCss response componentName ii fig) = false.
Proof.
  intros H. destruct (parse_shape response componentName ii fig) as [[files E]|N];
    [|contradiction].
  rewrite E in *.
  destruct (validateExtractedFiles_reports files) as [(A1 & A2 & A3 & A4 & _) B].
  unfold anyMissingOrEmpty in *. rewrite A1, A2, A3, A4.
  destruct (_ || _)%bool eqn:M; [|reflexivity]. now destruct (B eq_refl).
Qed.

(** X14: the summary of a parsed bundle reports success exactly when the
    bundle has no error; then all four artifacts were extracted, each has
    content, and all four are exported, in the order structural, markup,
    style, documentation.  No artifact without content is ever exported,
    and never more artifacts than were extracted. *)
Theorem successful_parse_exports_all
  (response componentName : string) (ii : option InferredInputs)
  (fig : option FigmaNodeData) (outputDir : option string) :
  isComponentName componentName = true ->
  let r := parseGeminiResponse FigmaNodeData overrideCss response componentName ii fig in
  let summary := generateParsingSummary r in
  let exported := prepareFilesForExport r outputDir in
  (Summary.success summary = true <-> errors r = [])
  /\ (Summary.success summary = true ->
      Summary.filesExtracted summary = 4%nat
      /\ Forall (fun kv => fs_hasContent (snd kv) = true) (Summary.files summary)
      /\ map ex_type exported = ["typescript"; "html"; "scss"; "story"])
  /\ (List.length exported <= Summary.filesExtracted summary <= 4)%nat
  /\ Forall (fun e => ex_content e <> "") exported.
Proof.
  intros _. cbv zeta.
  set (r := parseGeminiResponse FigmaNodeData overrideCss response componentName ii fig).
  assert (S : Summary.success (generateParsingSummary r) = true <-> errors r = []).
  { unfold generateParsingSummary. rewrite !(proj1 (summarize_fields _ _ _)). simpl.
    rewrite Nat.eqb_eq. destruct (errors r); simpl; split; congruence. }
  split; [exact S|]. split; [|split].
  - intros H. apply S in H. apply parse_complete in H. fold r in H.
    unfold anyMissingOrEmpty in H. rewrite !orb_false_iff in H.
    destruct H as [[[M1 M2] M3] M4].
    unfold generateParsingSummary, prepareFilesForExport.
    set (d := match outputDir with Some d => d | None => _ end).
    destruct (exportFile_present d "typescript" _ M1) as (x1 & E1 & X1).
    destruct (exportFile_present d "html" _ M2) as (x2 & E2 & X2).
    destruct (exportFile_present d "scss" _ M3) as (x3 & E3 & X3).
    destruct (exportFile_present d "story" _ M4) as (x4 & E4 & X4).
    rewrite X1, X2, X3, X4. split; [|split; [|reflexivity]].
    + rewrite E1, E2, E3, E4. reflexivity.
    + repeat (apply summarize_fields; [|assumption]). constructor.
  - unfold generateParsingSummary, prepareFilesForExport.
    set (d := match outputDir with Some d => d | None => _ end).
    rewrite !List.length_app.
    pose proof (exportFile_length d "typescript" (typescript r)).
    pose proof (exportFile_length d "html" (html r)).
    pose proof (exportFile_length d "scss" (scss r)).
    pose proof (exportFile_length d "story" (story r)).
    unfold summarize, exportFile in *.
    destruct (typescript r) as [x1|], (html r) as [x2|], (scss r) as [x3|], (story r) as [x4|];
      simpl in *;
      repeat match goal with
             | |- context [String.eqb ?a ?b] => destruct (String.eqb a b)
             end; simpl; lia.
  - unfold prepareFilesForExport. repeat (apply Forall_app; split); apply exportFile_content.
Qed.


Lemma fileMeta_setContent f c : fileMeta (Some (setContent f c)) = fileMeta (Some f).
Proof. reflexivity. Qed.

(** The healing stages change the content of the three extracted
    artifacts only. *)
Lemma healExtracted_meta response componentName ii fig ts h sc :
  let r := healExtracted FigmaNodeData overrideCss response componentName ii fig ts h sc in
  fileMeta (typescript r) = fileMeta (Some ts) /\ fileMeta (html r) = fileMeta (Some h)
  /\ fileMeta (scss r) = fileMeta (Some sc).
Proof.
  cbv zeta. unfold healExtracted.
  match goal with
  | |- context [validateExtractedFiles ?f] =>
      destruct (validateExtractedFiles_reports f) as [(E1 & E2 & E3 & E4 & _) _];
      set (files := f) in *
  end.
  rewrite E1, E2, E3. unfold files. clear files E1 E2 E3 E4. cbn [typescript html scss].
  set (st0 := match extractCodeBlock response "typescript" (componentName +:+ ".stories") with
              | Ok f => Some f
              | Throw _ => None
              end).
  set (ts1 := if String.eqb (content ts) "" then ts
              else setContent ts (fixTemplateUrl (content ts) componentName)).
  assert (A0 : fileMeta (Some ts1) = fileMeta (Some ts)).
  { unfold ts1. now destruct (String.eqb (content ts) ""). }
  set (f1 := sanitizeFrameworkCode (mkFiles (Some ts1) (Some h) (Some sc) st0 [])).
  assert (A1 : fileMeta (typescript f1) = fileMeta (Some ts)
               /\ fileMeta (html f1) = fileMeta (Some h)
               /\ fileMeta (scss f1) = fileMeta (Some sc)).
  { unfold f1, sanitizeFrameworkCode. cbn [typescript html scss].
    rewrite !fileMeta_setContent. auto. }
  set (f2 := visualGatekeeper FigmaNodeData overrideCss f1 fig).
  assert (A2 : fileMeta (typescript f2) = fileMeta (Some ts)
               /\ fileMeta (html f2) = fileMeta (Some h)
               /\ fileMeta (scss f2) = fileMeta (Some sc)).
  { destruct A1 as (a & b & c). unfold f2, visualGatekeeper.
    destruct (scss f1) eqn:E; [|auto]. cbn [typescript html scss].
    now rewrite fileMeta_setContent. }
  set (f3 := normalizeSelectors f2).
  assert (A3 : fileMeta (typescript f3) = fileMeta (Some ts)
               /\ fileMeta (html f3) = fileMeta (Some h)
               /\ fileMeta (scss f3) = fileMeta (Some sc)).
  { destruct A2 as (a & b & c). unfold f3, normalizeSelectors.
    destruct (html f2) eqn:Eh; [|auto].
    destruct (scss f2) eqn:Es; [|rewrite Eh; auto].
    destruct (normalizeSelectors_content _ _) as [[] out]; cbn [typescript html scss];
      rewrite ?Eh, ?Es, ?fileMeta_setContent; auto. }
  set (f4 := match nonEmpty (html f3) with
             | Some _ => healEmptyTags f3 ii
             | None => f3
             end).
  assert (A4 : fileMeta (typescript f4) = fileMeta (Some ts)
               /\ fileMeta (html f4) = fileMeta (Some h)
               /\ fileMeta (scss f4) = fileMeta (Some sc)).
  { destruct A3 as (a & b & c). unfold f4.
    destruct (nonEmpty (html f3)); [|auto]. unfold healEmptyTags.
    destruct (html f3) eqn:Eh; [|rewrite Eh; auto]. cbn [typescript html scss].
    now rewrite fileMeta_setContent. }
  destruct A4 as (a & b & c).
  destruct (typescript f4) eqn:Et; [|rewrite Et; auto].
  destruct (String.eqb (content f) ""); cbn [typescript html scss];
    rewrite ?Et, ?fileMeta_setContent; auto.
Qed.

(** X15: the size recorded for an extracted artifact is the length of its
    content when it was extracted; the healing stages change contents but
    neither the sizes nor the file names, so the sizes of a healed bundle
    are not those of its contents. *)
Theorem sizes_are_those_of_extraction
  (response componentName : string) (ii : option InferredInputs)
  (fig : option FigmaNodeData) (ts h sc : File) :
  isComponentName componentName = true ->
  extractCodeBlock response "typescript" componentName = Ok ts ->
  extractCodeBlock response "html" componentName = Ok h ->
  extractCodeBlock response "scss" componentName = Ok sc ->
  let r := parseGeminiResponse FigmaNodeData overrideCss response componentName ii fig in
  let name := toLowerCase componentName in
  fileMeta (typescript r)
  = Some (name +:+ ".component.ts", "typescript", String.length (content ts))
  /\ fileMeta (html r) = Some (name +:+ ".component.html", "html", String.length (content h))
  /\ fileMeta (scss r) = Some (name +:+ ".component.scss", "scss", String.length (content sc)).
Proof.
  intros N E1 E2 E3. cbv zeta. unfold parseGeminiResponse. rewrite E1, E2, E3.
  destruct (healExtracted_meta response componentName ii fig ts h sc) as (A & B & C).
  rewrite A, B, C. unfold fileMeta. simpl.
  apply name_not_stories in N.
  destruct (extractCodeBlock_meta _ _ _ _ E1) as (S1 & L1 & F1).
  destruct (extractCodeBlock_meta _ _ _ _ E2) as (S2 & L2 & F2).
  destruct (extractCodeBlock_meta _ _ _ _ E3) as (S3 & L3 & F3).
  rewrite S1, S2, S3, L1, L2, L3, (F1 N), (F2 N), (F3 N). auto.
Qed.

(** X13: a response with no fence and with no file-name comment, so the
    empty response, gives no block of any language; the pipeline returns
    the empty bundle with the one error of the structural artifact. *)
Theorem response_without_blocks
  (response componentName : string) (ii : option InferredInputs)
  (fig : option FigmaNodeData) :
  isComponentName componentName = true ->
  includes response fence = false ->
  includes (toLowerCase response) ".component." = false ->
  (forall lang, In lang languages ->
     extractCodeBlock response lang componentName
     = Throw ("No " +:+ lang +:+ " code block found"))
  /\ parseGeminiResponse FigmaNodeData overrideCss response componentName ii fig
     = mkFiles None None None None ["Gatekeeper error: No typescript code block found"].
Proof.
  intros _ H1 H2. split.
  - intros lang _. now apply no_block.
  - unfold parseGeminiResponse. now rewrite (no_block response "typescript" componentName H1 H2).
Qed.

End ParseFacts.

Lemma successful_parse_exports_all_witness :
  let r := parseGeminiResponse unit noOverride cardResponse "Card" labelInputs None in
  Summary.filesExtracted (generateParsingSummary r) = 4%nat
  /\ Forall (fun kv => fs_hasContent (snd kv) = true) (Summary.files (generateParsingSummary r))
  /\ map ex_type (prepareFilesForExport r None) = ["typescript"; "html"; "scss"; "story"].
Proof.
  cbv zeta.
  apply (proj1 (proj2 (successful_parse_exports_all unit noOverride cardResponse "Card"
                         labelInputs None None eq_refl))).
  vm_compute. reflexivity.
Defined.

Lemma sizes_are_those_of_extraction_witness :
  let r := parseGeminiResponse unit noOverride cardResponse "Card" labelInputs None in
  fileMeta (html r) = Some ("card.component.html", "html", 29%nat)
  /\ contentLength (html r) = Some 40%nat.
Proof.
  cbv zeta. split; [|vm_compute; reflexivity].
  refine (proj1 (proj2 (sizes_are_those_of_extraction unit noOverride cardResponse "Card"
                          labelInputs None _
                          (mkFile "card.component.html" "<button class='btn'></button>" "html" 29)
                          _ eq_refl _ _ _))).
  - vm_compute. reflexivity.
  - vm_compute. reflexivity.
  - vm_compute. reflexivity.
Defined.

Lemma response_without_blocks_witness :
  parseGeminiResponse unit noOverride "" "Card" None None
  = mkFiles None None None None ["Gatekeeper error: No typescript code block found"].
Proof.
  apply (response_without_blocks unit noOverride "" "Card" None None); reflexivity.
Defined.



Section BundleFacts.
Variable FigmaNodeData : Type.
Variable overrideCss : option string -> option FigmaNodeData -> string.

(** The stages before the final validation record no error. *)
Lemma healExtracted_validates response componentName ii fig ts h sc :
  exists files,
    healExtracted FigmaNodeData overrideCss response componentName ii fig ts h sc
    = validateExtractedFiles files
    /\ errors files = [].
Proof.
  unfold healExtracted. eexists. split; [reflexivity|].
  cbn [errors].
  set (st0 := match extractCodeBlock response "typescript" (componentName +:+ ".stories") with
              | Ok f => Some f
              | Throw _ => None
              end).
  set (ts1 := if String.eqb (content ts) "" then ts
              else setContent ts (fixTemplateUrl (content ts) componentName)).
  set (f1 := sanitizeFrameworkCode (mkFiles (Some ts1) (Some h) (Some sc) st0 [])).
  assert (A1 : errors f1 = []) by reflexivity.
  set (f2 := visualGatekeeper FigmaNodeData overrideCss f1 fig).
  assert (A2 : errors f2 = []).
  { unfold f2, visualGatekeeper. now destruct (scss f1). }
  set (f3 := normalizeSelectors f2).
  assert (A3 : errors f3 = []).
  { unfold f3, normalizeSelectors. destruct (html f2); [|exact A2].
    destruct (scss f2); [|exact A2].
    now destruct (normalizeSelectors_content _ _) as [[] out]. }
  set (f4 := match nonEmpty (html f3) with
             | Some _ => healEmptyTags f3 ii
             | None => f3
             end).
  assert (A4 : errors f4 = []).
  { unfold f4. destruct (nonEmpty (html f3)); [|exact A3].
    unfold healEmptyTags. now destruct (html f3). }
  destruct (typescript f4); [|exact A4].
  now destruct (String.eqb (content f) "").
Qed.

(** X21: a bundle that the pipeline returns without an error has passed
    every check of the final validation: its four artifacts are present
    with content, the structural artifact has the component decorator, an
    exported class and the core import, and the markup has at least ten
    characters. *)
Theorem error_free_bundle_is_acceptable
  (response componentName : string) (ii : option InferredInputs)
  (fig : option FigmaNodeData) :
  isComponentName componentName = true ->
  errors (parseGeminiResponse FigmaNodeData overrideCss response componentName ii fig) = [] ->
  acceptable (parseGeminiResponse FigmaNodeData overrideCss response componentName ii fig).
Proof.
  intros _. unfold parseGeminiResponse.
  destruct (extractCodeBlock response "typescript" componentName) as [ts|]; [|discriminate].
  destruct (extractCodeBlock response "html" componentName) as [h|]; [|discriminate].
  destruct (extractCodeBlock response "scss" componentName) as [sc|]; [|discriminate].
  destruct (healExtracted_validates response componentName ii fig ts h sc) as (files & -> & E).
  intros H. rewrite <- E in H.
  destruct (validateExtractedFiles_count files) as (k & L1 & L2).
  rewrite H in L1. assert (K : k = 0%nat) by lia. apply L2 in K. clear H. rename K into H.
  destruct (validateExtractedFiles_reports files) as [(A1 & A2 & A3 & A4 & _) _].
  unfold acceptable in *. now rewrite A1, A2, A3, A4.
Qed.

End BundleFacts.

Lemma error_free_bundle_is_acceptable_witness :
  acceptable (parseGeminiResponse unit noOverride cardResponse "Card" labelInputs None).
Proof.
  apply (error_free_bundle_is_acceptable unit noOverride cardResponse "Card" labelInputs None
           eq_refl).
  vm_compute. reflexivity.
Defined.

Lemma FigmaNode_tree_ind (P : FigmaNode -> Prop) :
  (forall n, (forall cs, fg_children n = Some cs -> Forall P cs) -> P n) ->
  forall n, P n.
Proof.
  intros H. fix IH 1. intros n. apply H.
  destruct n as [t f cs]; simpl.
  destruct cs as [l|]; [|intros ? [=]].
  assert (HF : Forall P l).
  { clear -IH. induction l as [|c l IHl]; constructor; [apply IH | exact IHl]. }
  intros l' [= <-]. exact HF.
Qed.

Lemma find_app {A : Type} (p : A -> bool) l l' :
  find p (l ++ l') = match find p l with Some x => Some x | None => find p l' end.
Proof. induction l as [|a l IH]; [reflexivity|]. simpl. now destruct (p a). Qed.

Lemma findTextNode_eq node :
  findTextNode node
  = if isTextNode node then Some node
    else match fg_children node with
         | Some cs => firstFound findTextNode cs
         | None => None
         end.
Proof.
  destruct node as [t f [l|]]; [|reflexivity].
  unfold isTextNode. cbn [findTextNode fg_type fg_children].
  destruct (String.eqb t "TEXT"); [reflexivity|].
  induction l as [|c l IHl]; [reflexivity|].
  cbn [firstFound]. rewrite <- IHl. reflexivity.
Qed.

Lemma findFillNode_eq node :
  findFillNode node
  = match ownFill node with
    | Some validFill => Some (node, validFill)
    | None =>
        match fg_children node with
        | Some cs => firstFound findFillNode cs
        | None => None
        end
    end.
Proof.
  destruct node as [t f [l|]]; [|reflexivity].
  unfold ownFill. cbn [findFillNode fg_fills fg_children].
  destruct (match f with Some fills => find isValidFill fills | None => None end);
    [reflexivity|].
  induction l as [|c l IHl]; [reflexivity|].
  cbn [firstFound]. rewrite <- IHl. reflexivity.
Qed.

Lemma figmaNodes_eq node :
  figmaNodes node
  = node :: match fg_children node with
            | Some cs => flat_map figmaNodes cs
            | None => []
            end.
Proof. destruct node as [t f [l|]]; reflexivity. Qed.

(** X17: the searches of the visual gatekeeper are depth-first: the text
    node found is the first node of type TEXT in pre-order, and the colour
    source found is the first node in pre-order with a visible solid paint
    that has a colour, with the first such paint of that node; nothing is
    found exactly when the tree has no such node. *)
Theorem searches_find_first_in_preorder (node : FigmaNode) :
  findTextNode node = find isTextNode (figmaNodes node)
  /\ findFillNode node
     = match find hasOwnFill (figmaNodes node) with
       | Some n => option_map (pair n) (ownFill n)
       | None => None
       end.
Proof.
  induction node as [node IH] using FigmaNode_tree_ind.
  rewrite findTextNode_eq, findFillNode_eq, figmaNodes_eq.
  cbn [find]. unfold hasOwnFill at 1.
  destruct (fg_children node) as [l|].
  - specialize (IH l eq_refl).
    assert (T : firstFound findTextNode l = find isTextNode (flat_map figmaNodes l)).
    { clear -IH. induction IH as [|c l [Hc _] _ IHl]; [reflexivity|].
      simpl flat_map. rewrite find_app, <- Hc, <- IHl. reflexivity. }
    assert (F : firstFound findFillNode l
                = match find hasOwnFill (flat_map figmaNodes l) with
                  | Some n => option_map (pair n) (ownFill n)
                  | None => None
                  end).
    { clear -IH. induction IH as [|c l [_ Hc] _ IHl]; [reflexivity|].
      simpl flat_map. rewrite find_app. simpl firstFound. rewrite Hc, IHl.
      destruct (find hasOwnFill (figmaNodes c)) as [x|] eqn:E; [|reflexivity].
      apply find_some in E as [_ E]. unfold hasOwnFill in E.
      destruct (ownFill x); [reflexivity | discriminate]. }
    rewrite T, F. split; [reflexivity|].
    destruct (ownFill node) eqn:E; simpl; rewrite ?E; reflexivity.
  - split; [reflexivity|].
    destruct (ownFill node) eqn:E; simpl; rewrite ?E; reflexivity.
Qed.

Lemma byteHex_all : forallb byteHexOk (map Z.of_nat (seq 0 256)) = true.
Proof. vm_compute. reflexivity. Qed.

Lemma byteHex_ok n :
  0 <= n <= 255 ->
  String.length (byteHex n) = 2%nat /\ hexValue (toUpperCase (byteHex n)) = Some n.
Proof.
  intros H. pose proof byteHex_all as A. rewrite forallb_forall in A.
  specialize (A n).
  assert (I : In n (map Z.of_nat (seq 0 256))).
  { apply in_map_iff. exists (Z.to_nat n). split; [lia|]. apply in_seq. lia. }
  specialize (A I). unfold byteHexOk in A. apply andb_true_iff in A as [A1 A2].
  apply Nat.eqb_eq in A1. split; [exact A1|].
  destruct (hexValue _) as [v|]; [|discriminate]. apply Z.eqb_eq in A2. now subst.
Qed.

Lemma toUpperCase_append a b : toUpperCase (a +:+ b) = toUpperCase a +:+ toUpperCase b.
Proof.
  unfold toUpperCase. rewrite s2l_append, map_app.
  rewrite <- (l2s_s2l (l2s (map upper (s2l a)) +:+ l2s (map upper (s2l b)))).
  now rewrite s2l_append, !s2l_l2s.
Qed.

Lemma toHex_byte c n : Math_round (c * 255) = IntFinite n -> toHex c = byteHex n.
Proof. unfold toHex, byteHex. now intros ->. Qed.

(** X18: when each channel, scaled by 255, rounds to an integer from 0 to
    255, [rgbToHex] returns the number sign and, for each channel in the
    order red, green, blue, two hexadecimal digits, in capitals, whose
    value is that integer. *)
Theorem rgbToHex_encodes_bytes (r g b : float) (nr ng nb : Z) :
  Math_round (r * 255) = IntFinite nr -> 0 <= nr <= 255 ->
  Math_round (g * 255) = IntFinite ng -> 0 <= ng <= 255 ->
  Math_round (b * 255) = IntFinite nb -> 0 <= nb <= 255 ->
  exists hr hg hb,
    rgbToHex r g b = "#" +:+ hr +:+ hg +:+ hb
    /\ String.length hr = 2%nat /\ String.length hg = 2%nat /\ String.length hb = 2%nat
    /\ hexValue hr = Some nr /\ hexValue hg = Some ng /\ hexValue hb = Some nb
    /\ toUpperCase (rgbToHex r g b) = rgbToHex r g b.
Proof.
  intros Er Hr Eg Hg Eb Hb.
  unfold rgbToHex. rewrite (toHex_byte r nr Er), (toHex_byte g ng Eg), (toHex_byte b nb Eb).
  rewrite !toUpperCase_append.
  destruct (byteHex_ok nr Hr) as [L1 V1].
  destruct (byteHex_ok ng Hg) as [L2 V2].
  destruct (byteHex_ok nb Hb) as [L3 V3].
  assert (U : forall s, String.length (toUpperCase s) = String.length s).
  { intros s. unfold toUpperCase.
    rewrite <- (l2s_s2l s) at 2.
    generalize (s2l s). intros l. induction l as [|c l IH]; [reflexivity|].
    simpl. now rewrite IH. }
  assert (UU : forall s, toUpperCase (toUpperCase s) = toUpperCase s).
  { intros s. unfold toUpperCase. rewrite s2l_l2s, map_map. f_equal.
    apply map_ext. intros c. destruct c as [[] [] [] [] [] [] [] []]; reflexivity. }
  exists (toUpperCase (byteHex nr)), (toUpperCase (byteHex ng)), (toUpperCase (byteHex nb)).
  rewrite !U, ?toUpperCase_append, !UU. repeat split; auto.
Qed.

Lemma rgbToHex_encodes_bytes_witness :
  exists hr hg hb,
    rgbToHex 0.5 0.25 1 = "#" +:+ hr +:+ hg +:+ hb
    /\ String.length hr = 2%nat /\ String.length hg = 2%nat /\ String.length hb = 2%nat
    /\ hexValue hr = Some 128 /\ hexValue hg = Some 64 /\ hexValue hb = Some 255
    /\ toUpperCase (rgbToHex 0.5 0.25 1) = rgbToHex 0.5 0.25 1.
Proof.
  apply (rgbToHex_encodes_bytes 0.5 0.25 1 128 64 255).
  - vm_compute. reflexivity.
  - lia.
  - vm_compute. reflexivity.
  - lia.
  - vm_compute. reflexivity.
  - lia.
Defined.

Lemma FrameNode_tree_ind (P : FrameNode -> Prop) :
  (forall n, (forall cs, n_children n = Some cs -> Forall P cs) -> P n) ->
  forall n, P n.
Proof.
  intros H. fix IH 1. intros n. apply H.
  destruct n as [i nm ps cs]; simpl.
  destruct cs as [l|]; [|intros ? [=]].
  assert (HF : Forall P l).
  { clear -IH. induction l as [|c l IHl]; constructor; [apply IH | exact IHl]. }
  intros l' [= <-]. exact HF.
Qed.

Lemma propResults_no_error node r : existsb isError (propResults node r) = false.
Proof.
  unfold propResults. destruct (n_props node) as [ps|]; [|reflexivity].
  destruct (props r) as [rp|]; [|reflexivity].
  induction ps as [|p ps IH]; [reflexivity|].
  simpl. rewrite existsb_app, IH. now destruct (rp !! p).
Qed.

Lemma nestingResults_error reg node lookup parent :
  existsb isError (nestingResults reg node lookup parent) = forbidden reg parent lookup.
Proof.
  unfold nestingResults, forbidden.
  destruct parent as [p|]; [|reflexivity].
  destruct (components reg !! _) as [pr|]; [|reflexivity].
  destruct (composition pr) as [comp|]; [|reflexivity].
  rewrite existsb_app.
  assert (W : existsb isError
                (match canContain comp with
                 | Some can =>
                     if (negb (Nat.eqb (List.length can) 0) && negb (str_in "*" can)
                         && negb (str_in lookup can))%bool then
                       [mkResult (n_id node) WARNING
                          ("STRICT NESTING: " +:+ dq +:+ n_name p +:+ dq
                             +:+ " usually only contains [" +:+ join ", " can +:+ "]. "
                             +:+ dq +:+ n_name node +:+ dq +:+ " found.")]
                     else []
                 | None => []
                 end) = false).
  { destruct (canContain comp) as [can|]; [|reflexivity]. now destruct (_ && _)%bool. }
  rewrite W, orb_false_r.
  destruct (cannotContain comp) as [cannot|]; [|reflexivity].
  now destruct (_ || _)%bool.
Qed.

Lemma validateNode_eq reg node parent :
  validateNode reg node parent
  = let lookupName := replaceString (n_name node) "app-" "" in
    match components reg !! lookupName with
    | None =>
        [mkResult (n_id node) ERROR
           ("Component " +:+ dq +:+ n_name node +:+ dq
              +:+ " does not exist in the Design System registry.")]
    | Some componentRules =>
        let results :=
          nestingResults reg node lookupName parent ++ propResults node componentRules in
        let results :=
          match results with
          | [] =>
              [mkResult (n_id node) SUCCESS
                 (dq +:+ n_name node +:+ dq +:+ " (ID: " +:+ n_id node +:+ ") is valid.")]
          | _ => results
          end in
        results ++
        match n_children node with
        | Some cs => flat_map (fun child => validateNode reg child (Some node)) cs
        | None => []
        end
    end.
Proof. destruct node as [i nm ps [l|]]; reflexivity. Qed.

Lemma legal_eq reg node parent :
  legal reg node parent
  = let lookupName := replaceString (n_name node) "app-" "" in
    match components reg !! lookupName with
    | None => false
    | Some _ =>
        (negb (forbidden reg parent lookupName)
         && match n_children node with
            | Some cs => forallb (fun child => legal reg child (Some node)) cs
            | None => true
            end)%bool
    end.
Proof. destruct node as [i nm ps [l|]]; reflexivity. Qed.

Lemma validateNode_errors reg node :
  forall parent, existsb isError (validateNode reg node parent) = negb (legal reg node parent).
Proof.
  induction node as [node IH] using FrameNode_tree_ind.
  intros parent. rewrite validateNode_eq, legal_eq. cbv zeta.
  destruct (components reg !! _) as [r|]; [|reflexivity].
  rewrite existsb_app.
  set (own := nestingResults reg node _ parent ++ propResults node r).
  assert (O : existsb isError (match own with
                               | [] =>
                                   [mkResult (n_id node) SUCCESS
                                      (dq +:+ n_name node +:+ dq +:+ " (ID: " +:+ n_id node
                                          +:+ ") is valid.")]
                               | _ => own
                               end)
              = forbidden reg parent (replaceString (n_name node) "app-" "")).
  { transitivity (existsb isError own).
    - now destruct own.
    - unfold own. now rewrite existsb_app, propResults_no_error, nestingResults_error, orb_false_r. }
  rewrite O, negb_andb, negb_involutive. f_equal.
  destruct (n_children node) as [l|]; [|reflexivity].
  specialize (IH l eq_refl).
  induction IH as [|c l Hc _ IHl]; [reflexivity|].
  simpl. now rewrite existsb_app, Hc, IHl, negb_andb.
Qed.

(** X19: the frame validator fails a frame exactly when it reaches a node
    that is not registered or that the [cannotContain] list of its parent's
    rule forbids; a node outside the allow-list of its parent and an
    unknown property give warnings, which never fail a frame. *)
Theorem frame_passes_iff_legal (registry : Registry) (nodes : list FrameNode) :
  ownFrameLookups nodes = true ->
  fst (validateFrame registry nodes) = forallb (fun node => legal registry node None) nodes.
Proof.
  intros _. unfold validateFrame. simpl.
  induction nodes as [|n l IH]; [reflexivity|].
  simpl. rewrite existsb_app, negb_orb, IH, validateNode_errors, negb_involutive. reflexivity.
Qed.

Lemma frame_passes_iff_legal_witness :
  fst (validateFrame exampleRegistry warnedFrame) = true
  /\ map r_status (snd (validateFrame exampleRegistry warnedFrame)) = [SUCCESS; WARNING].
Proof.
  split; [|vm_compute; reflexivity].
  rewrite (frame_passes_iff_legal exampleRegistry warnedFrame); vm_compute; reflexivity.
Defined.

Lemma penalty_app l l' : penalty (l ++ l') = penalty l + penalty l'.
Proof. induction l as [|v l IH]; simpl; [reflexivity | rewrite IH; lia]. Qed.

Lemma penalty_nonneg l : 0 <= penalty l.
Proof. induction l as [|v l IH]; simpl; [lia | destruct (severity v); simpl; lia]. Qed.

Lemma continues_refl this : continues this this.
Proof.
  unfold continues. repeat split; auto.
  - exists []. rewrite app_nil_r. simpl. split; [reflexivity | lia].
  - exists []. now rewrite app_nil_r.
Qed.

Lemma continues_add this n m s r g t :
  continues this t -> continues this (_addViolation n m s r g t).
Proof.
  intros (R & (vs & V & S) & (cs & C) & H). unfold continues, _addViolation. simpl.
  repeat split; auto.
  - exists (vs ++ [mkViolation n m s r g]). rewrite V, S, penalty_app, app_assoc.
    split; [reflexivity|]. simpl. destruct s; simpl; unfold orZero; simpl; lia.
  - exists cs. exact C.
  - intros K. destruct (isCritical s); auto.
Qed.

Lemma continues_push this c t : continues this t -> continues this (pushScanned c t).
Proof.
  intros (R & V & (cs & C) & H). unfold continues, pushScanned. simpl.
  repeat split; auto. exists (cs ++ [c]). now rewrite C, app_assoc.
Qed.

(** X22: a traversal only accumulates: it keeps the registry, appends to
    the violations and to the scanned components, lowers the score by
    exactly the weights of the violations it appends, so never raises it,
    and never clears the critical flag. *)
Theorem traversal_only_accumulates
  (node : DesignNode) (parentNode : option DesignNode) (this : GovernanceEngine) :
  continues this (_recursiveCheck node parentNode this)
  /\ globalScore (_recursiveCheck node parentNode this) <= globalScore this.
Proof.
  assert (C : continues this (_recursiveCheck node parentNode this)).
  { apply (_recursiveCheck_preserves (continues this)).
    - intros. now apply continues_add.
    - intros. now apply continues_push.
    - apply continues_refl. }
  split; [exact C|].
  destruct C as (_ & (vs & _ & S) & _). pose proof (penalty_nonneg vs). lia.
Qed.

Lemma noBol_lit l : noBol (lit l).
Proof.
  unfold noBol, lit. apply List.Forall_forall. intros a H.
  apply in_map_iff in H as (c & <- & _). exact I.
Qed.

Lemma matchHere_lit l :
  forall prev s,
    matchHere (map (fun a => Chr (chr a)) l) prev s
    = if isPrefix l s then Some [skipn (List.length l) s] else None.
Proof.
  induction l as [|a l IH]; intros prev s; [reflexivity|].
  simpl map. rewrite matchHere_Chr. destruct s as [|c s]; [reflexivity|].
  unfold chr at 1. simpl isPrefix. rewrite (Ascii.eqb_sym a c).
  destruct (Ascii.eqb c a); [apply IH | reflexivity].
Qed.

Lemma isPrefix_split l : forall s, isPrefix l s = true -> s = l ++ skipn (List.length l) s.
Proof.
  induction l as [|a l IH]; intros s H; [reflexivity|].
  destruct s as [|c s]; [discriminate|].
  simpl in H. apply andb_true_iff in H as [H1 H2]. apply Ascii.eqb_eq in H1. subst c.
  simpl. f_equal. now apply IH.
Qed.

(** A global replacement of a literal by a fixed text does not depend on
    what precedes the subject. *)
Lemma replaceAll_go_lit l rep f :
  l <> [] -> (forall b s0 m, f b s0 m = rep) ->
  forall n s, (List.length s <= n)%nat ->
  forall b p b' p',
    replaceAll_go (map (fun a => Chr (chr a)) l) f 0 b p s
    = replaceAll_go (map (fun a => Chr (chr a)) l) f 0 b' p' s
    /\ (isPrefix l s = true ->
        replaceAll_go (map (fun a => Chr (chr a)) l) f 0 b p s
        = rep ++ replaceAll_go (map (fun a => Chr (chr a)) l) f 0 b' p'
                               (skipn (List.length l) s))
    /\ (isPrefix l s = false ->
        replaceAll_go (map (fun a => Chr (chr a)) l) f 0 b p s
        = match s with
          | [] => []
          | c :: s' => c :: replaceAll_go (map (fun a => Chr (chr a)) l) f 0 b' p' s'
          end).
Proof.
  intros Hl Hf. induction n as [|n IH]; intros s Hn b p b' p'.
  - destruct s; [|simpl in Hn; lia].
    assert (E : isPrefix l [] = false) by (destruct l; [contradiction | reflexivity]).
    rewrite !replaceAll_go_nil by (now rewrite matchHere_lit, E).
    rewrite E. repeat split; auto; discriminate.
  - destruct (isPrefix l s) eqn:E.
    + assert (M : forall b p,
                 replaceAll_go (map (fun a => Chr (chr a)) l) f 0 b p s
                 = rep ++ replaceAll_go (map (fun a => Chr (chr a)) l) f 0 b' p'
                                        (skipn (List.length l) s)).
      { intros b0 p0.
        rewrite (replaceAll_go_match _ _ _ _ _ [skipn (List.length l) s])
          by (now rewrite matchHere_lit, E).
        rewrite Hf. f_equal.
        destruct l as [|a l]; [contradiction|].
        destruct s as [|c s]; [discriminate|].
        pose proof (isPrefix_split (a :: l) (c :: s) E) as Sp.
        simpl in Sp. injection Sp as -> Sp.
        assert (ML : List.length (matched (a :: s) [skipn (List.length (a :: l)) (a :: s)])
                     = S (List.length l)).
        { unfold matched, rest_of. simpl List.last. simpl skipn. rewrite Sp at 1.
          change (a :: l ++ skipn (List.length l) s)
            with ((a :: l) ++ skipn (List.length l) s).
          now rewrite between_rests_app. }
        cbv beta iota. rewrite ML. simpl skipn.
        rewrite Sp at 1. rewrite replaceAll_go_skip.
        apply IH. simpl in Hn. rewrite List.length_skipn. lia. }
      repeat split; [now rewrite !M | intros _; apply M | discriminate].
    + destruct s as [|c s].
      * rewrite !replaceAll_go_nil by (now rewrite matchHere_lit, E).
        repeat split; auto; discriminate.
      * rewrite !replaceAll_go_nomatch by (now rewrite matchHere_lit, E).
        simpl in Hn.
        repeat split; [| discriminate |].
        -- f_equal. apply IH. lia.
        -- intros _. f_equal. apply IH. lia.
Qed.

Section Renaming.
Variable h : text.

Lemma renamed_nil : renamed h [] = [].
Proof. reflexivity. Qed.

Lemma lit_dot_h : lit (l2s ("."%char :: h)) = map (fun a => Chr (chr a)) ("."%char :: h).
Proof. unfold lit. now rewrite s2l_l2s. Qed.

Lemma renamed_match s2 : renamed h (("."%char :: h) ++ s2) = s2l ".btn" ++ renamed h s2.
Proof.
  unfold renamed. rewrite lit_dot_h.
  destruct (replaceAll_go_lit ("."%char :: h) (s2l ".btn") (template 0 ".btn")
              ltac:(discriminate) ltac:(reflexivity) _ (("."%char :: h) ++ s2) (le_n _)
              [] None [] None) as (_ & M & _).
  rewrite M by apply isPrefix_app_self.
  f_equal. f_equal. clear. generalize ("."%char :: h). intros l.
  induction l as [|a l IH]; [reflexivity | exact IH].
Qed.

Lemma renamed_copy c s :
  isPrefix ("."%char :: h) (c :: s) = false -> renamed h (c :: s) = c :: renamed h s.
Proof.
  intros E. unfold renamed. rewrite lit_dot_h.
  destruct (replaceAll_go_lit ("."%char :: h) (s2l ".btn") (template 0 ".btn")
              ltac:(discriminate) ltac:(reflexivity) _ (c :: s) (le_n _)
              [] None [] None) as (_ & _ & M).
  now rewrite M.
Qed.

Lemma renamed_other c s : Ascii.eqb "." c = false -> renamed h (c :: s) = c :: renamed h s.
Proof.
  intros E. apply renamed_copy.
  change (isPrefix ("."%char :: h) (c :: s)) with (Ascii.eqb "." c && isPrefix h s)%bool.
  now rewrite E.
Qed.


End Renaming.

(** The top-level class pattern after the class name ([_brace]: blanks
    and the brace), after the first character of the name ([_name]), and
    as a whole ([_TL]). *)
Lemma accepts_brace_ws p c s :
  isWhiteSpace c = true ->
  accepts [Star isWhiteSpace; Chr (chr "{")] p (c :: s)
  = accepts [Star isWhiteSpace; Chr (chr "{")] (Some c) s.
Proof.
  intros W. unfold accepts. rewrite matchHere_Star, W.
  destruct (matchHere _ (Some c) s); [reflexivity|].
  rewrite matchHere_Chr.
  assert (E : chr "{" c = false).
  { clear -W. destruct c as [[] [] [] [] [] [] [] []]; try reflexivity; discriminate. }
  now rewrite E.
Qed.

Lemma accepts_brace_other p c s :
  isWhiteSpace c = false ->
  accepts [Star isWhiteSpace; Chr (chr "{")] p (c :: s) = chr "{" c.
Proof.
  intros W. unfold accepts. rewrite matchHere_Star, W, matchHere_Chr.
  destruct (chr "{" c); reflexivity.
Qed.

Lemma accepts_brace_nil p : accepts [Star isWhiteSpace; Chr (chr "{")] p [] = false.
Proof. reflexivity. Qed.

Lemma accepts_brace_prev p p' s :
  accepts [Star isWhiteSpace; Chr (chr "{")] p s
  = accepts [Star isWhiteSpace; Chr (chr "{")] p' s.
Proof.
  unfold accepts.
  rewrite (matchHere_prev [Star isWhiteSpace; Chr (chr "{")]) with (p' := p');
    [reflexivity | repeat constructor].
Qed.

Lemma accepts_Mark r p s : accepts (Mark :: r) p s = accepts r p s.
Proof. unfold accepts. rewrite matchHere_Mark. now destruct (matchHere r p s). Qed.

Lemma classChar_facts c :
  classChar c = true ->
  isWhiteSpace c = false /\ chr "{" c = false /\ Ascii.eqb "." c = false
  /\ isLineTerminator c = false.
Proof. destruct c as [[] [] [] [] [] [] [] []]; simpl; auto; discriminate. Qed.

Lemma accepts_name_class p c s :
  classChar c = true ->
  accepts [Star classChar; Mark; Star isWhiteSpace; Chr (chr "{")] p (c :: s)
  = accepts [Star classChar; Mark; Star isWhiteSpace; Chr (chr "{")] (Some c) s.
Proof.
  intros C. unfold accepts. rewrite matchHere_Star, C.
  destruct (matchHere _ (Some c) s); [reflexivity|].
  rewrite matchHere_Mark.
  pose proof (accepts_brace_other p c s (proj1 (classChar_facts c C))) as A.
  unfold accepts in A. rewrite (proj1 (proj2 (classChar_facts c C))) in A.
  now destruct (matchHere [Star isWhiteSpace; Chr (chr "{")] p (c :: s)).
Qed.

Lemma accepts_name_other p c s :
  classChar c = false ->
  accepts [Star classChar; Mark; Star isWhiteSpace; Chr (chr "{")] p (c :: s)
  = accepts [Star isWhiteSpace; Chr (chr "{")] p (c :: s).
Proof.
  intros C. unfold accepts at 1. rewrite matchHere_Star, C.
  fold (accepts (Mark :: [Star isWhiteSpace; Chr (chr "{")]) p (c :: s)).
  apply accepts_Mark.
Qed.

Lemma accepts_name_nil p :
  accepts [Star classChar; Mark; Star isWhiteSpace; Chr (chr "{")] p [] = false.
Proof. reflexivity. Qed.

Lemma accepts_name_prev p p' s :
  accepts [Star classChar; Mark; Star isWhiteSpace; Chr (chr "{")] p s
  = accepts [Star classChar; Mark; Star isWhiteSpace; Chr (chr "{")] p' s.
Proof.
  unfold accepts.
  rewrite (matchHere_prev [Star classChar; Mark; Star isWhiteSpace; Chr (chr "{")])
    with (p' := p'); [reflexivity | repeat constructor].
Qed.

Lemma accepts_name_run p run s :
  Forall (fun c => classChar c = true) run ->
  accepts [Star classChar; Mark; Star isWhiteSpace; Chr (chr "{")] p (run ++ s)
  = accepts [Star classChar; Mark; Star isWhiteSpace; Chr (chr "{")] p s.
Proof.
  intros H. revert p. induction H as [|c run Hc _ IH]; intros p; [reflexivity|].
  simpl app. rewrite accepts_name_class by exact Hc. rewrite IH. apply accepts_name_prev.
Qed.

Lemma accepts_TL p s :
  accepts topLevelClassRegex p s
  = (atLineStart p
     && match s with
        | c :: d :: s' =>
            Ascii.eqb "." c && classChar d
            && accepts [Star classChar; Mark; Star isWhiteSpace; Chr (chr "{")] (Some d) s'
        | _ => false
        end)%bool.
Proof.
  unfold accepts, topLevelClassRegex, plus.
  change ([Bol; Chr (chr "."); Mark] ++ [Chr classChar; Star classChar]
            ++ [Mark; Star isWhiteSpace; Chr (chr "{")])
    with (Bol :: Chr (chr ".") :: Mark :: Chr classChar
              :: [Star classChar; Mark; Star isWhiteSpace; Chr (chr "{")]).
  change (matchHere (Bol :: ?r) p s) with (if atLineStart p then matchHere r p s else None).
  destruct (atLineStart p); [|reflexivity]. cbn [andb].
  rewrite matchHere_Chr.
  destruct s as [|c [|d s]].
  - reflexivity.
  - unfold chr at 1. destruct (Ascii.eqb c "."); reflexivity.
  - unfold chr at 1. rewrite (Ascii.eqb_sym c ".").
    destruct (Ascii.eqb "." c); [|reflexivity]. cbn [andb].
    rewrite matchHere_Mark, matchHere_Chr.
    destruct (classChar d); [|reflexivity]. cbn [andb].
    now destruct (matchHere _ (Some d) s).
Qed.

Section Renaming2.
Variable h : text.

Lemma renamed_cases s :
  s = []
  \/ (exists s2, s = ("."%char :: h) ++ s2)
  \/ (exists c s', s = c :: s' /\ renamed h s = c :: renamed h s').
Proof.
  destruct s as [|c s]; [now left|]. right.
  destruct (isPrefix ("."%char :: h) (c :: s)) eqn:E.
  - left. apply isPrefix_split in E. eauto.
  - right. exists c, s. split; [reflexivity | now apply renamed_copy].
Qed.

Lemma renamed_brace s :
  forall p p',
    accepts [Star isWhiteSpace; Chr (chr "{")] p (renamed h s) = true ->
    accepts [Star isWhiteSpace; Chr (chr "{")] p' s = true.
Proof.
  induction s as [|c s IH]; intros p p' H; [discriminate|].
  destruct (renamed_cases (c :: s)) as [E|[(s2 & E)|(c' & s' & E & R)]]; [discriminate| |].
  - rewrite E, renamed_match in H.
    change (s2l ".btn" ++ renamed h s2) with ("."%char :: s2l "btn" ++ renamed h s2) in H.
    rewrite accepts_brace_other in H by reflexivity. discriminate.
  - injection E as <- <-. rewrite R in H.
    destruct (isWhiteSpace c) eqn:W.
    + rewrite accepts_brace_ws in * by exact W. eapply IH, H.
    + rewrite accepts_brace_other in * by exact W. exact H.
Qed.

Lemma renamed_name s :
  forall p p',
    accepts [Star classChar; Mark; Star isWhiteSpace; Chr (chr "{")] p (renamed h s) = true ->
    accepts [Star classChar; Mark; Star isWhiteSpace; Chr (chr "{")] p' s = true.
Proof.
  induction s as [|c s IH]; intros p p' H; [discriminate|].
  destruct (renamed_cases (c :: s)) as [E|[(s2 & E)|(c' & s' & E & R)]]; [discriminate| |].
  - rewrite E, renamed_match in H.
    change (s2l ".btn" ++ renamed h s2) with ("."%char :: s2l "btn" ++ renamed h s2) in H.
    rewrite accepts_name_other, accepts_brace_other in H by reflexivity. discriminate.
  - injection E as <- <-. rewrite R in H.
    destruct (classChar c) eqn:C.
    + rewrite accepts_name_class in * by exact C. eapply IH, H.
    + rewrite accepts_name_other in * by exact C.
      rewrite <- R in H. eapply renamed_brace, H.
Qed.

End Renaming2.

Lemma execMarks_cons r p c s :
  execMarks r p (c :: s)
  = match matchHere r p (c :: s) with
    | Some m => Some m
    | None => execMarks r (Some c) s
    end.
Proof.
  unfold execMarks. rewrite exec_cons.
  destruct (matchHere r p (c :: s)); [reflexivity|].
  now destruct (exec r (Some c) s) as [[[b s0] m]|].
Qed.

Lemma execMarks_reject r p c s :
  accepts r p (c :: s) = false -> execMarks r p (c :: s) = execMarks r (Some c) s.
Proof.
  unfold accepts. intros H. rewrite execMarks_cons.
  now destruct (matchHere r p (c :: s)).
Qed.

Lemma classRun_dropWhile s : classRun s ++ dropWhile classChar s = s.
Proof.
  induction s as [|c s IH]; [reflexivity|]. simpl.
  destruct (classChar c); [simpl; now rewrite IH | reflexivity].
Qed.

Lemma classRun_Forall s : Forall (fun c => classChar c = true) (classRun s).
Proof.
  induction s as [|c s IH]; simpl; [constructor|].
  destruct (classChar c) eqn:E; now constructor.
Qed.

Lemma classRun_firstn s :
  firstn (List.length s - List.length (dropWhile classChar s)) s = classRun s.
Proof.
  rewrite <- (classRun_dropWhile s) at 1 3.
  rewrite length_app.
  replace (List.length (classRun s) + List.length (dropWhile classChar s)
           - List.length (dropWhile classChar s))%nat
    with (List.length (classRun s) + 0)%nat by lia.
  rewrite firstn_app_2. simpl. apply app_nil_r.
Qed.

Lemma classRun_app run s :
  Forall (fun c => classChar c = true) run -> classRun (run ++ s) = run ++ classRun s.
Proof.
  induction 1 as [|c run Hc _ IH]; [reflexivity|]. simpl. now rewrite Hc, IH.
Qed.

(** What follows a class name in a match is no class-name character. *)
Lemma accepts_brace_classRun p s :
  accepts [Star isWhiteSpace; Chr (chr "{")] p s = true -> classRun s = [].
Proof.
  destruct s as [|c s]; [reflexivity|]. intros H. simpl.
  destruct (classChar c) eqn:C; [|reflexivity].
  destruct (classChar_facts c C) as (W & B & _).
  rewrite accepts_brace_other in H by exact W. congruence.
Qed.

Lemma accepts_name_dropWhile p s :
  accepts [Star classChar; Mark; Star isWhiteSpace; Chr (chr "{")] p s
  = accepts [Star isWhiteSpace; Chr (chr "{")] p (dropWhile classChar s).
Proof.
  revert p. induction s as [|c s IH]; intros p; [reflexivity|]. simpl.
  destruct (classChar c) eqn:C.
  - rewrite accepts_name_class by exact C. rewrite IH. apply accepts_brace_prev.
  - now apply accepts_name_other.
Qed.

Lemma matchHere_brace p s m :
  matchHere [Star isWhiteSpace; Chr (chr "{")] p s = Some m -> exists r, m = [r].
Proof.
  revert p. induction s as [|c s IH]; intros p; rewrite matchHere_Star.
  - discriminate.
  - assert (L : matchHere [Chr (chr "{")] p (c :: s) = Some m -> exists r, m = [r]).
    { rewrite matchHere_Chr. destruct (chr "{" c); [|discriminate].
      rewrite matchHere_nil. intros [= <-]. eauto. }
    destruct (isWhiteSpace c); [|exact L].
    destruct (matchHere _ (Some c) s) eqn:E; [|exact L].
    intros [= <-]. eapply IH, E.
Qed.

Lemma matchHere_name p s m :
  matchHere [Star classChar; Mark; Star isWhiteSpace; Chr (chr "{")] p s = Some m ->
  exists r, m = [dropWhile classChar s; r].
Proof.
  revert p. induction s as [|c s IH]; intros p; rewrite matchHere_Star.
  - discriminate.
  - simpl dropWhile. destruct (classChar c) eqn:C.
    + destruct (matchHere _ (Some c) s) eqn:E.
      * intros [= <-]. eapply IH, E.
      * rewrite matchHere_Mark.
        pose proof (accepts_brace_other p c s (proj1 (classChar_facts c C))) as A.
        unfold accepts in A. rewrite (proj1 (proj2 (classChar_facts c C))) in A.
        destruct (matchHere [Star isWhiteSpace; Chr (chr "{")] p (c :: s)); discriminate.
    + rewrite matchHere_Mark.
      destruct (matchHere [Star isWhiteSpace; Chr (chr "{")] p (c :: s)) eqn:E; [|discriminate].
      intros [= <-]. apply matchHere_brace in E as (r & ->). eauto.
Qed.

(** The first capture of a match of the top-level class pattern is the
    longest run of class-name characters after the full stop. *)
Lemma matchHere_TL_group p s m :
  matchHere topLevelClassRegex p s = Some m -> group m 1 = classRun (List.tl s).
Proof.
  unfold topLevelClassRegex, plus.
  change ([Bol; Chr (chr "."); Mark] ++ [Chr classChar; Star classChar]
            ++ [Mark; Star isWhiteSpace; Chr (chr "{")])
    with (Bol :: Chr (chr ".") :: Mark :: Chr classChar
              :: [Star classChar; Mark; Star isWhiteSpace; Chr (chr "{")]).
  change (matchHere (Bol :: ?r) p s) with (if atLineStart p then matchHere r p s else None).
  destruct (atLineStart p); [|discriminate].
  rewrite matchHere_Chr. destruct s as [|c s]; [discriminate|].
  destruct (chr "." c); [|discriminate].
  rewrite matchHere_Mark, matchHere_Chr. destruct s as [|d s]; [discriminate|].
  destruct (classChar d) eqn:D; [|discriminate].
  destruct (matchHere _ (Some d) s) eqn:E; [|discriminate].
  intros [= <-]. apply matchHere_name in E as (r & ->).
  unfold group, between_rests. cbn [Nat.mul Nat.sub Nat.add nth List.tl classRun].
  rewrite D.
  pose proof (dropWhile_length classChar s) as L.
  replace (List.length (d :: s) - List.length (dropWhile classChar s))%nat
    with (S (List.length s - List.length (dropWhile classChar s))) by (simpl; lia).
  cbn [firstn]. f_equal. apply classRun_firstn.
Qed.

Lemma dot_facts c :
  Ascii.eqb "." c = true ->
  isWhiteSpace c = false /\ chr "{" c = false /\ classChar c = false.
Proof. intros H. apply Ascii.eqb_eq in H. subst c. auto. Qed.

Lemma accepts_TL_other p c s :
  Ascii.eqb "." c = false -> accepts topLevelClassRegex p (c :: s) = false.
Proof.
  intros H. rewrite accepts_TL. destruct s as [|d s]; [apply andb_false_r|].
  rewrite H. apply andb_false_r.
Qed.

Lemma accepts_TL_run p q run s :
  Forall (fun c => classChar c = true) run -> run <> [] ->
  accepts topLevelClassRegex p ("."%char :: run ++ s)
  = (atLineStart p
     && accepts [Star classChar; Mark; Star isWhiteSpace; Chr (chr "{")] q s)%bool.
Proof.
  intros H N. destruct H as [|d run D H]; [contradiction|].
  simpl app. rewrite accepts_TL. change (Ascii.eqb "." ".") with true. rewrite D. cbn [andb].
  f_equal. rewrite accepts_name_run by exact H. apply accepts_name_prev.
Qed.

(** The search steps over a class name. *)
Lemma execMarks_skip run :
  Forall (fun c => classChar c = true) run -> run <> [] ->
  forall p s, exists q,
    atLineStart q = false
    /\ execMarks topLevelClassRegex p (run ++ s) = execMarks topLevelClassRegex q s.
Proof.
  induction 1 as [|c run C H IH]; intros N p s; [contradiction|].
  destruct (classChar_facts c C) as (_ & _ & D & L).
  simpl app. rewrite execMarks_reject by (apply accepts_TL_other; exact D).
  destruct run as [|d run].
  - exists (Some c). split; [exact L | reflexivity].
  - apply IH. discriminate.
Qed.

Lemma execMarks_nil p : execMarks topLevelClassRegex p [] = None.
Proof. unfold execMarks. simpl. now destruct (atLineStart p). Qed.

(** The class name that a match of the top-level class pattern captures. *)
Lemma execMarks_TL_group s p m :
  execMarks topLevelClassRegex p s = Some m ->
  group m 1 <> [] /\ Forall (fun c => classChar c = true) (group m 1).
Proof.
  unfold execMarks. destruct (exec topLevelClassRegex p s) as [[[b s0] m0]|] eqn:E; [|discriminate].
  intros [= ->]. apply exec_matchHere in E as (_ & q & M).
  rewrite (matchHere_TL_group _ _ _ M). split; [|apply classRun_Forall].
  assert (A : accepts topLevelClassRegex q s0 = true) by (unfold accepts; now rewrite M).
  rewrite accepts_TL in A. apply andb_true_iff in A as [_ A].
  destruct s0 as [|c [|d s']]; try discriminate.
  apply andb_true_iff in A as [A _]. apply andb_true_iff in A as [_ D].
  simpl. rewrite D. discriminate.
Qed.

Section Renaming3.
Variable h : text.
Hypothesis h_class : Forall (fun c => classChar c = true) h.
Hypothesis h_nonempty : h <> [].

Lemma renamed_brace_conv s :
  forall p p',
    accepts [Star isWhiteSpace; Chr (chr "{")] p s = true ->
    accepts [Star isWhiteSpace; Chr (chr "{")] p' (renamed h s) = true.
Proof.
  induction s as [|c s IH]; intros p p' H; [discriminate|].
  assert (D : Ascii.eqb "." c = false).
  { destruct (Ascii.eqb "." c) eqn:D; [|reflexivity].
    destruct (dot_facts c D) as (W & B & _).
    rewrite accepts_brace_other in H by exact W. congruence. }
  rewrite renamed_other by exact D.
  destruct (isWhiteSpace c) eqn:W.
  - rewrite accepts_brace_ws in * by exact W. eapply IH, H.
  - rewrite accepts_brace_other in * by exact W. exact H.
Qed.

Lemma btn_class : Forall (fun c => classChar c = true) (s2l "btn").
Proof. repeat constructor. Qed.

(** Where the style sheet has its first top-level class, named [h], the
    renamed style sheet has its first top-level class, named [btn]. *)
Lemma execMarks_renamed :
  forall n s, (List.length s <= n)%nat ->
  forall p p' m,
    atLineStart p = atLineStart p' ->
    execMarks topLevelClassRegex p s = Some m -> group m 1 = h ->
    exists m', execMarks topLevelClassRegex p' (renamed h s) = Some m'
               /\ group m' 1 = s2l "btn".
Proof.
  induction n as [|n IH]; intros s Hn p p' m Hp E G.
  { destruct s; [|simpl in Hn; lia]. now rewrite execMarks_nil in E. }
  destruct s as [|c s1]; [now rewrite execMarks_nil in E|].
  destruct (accepts topLevelClassRegex p (c :: s1)) eqn:A.
  - (* the first class is defined here *)
    assert (M : matchHere topLevelClassRegex p (c :: s1) = Some m).
    { rewrite execMarks_cons in E. unfold accepts in A.
      now destruct (matchHere topLevelClassRegex p (c :: s1)). }
    pose proof (matchHere_TL_group _ _ _ M) as G'. rewrite G in G'. simpl List.tl in G'.
    rewrite accepts_TL in A. apply andb_true_iff in A as [Lp A].
    destruct s1 as [|d s']; [discriminate|].
    apply andb_true_iff in A as [A T]. apply andb_true_iff in A as [Ec D].
    apply Ascii.eqb_eq in Ec. subst c.
    rewrite accepts_name_dropWhile in T.
    assert (S1 : "."%char :: d :: s' = ("."%char :: h) ++ dropWhile classChar (d :: s')).
    { rewrite G'. change (("."%char :: classRun (d :: s')) ++ dropWhile classChar (d :: s'))
        with ("."%char :: classRun (d :: s') ++ dropWhile classChar (d :: s')).
      now rewrite classRun_dropWhile. }
    simpl dropWhile in S1. rewrite D in S1.
    set (t := dropWhile classChar s') in *.
    rewrite S1, renamed_match.
    pose proof (renamed_brace_conv t (Some d) (Some "n"%char) T) as T'.
    pose proof (accepts_brace_classRun _ _ T') as R.
    assert (A2 : accepts topLevelClassRegex p' (s2l ".btn" ++ renamed h t) = true).
    { change (s2l ".btn" ++ renamed h t) with ("."%char :: s2l "btn" ++ renamed h t).
      rewrite (accepts_TL_run p' (Some "n"%char)) by (apply btn_class || discriminate).
      rewrite <- Hp, Lp. cbn [andb]. rewrite accepts_name_dropWhile.
      pose proof (classRun_dropWhile (renamed h t)) as Q. rewrite R in Q. simpl in Q.
      now rewrite Q. }
    unfold accepts in A2.
    destruct (matchHere topLevelClassRegex p' (s2l ".btn" ++ renamed h t)) as [m'|] eqn:M';
      [|discriminate].
    exists m'. split.
    + change (s2l ".btn" ++ renamed h t) with ("."%char :: s2l "btn" ++ renamed h t) in *.
      now rewrite execMarks_cons, M'.
    + rewrite (matchHere_TL_group _ _ _ M').
      change (List.tl (s2l ".btn" ++ renamed h t)) with (s2l "btn" ++ renamed h t).
      rewrite classRun_app by apply btn_class. rewrite R. apply app_nil_r.
  - (* the first class is defined further on *)
    rewrite execMarks_reject in E by exact A.
    destruct (isPrefix ("."%char :: h) (c :: s1)) eqn:P.
    + apply isPrefix_split in P. simpl in P.
      set (s2 := skipn (List.length h) s1) in *.
      injection P as -> P.
      assert (L2 : (List.length s2 <= n)%nat).
      { rewrite P in Hn. simpl in Hn. rewrite length_app in Hn. lia. }
      rewrite P in A, E |- *. clearbody s2. clear P s1 Hn.
      destruct (execMarks_skip h h_class h_nonempty (Some "."%char) s2) as (q & Q & Eq).
      rewrite Eq in E.
      change ("."%char :: h ++ s2) with (("."%char :: h) ++ s2).
      rewrite renamed_match.
      change (s2l ".btn" ++ renamed h s2) with ("."%char :: s2l "btn" ++ renamed h s2).
      assert (A2 : accepts topLevelClassRegex p' ("."%char :: s2l "btn" ++ renamed h s2) = false).
      { rewrite (accepts_TL_run p None) in A by assumption.
        rewrite (accepts_TL_run p' None) by (apply btn_class || discriminate).
        rewrite <- Hp. destruct (atLineStart p); [|reflexivity]. cbn [andb] in *.
        destruct (accepts _ None (renamed h s2)) eqn:T; [|reflexivity].
        apply (renamed_name h s2 None None) in T. congruence. }
      rewrite execMarks_reject by exact A2.
      destruct (execMarks_skip (s2l "btn") btn_class ltac:(discriminate)
                  (Some "."%char) (renamed h s2)) as (q' & Q' & Eq').
      rewrite Eq'. apply (IH s2 L2 q q' m); [congruence | exact E | exact G].
    + rewrite renamed_copy by assumption.
      assert (A2 : accepts topLevelClassRegex p' (c :: renamed h s1) = false).
      { destruct (Ascii.eqb "." c) eqn:Ec; [|now apply accepts_TL_other].
        destruct (accepts topLevelClassRegex p' (c :: renamed h s1)) eqn:A2; [|reflexivity].
        exfalso. rewrite accepts_TL in A2. apply andb_true_iff in A2 as [Lp A2].
        destruct (renamed h s1) as [|d s''] eqn:R; [discriminate|].
        apply andb_true_iff in A2 as [A2 T]. apply andb_true_iff in A2 as [_ D].
        destruct (classChar_facts d D) as (_ & _ & Dd & _).
        destruct (renamed_cases h s1) as [Z|[(s2 & Z)|(c' & s1' & Z & R')]].
        - subst s1. discriminate.
        - rewrite Z, renamed_match in R. injection R as R _. subst d.
          discriminate.
        - rewrite R' in R. injection R as -> R. subst s1 s''.
          apply (renamed_name h s1' (Some d) (Some d)) in T.
          rewrite accepts_TL, Hp, Lp, Ec, D, T in A. discriminate. }
      rewrite execMarks_reject by exact A2.
      apply (IH s1 ltac:(simpl in Hn; lia) (Some c) (Some c) m); [reflexivity | exact E | exact G].
Qed.

End Renaming3.

Lemma normalizeSelectors_content_again (html scss : string) :
  let r := normalizeSelectors_content html scss in
  normalizeSelectors_content html (snd r) = (false, snd r)
  /\ (fst r = true ->
      exists b s0 m,
        exec topLevelClassRegex None (s2l (snd r)) = Some (b, s0, m)
        /\ l2s (group m 1) = "btn").
Proof.
  cbv zeta. unfold normalizeSelectors_content at 2 3 4 5.
  destruct (includes html _ || includes html _)%bool eqn:Hh; cbn [fst snd].
  2: { unfold normalizeSelectors_content. rewrite Hh. split; [reflexivity | discriminate]. }
  destruct (negb (includes scss ".btn {") && negb (includes scss ".btn:")
            && negb (includes scss ".btn,"))%bool eqn:Hd; cbn [fst snd].
  2: { unfold normalizeSelectors_content. rewrite Hh, Hd. split; [reflexivity | discriminate]. }
  destruct (exec topLevelClassRegex None (s2l scss)) as [[[b s0] m]|] eqn:E; cbn [fst snd].
  2: { unfold normalizeSelectors_content. rewrite Hh, Hd, E. split; [reflexivity | discriminate]. }
  destruct (String.eqb (l2s (group m 1)) "btn") eqn:B; cbn [negb fst snd].
  { unfold normalizeSelectors_content. rewrite Hh, Hd, E, B. split; [reflexivity | discriminate]. }
  assert (M : execMarks topLevelClassRegex None (s2l scss) = Some m)
    by (unfold execMarks; now rewrite E).
  destruct (execMarks_TL_group _ _ _ M) as (N & C).
  destruct (execMarks_renamed (group m 1) C N _ (s2l scss) (le_n _) None None m
              eq_refl M eq_refl) as (m' & M' & G').
  assert (O : replaceAll (classRegex (l2s (group m 1))) (template 0 ".btn") scss
              = l2s (renamed (group m 1) (s2l scss))) by reflexivity.
  rewrite O. clear O.
  unfold execMarks in M'.
  destruct (exec topLevelClassRegex None (renamed (group m 1) (s2l scss)))
    as [[[b' s0'] m'']|] eqn:E'; [|discriminate].
  injection M' as ->.
  split.
  - unfold normalizeSelectors_content. rewrite Hh, s2l_l2s, E', G'.
    change (negb (l2s (s2l "btn") =? "btn")%string) with false.
    match goal with |- (if ?c then _ else _) = _ => destruct c end; reflexivity.
  - intros _. exists b', s0', m'. rewrite s2l_l2s, G'. split; [exact E' | reflexivity].
Qed.

(** X23: selector normalization is idempotent.  Once it has renamed a
    class, the first top-level class of the style sheet is [btn], so a
    second normalization with the same markup changes nothing; and a
    normalization that changes nothing stays so. *)
Theorem normalizeSelectors_idempotent :
  (forall files : Files, normalizeSelectors (normalizeSelectors files) = normalizeSelectors files)
  /\ (forall html scss : string,
         let r := normalizeSelectors_content html scss in
         normalizeSelectors_content html (snd r) = (false, snd r)
         /\ (fst r = true ->
             exists b s0 m,
               exec topLevelClassRegex None (s2l (snd r)) = Some (b, s0, m)
               /\ l2s (group m 1) = "btn")).
Proof.
  split; [|exact normalizeSelectors_content_again].
  intros files.
  destruct (html files) as [h|] eqn:Hh.
  2: { assert (E : normalizeSelectors files = files)
         by (unfold normalizeSelectors; now rewrite Hh).
       now rewrite !E. }
  destruct (scss files) as [sc|] eqn:Hs.
  2: { assert (E : normalizeSelectors files = files)
         by (unfold normalizeSelectors; now rewrite Hh, Hs).
       now rewrite !E. }
  pose proof (normalizeSelectors_content_again (content h) (content sc)) as [A _].
  destruct (normalizeSelectors_content (content h) (content sc)) as [[] out] eqn:R;
    cbn [fst snd] in A.
  - assert (E : normalizeSelectors files
                = mkFiles (typescript files) (html files) (Some (setContent sc out))
                          (story files) (errors files))
      by (unfold normalizeSelectors; now rewrite Hh, Hs, R).
    rewrite !E. unfold normalizeSelectors. cbn [html scss]. rewrite Hh.
    change (content (setContent sc out)) with out. now rewrite A.
  - assert (E : normalizeSelectors files = files)
      by (unfold normalizeSelectors; now rewrite Hh, Hs, R).
    now rewrite !E.
Qed.

Lemma normalizeSelectors_idempotent_witness :
  normalizeSelectors_content heroMarkup heroSheet
  = (true, lines ["h1 { margin: 0 }"; ".btn{"; "  .btn-title { color: red }"; "}"])
  /\ exists b s0 m,
       exec topLevelClassRegex None
         (s2l (snd (normalizeSelectors_content heroMarkup heroSheet))) = Some (b, s0, m)
       /\ l2s (group m 1) = "btn".
Proof.
  split; [vm_compute; reflexivity|].
  apply (proj2 (proj2 normalizeSelectors_idempotent heroMarkup heroSheet)).
  vm_compute. reflexivity.
Defined.
